(** * chesspy: a terminal and a desktop front-end over a chess rules library

    Shallow embedding of [chesspy.py] (the curses application) and of
    [chesspy_windows.py] (the pygame application), and the properties of the
    specification checked against it.

    The two programs own no chess logic.  Everything that the rules library,
    the UCI engine, the tablebase, the HTTP client and the socket do is taken
    through an interface ([ChessLib]) or as an input of the step that asks
    for it; the code between those calls is embedded as it is written. *)

From Stdlib Require Import ZArith NArith List Bool Lia String Ascii.
From Stdlib Require Import DecimalString.
From Stdlib Require Import Floats.SpecFloat.
From stdpp Require Import gmap.
Import ListNotations.

Local Open Scope Z_scope.

(** ** The Python values the programs handle *)

Module Py.

(** A [str] is a sequence of Unicode code points. *)
Definition pychar := N.
Definition pystr := list pychar.

(** [bytes] as received from a socket. *)
Definition pybytes := list N.

(** The exception classes that reach the handlers of the two programs.  All
    of them derive from [Exception]; [SystemExit] (raised by [sys.exit]) does
    not, and is an outcome of the loops that call it, not a value of this
    type. *)
Inductive exn_class :=
| ValueError
| IndexError
| KeyError
| TypeError
| AttributeError
| ZeroDivisionError
| OverflowError
| UnicodeDecodeError
| OSError
| EngineError
| OtherError.

(** An exception instance: its class and [str(e)]. *)
Record exn := mk_exn { exn_cls : exn_class; exn_str : pystr }.

(** The outcome of an expression that may raise. *)
Inductive result (A : Type) :=
| Ok (a : A)
| Raise (e : exn).
Arguments Ok {A} a.
Arguments Raise {A} e.

Definition rbind {A B} (r : result A) (k : A -> result B) : result B :=
  match r with
  | Ok a => k a
  | Raise e => Raise e
  end.

(** *** UTF-8

    [bytes.decode()] (strict UTF-8), also used to read the literals of this
    file, whose source text is UTF-8. *)

Definition is_cont (b : N) : bool := ((128 <=? b) && (b <=? 191))%N.

Definition decode_error : exn :=
  mk_exn UnicodeDecodeError
    [117; 116; 102; 45; 56; 32; 99; 111; 100; 101; 99; 32; 99; 97; 110; 39; 116;
     32; 100; 101; 99; 111; 100; 101]%N.

Fixpoint utf8_decode_fuel (fuel : nat) (bs : pybytes) : result pystr :=
  match fuel with
  | O => Ok []
  | S fuel' =>
    match bs with
    | [] => Ok []
    | b0 :: r0 =>
      if (b0 <? 128)%N then
        rbind (utf8_decode_fuel fuel' r0) (fun s => Ok (b0 :: s))
      else if ((194 <=? b0) && (b0 <=? 223))%N then
        match r0 with
        | b1 :: r1 =>
          if is_cont b1 then
            rbind (utf8_decode_fuel fuel' r1)
                  (fun s => Ok (((b0 - 192) * 64 + (b1 - 128))%N :: s))
          else Raise decode_error
        | _ => Raise decode_error
        end
      else if ((224 <=? b0) && (b0 <=? 239))%N then
        match r0 with
        | b1 :: b2 :: r2 =>
          let c := (((b0 - 224) * 4096) + ((b1 - 128) * 64) + (b2 - 128))%N in
          if is_cont b1 && is_cont b2
             && (2048 <=? c)%N && negb ((55296 <=? c) && (c <=? 57343))%N then
            rbind (utf8_decode_fuel fuel' r2) (fun s => Ok (c :: s))
          else Raise decode_error
        | _ => Raise decode_error
        end
      else if ((240 <=? b0) && (b0 <=? 244))%N then
        match r0 with
        | b1 :: b2 :: b3 :: r3 =>
          let c := (((b0 - 240) * 262144) + ((b1 - 128) * 4096)
                    + ((b2 - 128) * 64) + (b3 - 128))%N in
          if is_cont b1 && is_cont b2 && is_cont b3
             && (65536 <=? c)%N && (c <=? 1114111)%N then
            rbind (utf8_decode_fuel fuel' r3) (fun s => Ok (c :: s))
          else Raise decode_error
        | _ => Raise decode_error
        end
      else Raise decode_error
    end
  end.

(** Every step consumes a byte, so the length of the input is enough fuel. *)
Definition utf8_decode (bs : pybytes) : result pystr :=
  utf8_decode_fuel (length bs) bs.

Definition bytes_of_string (s : string) : pybytes :=
  map (fun b => N.of_nat (nat_of_ascii b)) (list_ascii_of_string s).

(** A literal of the source, as a [str]. *)
Definition u (s : string) : pystr :=
  match utf8_decode (bytes_of_string s) with
  | Ok l => l
  | Raise _ => []
  end.

(** *** [str] methods *)

(** [str.isspace] on one code point: the Unicode white space. *)
Definition py_isspace (c : pychar) : bool :=
  (((9 <=? c) && (c <=? 13)) || ((28 <=? c) && (c <=? 32))
   || (c =? 133) || (c =? 160) || (c =? 5760)
   || ((8192 <=? c) && (c <=? 8202))
   || (c =? 8232) || (c =? 8233) || (c =? 8239) || (c =? 8287)
   || (c =? 12288))%N.

Fixpoint py_lstrip (s : pystr) : pystr :=
  match s with
  | [] => []
  | c :: s' => if py_isspace c then py_lstrip s' else s
  end.

Definition py_rstrip (s : pystr) : pystr := rev (py_lstrip (rev s)).

Definition py_strip (s : pystr) : pystr := py_rstrip (py_lstrip s).

(** [s.split()]: the maximal runs of non-space code points.  [split_ws_go]
    returns the run that starts at the head (empty when the head is a space)
    and the runs after it. *)
Fixpoint split_ws_go (s : pystr) : pystr * list pystr :=
  match s with
  | [] => ([], [])
  | c :: s' =>
    let '(w, ws) := split_ws_go s' in
    if py_isspace c
    then ([], match w with [] => ws | _ :: _ => w :: ws end)
    else (c :: w, ws)
  end.

Definition py_split_ws (s : pystr) : list pystr :=
  let '(w, ws) := split_ws_go s in
  match w with [] => ws | _ :: _ => w :: ws end.

(** [s.split(sep)] for a separator of one code point: the field that starts
    at the head, and the fields after it. *)
Fixpoint split_on_go (sep : pychar) (s : pystr) : pystr * list pystr :=
  match s with
  | [] => ([], [])
  | c :: s' =>
    let '(w, ws) := split_on_go sep s' in
    if (c =? sep)%N then ([], w :: ws) else (c :: w, ws)
  end.

Definition py_split_on (sep : pychar) (s : pystr) : list pystr :=
  let '(w, ws) := split_on_go sep s in w :: ws.

Fixpoint py_startswith (p s : pystr) : bool :=
  match p, s with
  | [], _ => true
  | _ :: _, [] => false
  | a :: p', b :: s' => (a =? b)%N && py_startswith p' s'
  end.

(** [c in s] for a code point [c]. *)
Definition py_contains (c : pychar) (s : pystr) : bool :=
  existsb (fun x => (x =? c)%N) s.

Fixpoint pystr_eqb (a b : pystr) : bool :=
  match a, b with
  | [], [] => true
  | x :: a', y :: b' => (x =? y)%N && pystr_eqb a' b'
  | _, _ => false
  end.

(** [str.lower] on the code points the callers can pass: the input line of
    the curses application holds code points 32..126 only, and the colour
    given to [launch_online_game] is a literal. *)
Definition py_lower_char (c : pychar) : pychar :=
  if ((65 <=? c) && (c <=? 90))%N then (c + 32)%N else c.

Definition py_lower (s : pystr) : pystr := map py_lower_char s.

(** [sep.join(parts)]. *)
Fixpoint py_join (sep : pystr) (parts : list pystr) : pystr :=
  match parts with
  | [] => []
  | [p] => p
  | p :: rest => p ++ sep ++ py_join sep rest
  end.

(** [s[:n]] for [n >= 0]. *)
Definition py_prefix (n : nat) (s : pystr) : pystr := firstn n s.

(** [s[:-1]]. *)
Definition py_drop_last (s : pystr) : pystr := removelast s.

(** [f"{s:80s}"]: left-aligned in a field of the given width. *)
Definition py_ljust (width : nat) (s : pystr) : pystr :=
  s ++ repeat 32%N (width - length s)%nat.

(** [str(n)] for an [int]. *)
Definition py_str_int (z : Z) : pystr :=
  map (fun b => N.of_nat (nat_of_ascii b))
      (list_ascii_of_string (NilZero.string_of_int (Z.to_int z))).

(** [int(s)] for a decimal literal: white space around it, a sign, ASCII
    digits.  (The programs apply it to the text that follows ["cp "] in an
    evaluation, which [str] of an [int] wrote.) *)
Definition is_digit (c : pychar) : bool := ((48 <=? c) && (c <=? 57))%N.

Definition digits_value (ds : pystr) : Z :=
  fold_left (fun acc c => acc * 10 + (Z.of_N c - 48)) ds 0.

Definition int_literal_error (s : pystr) : exn :=
  mk_exn ValueError
         (u "invalid literal for int() with base 10: '" ++ s ++ u "'").

Definition py_int_of_str (s : pystr) : result Z :=
  let t := py_strip s in
  let '(neg, ds) :=
    match t with
    | 45%N :: r => (true, r)
    | 43%N :: r => (false, r)
    | _ => (false, t)
    end in
  match ds with
  | [] => Raise (int_literal_error s)
  | _ :: _ =>
    if forallb is_digit ds
    then Ok (if neg then - digits_value ds else digits_value ds)
    else Raise (int_literal_error s)
  end.

(** [range(n)]. *)
Definition py_range (n : Z) : list Z := map Z.of_nat (seq 0 (Z.to_nat n)).

(** *** [float]

    A [float] is an IEEE 754 binary64 number; the operations are those of the
    Standard Library's executable specification. *)

Definition prec : Z := 53.
Definition emax : Z := 1024.
Definition pyfloat := spec_float.

Definition overflow_error (msg : string) : exn := mk_exn OverflowError (u msg).

(** [float(n)]: the nearest double, ties to even. *)
Definition float_of_int (z : Z) : result pyfloat :=
  match binary_normalize prec emax z 0 false with
  | S754_infinity _ => Raise (overflow_error "int too large to convert to float")
  | f => Ok f
  end.

(** [a / b] on two [int]: the correctly rounded quotient. *)
Definition py_truediv (a b : Z) : result pyfloat :=
  match a, b with
  | _, Z0 => Raise (mk_exn ZeroDivisionError (u "division by zero"))
  | Z0, _ => Ok (S754_zero (b <? 0))
  | _, _ =>
    match SFdiv prec emax
            (S754_finite (a <? 0) (Z.to_pos (Z.abs a)) 0)
            (S754_finite (b <? 0) (Z.to_pos (Z.abs b)) 0) with
    | S754_infinity _ =>
      Raise (overflow_error "integer division result too large for a float")
    | f => Ok f
    end
  end.

(** [x + n] for a [float] and an [int]. *)
Definition py_add_float_int (x : pyfloat) (n : Z) : result pyfloat :=
  rbind (float_of_int n) (fun y => Ok (SFadd prec emax x y)).

(** [x * n] for a [float] and an [int]. *)
Definition py_mul_float_int (x : pyfloat) (n : Z) : result pyfloat :=
  rbind (float_of_int n) (fun y => Ok (SFmul prec emax x y)).

(** The integer nearest to [m * 2^e], ties to even. *)
Definition nearest_even (m e : Z) : Z :=
  if 0 <=? e then m * 2 ^ e
  else
    let d := 2 ^ (- e) in
    let q := m / d in
    let r := m mod d in
    match 2 * r ?= d with
    | Lt => q
    | Gt => q + 1
    | Eq => if Z.even q then q else q + 1
    end.

(** [round(x)] for a [float]: the nearest [int], ties to even. *)
Definition py_round (x : pyfloat) : result Z :=
  match x with
  | S754_zero _ => Ok 0
  | S754_infinity _ =>
    Raise (overflow_error "cannot convert float infinity to integer")
  | S754_nan => Raise (mk_exn ValueError (u "cannot convert float NaN to integer"))
  | S754_finite s m e =>
    let v := nearest_even (Zpos m) e in
    Ok (if s then - v else v)
  end.

(** [int(x)] for a [float]: truncation towards zero. *)
Definition py_int_of_float (x : pyfloat) : result Z :=
  match x with
  | S754_zero _ => Ok 0
  | S754_infinity _ =>
    Raise (overflow_error "cannot convert float infinity to integer")
  | S754_nan => Raise (mk_exn ValueError (u "cannot convert float NaN to integer"))
  | S754_finite s m e =>
    let v := if 0 <=? e then Zpos m * 2 ^ e else Zpos m / 2 ^ (- e) in
    Ok (if s then - v else v)
  end.

(** [f"{x:.2f}"]: the decimal with two places nearest to the exact value of
    [x], ties to even. *)
Definition py_format_2f (x : pyfloat) : pystr :=
  match x with
  | S754_nan => u "nan"
  | S754_infinity s => if s then u "-inf" else u "inf"
  | S754_zero s => (if s then u "-" else []) ++ u "0.00"
  | S754_finite s m e =>
    let n := nearest_even (Zpos m * 100) e in
    (if s then u "-" else [])
      ++ py_str_int (n / 100) ++ u "."
      ++ [Z.to_N (48 + (n mod 100) / 10); Z.to_N (48 + (n mod 100) mod 10)]
  end.

End Py.

Import Py.

(** ** The rules library, as the programs see it

    [python-chess] is not part of the repository.  Its objects are abstract;
    the functions are the methods the two programs call.  A method that can
    raise returns a [result].  [board.legal_moves] is a finite collection:
    [mv in board.legal_moves] is membership in it and
    [list(board.legal_moves)] enumerates it. *)

Record Piece := mk_piece { piece_type : Z; color : bool }.

Definition WHITE : bool := true.
Definition BLACK : bool := false.

(** [chess.square(file, rank)]: squares are the integers 0..63. *)
Definition square (file rank : Z) : Z := rank * 8 + file.

(** [piece.symbol().lower()]: the letter of the piece type
    ([chess.PAWN = 1] .. [chess.KING = 6]). *)
Definition symbol_lower (p : Piece) : pystr :=
  match piece_type p with
  | 1 => u "p" | 2 => u "n" | 3 => u "b" | 4 => u "r" | 5 => u "q" | 6 => u "k"
  | _ => []
  end.

Class ChessLib := {
  Board : Type;
  Move : Type;
  (** [Move.__eq__] *)
  Move_eq_dec : forall a b : Move, {a = b} + {a <> b};
  (** [chess.Board()] *)
  Board_new : Board;
  (** [chess.Board(fen)] *)
  Board_of_fen : pystr -> result Board;
  (** [board.turn] *)
  turn : Board -> bool;
  (** [board.piece_at(square)] *)
  piece_at : Board -> Z -> option Piece;
  (** [board.piece_map()], as the list of its items *)
  piece_map : Board -> list (Z * Piece);
  (** [board.legal_moves] *)
  legal_moves : Board -> list Move;
  (** [board.push(move)] *)
  push : Board -> Move -> Board;
  (** [board.san(move)] *)
  san : Board -> Move -> result pystr;
  (** [board.parse_uci(text)], [board.parse_san(text)] *)
  parse_uci : Board -> pystr -> result Move;
  parse_san : Board -> pystr -> result Move;
  (** [board.push_uci(text)]: the board after the move, or the exception *)
  push_uci : Board -> pystr -> result Board;
  (** [board.is_game_over()], [board.result()], [board.fen()] *)
  is_game_over : Board -> bool;
  board_result : Board -> pystr;
  fen : Board -> pystr;
  (** [chess.Move(from_square, to_square)], [chess.Move.from_uci(text)],
      [move.uci()], [bool(move)] *)
  Move_new : Z -> Z -> Move;
  Move_from_uci : pystr -> result Move;
  uci : Move -> pystr;
  Move_bool : Move -> bool;
  (** [with chess.syzygy.open_tablebase(path) as t: t.probe_wdl(board)]:
      the tablebase files are read only, so the outcome is a function of the
      directory and the position *)
  probe_wdl : pystr -> Board -> result Z;
  (** the main line of [chess.pgn.read_game(io.StringIO(pgn))]: the starting
      board of the game and its moves *)
  read_game : pystr -> result (Board * list Move)
}.

(** [mv in board.legal_moves] *)
Definition is_legal `{ChessLib} (b : Board) (mv : Move) : bool :=
  if in_dec Move_eq_dec mv (legal_moves b) then true else false.

(** What the engine library hands back. *)
Inductive Score :=
| Cp (n : Z)      (** centipawns *)
| Mate (n : Z).   (** mate in [n]; a mate already on the board is [Mate 0] *)

Record Info `{ChessLib} := mk_info {
  info_score : option Score;       (** [inf["score"]] seen from White, if present *)
  info_rel : option Score;         (** [inf["score"].relative], if present *)
  info_pv : option (list Move)     (** [inf.get("pv")] *)
}.

(** [engine.analyse] returns one dictionary, or a list of them with
    [multipv]. *)
Inductive Infos `{ChessLib} :=
| InfoDict (i : Info)
| InfoList (l : list Info).

(** A running engine process ([SimpleEngine]), started from a command. *)
Inductive engine_handle := SimpleEngine (path : pystr).

(** The exception of [board.san(None)]: the library dereferences the move. *)
Definition none_move_error : exn :=
  mk_exn AttributeError (u "'NoneType' object has no attribute 'from_square'").

(** How the model of a game loop ends: the game is over, the user left, or
    the inputs given to the model are used up while the program still
    waits. *)
Inductive loop_end := GameOver | UserExit | InputEnded.

(** ** chesspy.py *)

Module Chesspy.

Definition ENGINE_PATH : pystr := u "./stockfish-ubuntu-x86-64-avx2".
Definition TB_PATH : option pystr := None.
Definition MULTI_PV : Z := 3.
Definition USE_SYZYGY_AFTER_MOVE : bool := true.

Definition UNICODE_PIECES : gmap (Z * bool) pystr :=
  list_to_map
    [ ((1, true), u "♙"); ((2, true), u "♘"); ((3, true), u "♗");
      ((4, true), u "♖"); ((5, true), u "♕"); ((6, true), u "♔");
      ((1, false), u "♟"); ((2, false), u "♞"); ((3, false), u "♝");
      ((4, false), u "♜"); ((5, false), u "♛"); ((6, false), u "♚") ].

Definition piece_to_unicode (piece : Piece) : pystr :=
  default (u "?") (UNICODE_PIECES !! (piece_type piece, color piece)).

(** [generate_thermometer(cp, cp_range=300, length=15)]. *)
Definition generate_thermometer (cp cp_range length : Z) : result pystr :=
  let cp := Z.max (- cp_range) (Z.min cp cp_range) in
  let center := length / 2 in
  rbind (py_truediv cp cp_range) (fun q =>
  rbind (py_mul_float_int q center) (fun x =>
  rbind (py_round x) (fun offset =>
  let marker := center + offset in
  let bar :=
    fold_left (fun bar i => bar ++ (if i =? marker then u "█" else u "-"))
              (py_range length) [] in
  Ok (u "[" ++ bar ++ u "]")))).

Section WithLib.
Context `{ChessLib}.

(** One rank of the board, files a..h. *)
Definition board_row (board : Board) (rank : Z) : pystr :=
  py_rstrip
    (fold_left
       (fun row_str file =>
          match piece_at board (square file rank) with
          | Some piece => row_str ++ piece_to_unicode piece ++ u " "
          | None => row_str ++ u ". "
          end)
       (py_range 8) []).

Definition board_to_unicode_str (board : Board) : pystr :=
  py_join (u (String "010" EmptyString))
          (map (board_row board) (rev (py_range 8))).

Definition parse_move (user_input : pystr) (board : Board) : result Move :=
  let s := py_strip user_input in
  let s :=
    if py_contains 46%N s then
      match rev (py_split_ws s) with
      | last_token :: _ => last_token
      | [] => s
      end
    else s in
  match parse_uci board s with
  | Ok mv => Ok mv
  | Raise _ => parse_san board s
  end.

(** *** The application object

    [ChessApp] with its attributes.  [stdscr] is the curses window: what has
    been written to it since it was last cleared, as (row, column, text), the
    window taken large enough for every write.  [tb_log] is not an attribute:
    it records each tablebase probe the program makes, and [push_log] each
    [self.board.push(mv)] with the board it was applied to. *)
Record ChessApp := mk_app {
  stdscr : list (Z * Z * pystr);
  board : Board;
  engine : option engine_handle;
  tb_path : option pystr;
  human_color : bool;
  move_count : Z;
  last_move_white : pystr;
  last_move_black : pystr;
  input_line : pystr;
  best_eval_str : pystr;
  analysis_variants : list (Z * pystr * pystr);
  status_msg : pystr;
  tb_log : list (pystr * Board);
  push_log : list (Board * Move)
}.

Definition set_stdscr v a :=
  mk_app v (board a) (engine a) (tb_path a) (human_color a) (move_count a)
        (last_move_white a) (last_move_black a) (input_line a) (best_eval_str
        a) (analysis_variants a) (status_msg a) (tb_log a) (push_log a).
Definition set_board v a :=
  mk_app (stdscr a) v (engine a) (tb_path a) (human_color a) (move_count a)
        (last_move_white a) (last_move_black a) (input_line a) (best_eval_str
        a) (analysis_variants a) (status_msg a) (tb_log a) (push_log a).
Definition set_engine v a :=
  mk_app (stdscr a) (board a) v (tb_path a) (human_color a) (move_count a)
        (last_move_white a) (last_move_black a) (input_line a) (best_eval_str
        a) (analysis_variants a) (status_msg a) (tb_log a) (push_log a).
Definition set_tb_path v a :=
  mk_app (stdscr a) (board a) (engine a) v (human_color a) (move_count a)
        (last_move_white a) (last_move_black a) (input_line a) (best_eval_str
        a) (analysis_variants a) (status_msg a) (tb_log a) (push_log a).
Definition set_human_color v a :=
  mk_app (stdscr a) (board a) (engine a) (tb_path a) v (move_count a)
        (last_move_white a) (last_move_black a) (input_line a) (best_eval_str
        a) (analysis_variants a) (status_msg a) (tb_log a) (push_log a).
Definition set_move_count v a :=
  mk_app (stdscr a) (board a) (engine a) (tb_path a) (human_color a) v
        (last_move_white a) (last_move_black a) (input_line a) (best_eval_str
        a) (analysis_variants a) (status_msg a) (tb_log a) (push_log a).
Definition set_last_move_white v a :=
  mk_app (stdscr a) (board a) (engine a) (tb_path a) (human_color a)
        (move_count a) v (last_move_black a) (input_line a) (best_eval_str a)
        (analysis_variants a) (status_msg a) (tb_log a) (push_log a).
Definition set_last_move_black v a :=
  mk_app (stdscr a) (board a) (engine a) (tb_path a) (human_color a)
        (move_count a) (last_move_white a) v (input_line a) (best_eval_str a)
        (analysis_variants a) (status_msg a) (tb_log a) (push_log a).
Definition set_input_line v a :=
  mk_app (stdscr a) (board a) (engine a) (tb_path a) (human_color a)
        (move_count a) (last_move_white a) (last_move_black a) v
        (best_eval_str a) (analysis_variants a) (status_msg a) (tb_log a)
        (push_log a).
Definition set_best_eval_str v a :=
  mk_app (stdscr a) (board a) (engine a) (tb_path a) (human_color a)
        (move_count a) (last_move_white a) (last_move_black a) (input_line a)
        v (analysis_variants a) (status_msg a) (tb_log a) (push_log a).
Definition set_analysis_variants v a :=
  mk_app (stdscr a) (board a) (engine a) (tb_path a) (human_color a)
        (move_count a) (last_move_white a) (last_move_black a) (input_line a)
        (best_eval_str a) v (status_msg a) (tb_log a) (push_log a).
Definition set_status_msg v a :=
  mk_app (stdscr a) (board a) (engine a) (tb_path a) (human_color a)
        (move_count a) (last_move_white a) (last_move_black a) (input_line a)
        (best_eval_str a) (analysis_variants a) v (tb_log a) (push_log a).
Definition set_tb_log v a :=
  mk_app (stdscr a) (board a) (engine a) (tb_path a) (human_color a)
        (move_count a) (last_move_white a) (last_move_black a) (input_line a)
        (best_eval_str a) (analysis_variants a) (status_msg a) v (push_log a).
Definition set_push_log v a :=
  mk_app (stdscr a) (board a) (engine a) (tb_path a) (human_color a)
        (move_count a) (last_move_white a) (last_move_black a) (input_line a)
        (best_eval_str a) (analysis_variants a) (status_msg a) (tb_log a) v.

(** [ChessApp.__init__] *)
Definition init : ChessApp :=
  mk_app [] Board_new None TB_PATH WHITE 1 (u "-") (u "-") [] (u "---") [] [] []
         [].

(** A method of the application: it changes the object and returns or
    raises.  What was assigned before an exception stays assigned. *)
Definition M (A : Type) : Type := ChessApp -> ChessApp * result A.

Definition ret {A} (a : A) : M A := fun app => (app, Ok a).
Definition bind {A B} (m : M A) (k : A -> M B) : M B :=
  fun app =>
    match m app with
    | (app', Ok a) => k a app'
    | (app', Raise e) => (app', Raise e)
    end.
Definition lift {A} (r : result A) : M A := fun app => (app, r).
Definition read {A} (f : ChessApp -> A) : M A := fun app => (app, Ok (f app)).
Definition assign (f : ChessApp -> ChessApp) : M unit := fun app => (f app, Ok tt).

(** [try: body except Exception as e: handler(e)] *)
Definition try_except {A} (body : M A) (handler : exn -> M A) : M A :=
  fun app =>
    match body app with
    | (app', Ok a) => (app', Ok a)
    | (app', Raise e) => handler e app'
    end.

Notation "x <- m ;; k" := (bind m (fun x => k))
  (at level 100, m at next level, right associativity).
Notation "m ;;; k" := (bind m (fun _ => k))
  (at level 100, right associativity).

(** Truth value of [self.tb_path] and of [self.engine]. *)
Definition path_bool (p : option pystr) : bool :=
  match p with
  | Some (_ :: _) => true
  | _ => false
  end.

Definition synergy_check : M unit :=
  tb <- read tb_path ;;
  b <- read board ;;
  if path_bool tb && (Z.of_nat (length (piece_map b)) <=? 7) then
    let path := default [] tb in
    assign (fun a => set_tb_log (tb_log a ++ [(path, b)]) a) ;;;
    try_except
      (wdl <- lift (probe_wdl path b) ;;
       assign (set_status_msg (u "(Syzygy) WDL = " ++ py_str_int wdl)))
      (fun e => assign (set_status_msg (u "Błąd Syzygy: " ++ exn_str e)))
  else ret tt.

Definition do_move (mv : Move) : M unit :=
  b <- read board ;;
  move_san <- lift (san b mv) ;;
  assign (fun a => set_push_log (push_log a ++ [(b, mv)]) (set_board (push b mv) a)) ;;;
  b' <- read board ;;
  (if Bool.eqb (turn b') WHITE then
     assign (set_last_move_black move_san) ;;;
     assign (fun a => set_move_count (move_count a + 1) a)
   else
     assign (set_last_move_white move_san)) ;;;
  if USE_SYZYGY_AFTER_MOVE then synergy_check else ret tt.

Definition handle_player_move (user_input : pystr) : M unit :=
  try_except
    (b <- read board ;;
     mv <- lift (parse_move user_input b) ;;
     if negb (is_legal b mv) then
       assign (set_status_msg (u "Nielegalny ruch."))
     else
       do_move mv ;;;
       assign (set_status_msg []))
    (fun e => assign (set_status_msg (u "Błąd ruchu: " ++ exn_str e))).

(** [handle_engine_move]; [play b] is what [self.engine.play(board,
    Limit(depth=10))] does when it is called on the board [b]: it raises, or
    returns a result whose [move] is a move or [None]. *)
Definition handle_engine_move (play : Board -> result (option Move)) : M unit :=
  eng <- read engine ;;
  match eng with
  | None => ret tt
  | Some _ =>
    try_except
      (b <- read board ;;
       result_move <- lift (play b) ;;
       match result_move with
       | None => lift (Raise none_move_error)
       | Some mv =>
         move_san <- lift (san b mv) ;;
         do_move mv ;;;
         assign (set_status_msg (u "Silnik (ruch): " ++ move_san))
       end)
      (fun e => assign (set_status_msg (u "Błąd silnika: " ++ exn_str e)))
  end.

Fixpoint for_each {A} (l : list A) (body : A -> M unit) : M unit :=
  match l with
  | [] => ret tt
  | x :: rest => body x ;;; for_each rest body
  end.

(** The inner loop of [do_continuous_analysis]: the SAN of the moves of a
    variation, played on a copy of the board; it stops with ["???"] at the
    first move that [san] rejects. *)
Fixpoint pv_san (temp_board : Board) (pv : list Move) : list pystr :=
  match pv with
  | [] => []
  | mv :: rest =>
    match san temp_board mv with
    | Ok san_mv => san_mv :: pv_san (push temp_board mv) rest
    | Raise _ => [u "???"]
    end
  end.

(** The body of the loop over the variations. *)
Definition analyse_one (inf : Info) : M unit :=
  score <- lift (match info_score inf with
                 | Some sc => Ok sc
                 | None => Raise (mk_exn KeyError (u "'score'"))
                 end) ;;
  cs <- lift (match score with
              | Mate n => Ok (0, u "Mate in " ++ py_str_int n)
              | Cp cp_val =>
                let sign := if 0 <=? cp_val then u "+" else [] in
                rbind (py_truediv cp_val 100)
                      (fun x => Ok (cp_val, sign ++ py_format_2f x))
              end) ;;
  let '(cp_val, score_str) := cs in
  let pv := default [] (info_pv inf) in
  b <- read board ;;
  let moves_san := pv_san b pv in
  let var_str := py_prefix 60 (py_join (u " ") moves_san) in
  assign (fun a =>
            set_analysis_variants
              (analysis_variants a ++ [(cp_val, score_str, var_str)]) a).

(** [do_continuous_analysis]; [analyse b] is what [self.engine.analyse]
    does on the board [b]. *)
Definition do_continuous_analysis (analyse : Board -> result Infos) : M unit :=
  eng <- read engine ;;
  match eng with
  | None => ret tt
  | Some _ =>
    try_except
      (b <- read board ;;
       infos <- lift (analyse b) ;;
       let infos := match infos with InfoDict i => [i] | InfoList l => l end in
       assign (set_analysis_variants []) ;;;
       for_each infos analyse_one ;;;
       av <- read analysis_variants ;;
       match av with
       | (cp_val, score_str, _) :: _ =>
         therm <- lift (generate_thermometer cp_val 300 15) ;;
         assign (set_best_eval_str (score_str ++ u " " ++ therm))
       | [] => assign (set_best_eval_str (u "---"))
       end)
      (fun e => assign (set_status_msg (u "Błąd analizy: " ++ exn_str e)))
  end.

(** [self.stdscr.addstr(y, x, text)] *)
Definition addstr (y x : Z) (text : pystr) : M unit :=
  assign (fun a => set_stdscr (stdscr a ++ [(y, x, text)]) a).

Definition draw_screen : M unit :=
  assign (set_stdscr []) ;;;
  a <- read (fun a => a) ;;
  addstr 0 0 (u "[Ruch: " ++ py_str_int (move_count a) ++ u "]  Białe: "
              ++ last_move_white a ++ u " | Czarne: " ++ last_move_black a) ;;;
  let board_lines := py_split_on 10%N (board_to_unicode_str (board a)) in
  for_each (combine (py_range (Z.of_nat (length board_lines))) board_lines)
           (fun '(i, ln) => addstr (2 + i) 0 ln) ;;;
  addstr 2 25 (u "Eval: " ++ best_eval_str a) ;;;
  let others := tl (analysis_variants a) in
  for_each (combine (py_range (Z.of_nat (length others))) others)
           (fun '(k, (_, sc, var_str)) => addstr (3 + k) 25 (sc ++ u "  " ++ var_str)) ;;;
  addstr 12 0 (py_ljust 80 (status_msg a)) ;;;
  addstr 14 0 (u "Twój ruch ('exit' aby zakończyć): ") ;;;
  addstr 15 0 (u "> " ++ py_prefix 50 (input_line a)).

(** *** The main loop

    The loop runs on wall-clock time; what it gets from outside in one turn
    of the outer [while] is a [Round]: the engine's answer if it is asked for
    a move, the key codes that [getch] returns during the refresh interval
    (-1 when no key is waiting), and the engine's answer if it is asked for
    an analysis. *)
Record Round := mk_round {
  engine_reply : Board -> result (option Move);
  keys : list Z;
  analysis_reply : Board -> result Infos
}.

Definition KEY_BACKSPACE : Z := 263.
Definition KEY_ENTER : Z := 343.

(** The body of the inner [while] for one key code; [true] when it returns
    from [main_loop]. *)
Definition handle_key (ch : Z) : M bool :=
  if ch =? -1 then ret false
  else if (ch =? KEY_BACKSPACE) || (ch =? 127) || (ch =? 8) then
    line <- read input_line ;;
    (match line with
     | [] => ret tt
     | _ :: _ => assign (set_input_line (py_drop_last line))
     end) ;;;
    draw_screen ;;; ret false
  else if (ch =? KEY_ENTER) || (ch =? 10) || (ch =? 13) then
    line <- read input_line ;;
    let cmd := py_lower (py_strip line) in
    if pystr_eqb cmd (u "exit") then ret true
    else
      handle_player_move line ;;;
      assign (set_input_line []) ;;;
      draw_screen ;;; ret false
  else
    (if (32 <=? ch) && (ch <? 127)
     then assign (fun a => set_input_line (input_line a ++ [Z.to_N ch]) a)
     else ret tt) ;;;
    draw_screen ;;; ret false.

Fixpoint key_loop (ks : list Z) : M bool :=
  match ks with
  | [] => ret false
  | ch :: rest =>
    stop <- handle_key ch ;;
    if stop then ret true else key_loop rest
  end.

Fixpoint game_loop (rounds : list Round) : M loop_end :=
  b <- read board ;;
  if is_game_over b then draw_screen ;;; ret GameOver
  else
    match rounds with
    | [] => ret InputEnded
    | r :: rest =>
      hc <- read human_color ;;
      (if negb (Bool.eqb (turn b) hc)
       then handle_engine_move (engine_reply r) ;;; draw_screen
       else ret tt) ;;;
      stop <- key_loop (keys r) ;;
      if stop then ret UserExit
      else
        b2 <- read board ;;
        (if negb (is_game_over b2)
         then do_continuous_analysis (analysis_reply r) ;;; draw_screen
         else ret tt) ;;;
        game_loop rest
    end.

Definition main_loop (rounds : list Round) : M loop_end :=
  draw_screen ;;; game_loop rounds.

(** [init_engine]; [popen] is what [SimpleEngine.popen_uci] does. *)
Definition init_engine (popen : result unit) : M unit :=
  try_except
    (lift popen ;;;
     assign (set_engine (Some (SimpleEngine ENGINE_PATH))))
    (fun e =>
       assign (set_status_msg (u "Błąd uruchomienia silnika: " ++ exn_str e)) ;;;
       assign (set_engine None)).

(** [close_engine]; [quit] is what [self.engine.quit()] does. *)
Definition close_engine (quit : result unit) : M unit :=
  eng <- read engine ;;
  match eng with
  | None => ret tt
  | Some _ =>
    try_except (lift quit) (fun _ => ret tt) ;;;
    assign (set_engine None)
  end.

Definition run (popen : result unit) (rounds : list Round) (quit : result unit)
  : M loop_end :=
  init_engine popen ;;;
  draw_screen ;;;
  e <- main_loop rounds ;;
  match e with
  | InputEnded => ret InputEnded
  | _ =>
    close_engine quit ;;;
    assign (set_stdscr []) ;;;
    b <- read board ;;
    addstr 0 0 (u "Koniec gry. Wynik: " ++ board_result b) ;;;
    addstr 1 0 (u "Naciśnij dowolny klawisz, aby wyjść.") ;;;
    ret e
  end.

End WithLib.

End Chesspy.

(** ** chesspy_windows.py *)

(** What the desktop gives: the piece images and the font metrics. *)
Class Desktop := {
  Surface : Type;
  (** [pygame.transform.scale(pygame.image.load(path), (64, 64))] *)
  image_load : pystr -> result Surface;
  (** [FONT.render(text, True, color).get_width()] *)
  text_width : pystr -> Z
}.

(** A parsed JSON document, as the Python value [response.json()] returns;
    [JNull] is [None].  The items of a [JObj] are those of the [dict]. *)
#[warnings="-register-all"]
Inductive json :=
| JNull
| JBool (b : bool)
| JNum (n : Z)
| JFloat (x : pyfloat)
| JStr (s : pystr)
| JArr (l : list json)
| JObj (items : list (pystr * json)).

(** Truth value of a parsed document. *)
Definition json_bool (j : json) : bool :=
  match j with
  | JNull => false
  | JBool b => b
  | JNum n => negb (n =? 0)
  | JFloat x =>
    match x with S754_zero _ => false | _ => true end
  | JStr s => match s with [] => false | _ => true end
  | JArr l => match l with [] => false | _ => true end
  | JObj items => match items with [] => false | _ => true end
  end.

Definition type_error (msg : string) : exn := mk_exn TypeError (u msg).

(** [j[key]] for a string key. *)
Definition json_get (j : json) (key : pystr) : result json :=
  match j with
  | JObj items =>
    match find (fun kv => pystr_eqb (fst kv) key) items with
    | Some kv => Ok (snd kv)
    | None => Raise (mk_exn KeyError (u "'" ++ key ++ u "'"))
    end
  | JArr _ => Raise (type_error "list indices must be integers or slices, not str")
  | JStr _ => Raise (type_error "string indices must be integers, not 'str'")
  | _ => Raise (type_error "object is not subscriptable")
  end.

(** [len(j)] *)
Definition json_len (j : json) : result Z :=
  match j with
  | JArr l => Ok (Z.of_nat (length l))
  | JStr s => Ok (Z.of_nat (length s))
  | JObj items => Ok (Z.of_nat (length items))
  | _ => Raise (type_error "object has no len()")
  end.

(** [j[i]] for an index [0 <= i < len(j)]. *)
Definition json_index (j : json) (i : Z) : result json :=
  match j with
  | JArr l =>
    match nth_error l (Z.to_nat i) with
    | Some x => Ok x
    | None => Raise (mk_exn IndexError (u "list index out of range"))
    end
  | JStr s =>
    match nth_error s (Z.to_nat i) with
    | Some c => Ok (JStr [c])
    | None => Raise (mk_exn IndexError (u "string index out of range"))
    end
  | JObj _ => Raise (mk_exn KeyError (py_str_int i))
  | _ => Raise (type_error "object is not subscriptable")
  end.

(** The text of a document that is a [str]. *)
Definition json_text (j : json) : result pystr :=
  match j with
  | JStr s => Ok s
  | _ => Raise (type_error "expected a str")
  end.

(** [str(j)] of a document that is a [str]; other documents are printed by
    their [repr], which the programs' logic never reads. *)
Definition json_show (j : json) : pystr :=
  match j with
  | JStr s => s
  | _ => u "<json>"
  end.

(** The answer to the HTTP request: the status code and what
    [response.json()] does. *)
Record Response := mk_response {
  status_code : Z;
  response_json : result json
}.

(** A TCP socket connected to the game server. *)
Inductive socket_handle := Socket (ip : pystr) (port : Z).

Module ChesspyWindows.

Definition WIDTH : Z := 800.
Definition HEIGHT : Z := 600.
Definition SQUARE_SIZE : Z := 64.
Definition BOARD_WIDTH : Z := 8 * SQUARE_SIZE.
Definition BOARD_HEIGHT : Z := 8 * SQUARE_SIZE.
Definition DEFAULT_OFFSET_X : Z := (WIDTH - BOARD_WIDTH) / 2.
Definition DEFAULT_OFFSET_Y : Z := (HEIGHT - BOARD_HEIGHT) / 2.
Definition LICHESS_API_URL : pystr := u "https://lichess.org/api".
Definition PUZZLE_API_URL : pystr := LICHESS_API_URL ++ u "/puzzle/next".
Definition ENGINE_PATH : pystr := u "./stockfish-ubuntu-x86-64-avx2".
Definition ENGINE_DEPTH : Z := 15.
Definition SERVER_IP : pystr := u "13.38.13.177".
Definition SERVER_PORT : Z := 5555.

Definition rgb : Type := Z * Z * Z.

(** A pygame event, as far as the programs look at it. *)
Inductive Event :=
| QUIT
| MOUSEBUTTONDOWN (x y : Z)
| OtherEvent.

(** How a statement ends: normally, with an exception, or in [sys.exit()]. *)
Inductive ctl (A : Type) :=
| Return (a : A)
| Throw (e : exn)
| SysExit.
Arguments Return {A} a.
Arguments Throw {A} e.
Arguments SysExit {A}.

Section WithLib.
Context `{ChessLib} `{Desktop}.

(** What the program does to the outside, in order. *)
Inductive Out :=
| Fill (c : rgb)                          (** [screen.fill] *)
| DrawRect (c : rgb) (x y w h : Z)        (** [pygame.draw.rect] *)
| BlitImage (img : Surface) (cx cy : Z)   (** an image centred at a point *)
| BlitText (text : pystr) (c : rgb) (x y : Z) (** rendered text at a point *)
| Flip                                    (** [pygame.display.flip] *)
| Print (text : pystr)
| Sleep (ms : Z)
| Tick
| Send (data : pystr)                     (** [client_socket.send(data.encode())] *)
| CloseSocket
| PygameQuit.

(** The module's globals, the local variables [board] and [selected_square]
    of the game function in progress, what the program has done to the
    outside ([out]), and every push with the board it was applied to:
    [Pushed b mv] for [board.push(mv)], [PushedUci b text] for a
    [board.push_uci(text)] that returned. *)
Inductive push_event :=
| Pushed (b : Board) (mv : Move)
| PushedUci (b : Board) (text : pystr).

Record Gui := mk_gui {
  out : list Out;
  piece_images : gmap pystr Surface;
  move_history : list Move;
  client_socket : option socket_handle;
  username : pystr;
  password : pystr;
  board : Board;
  selected_square : option Z;
  push_log : list push_event
}.

Definition set_out v g :=
  mk_gui v (piece_images g) (move_history g) (client_socket g) (username g)
         (password g) (board g) (selected_square g) (push_log g).
Definition set_piece_images v g :=
  mk_gui (out g) v (move_history g) (client_socket g) (username g)
         (password g) (board g) (selected_square g) (push_log g).
Definition set_move_history v g :=
  mk_gui (out g) (piece_images g) v (client_socket g) (username g)
         (password g) (board g) (selected_square g) (push_log g).
Definition set_client_socket v g :=
  mk_gui (out g) (piece_images g) (move_history g) v (username g)
         (password g) (board g) (selected_square g) (push_log g).
Definition set_username v g :=
  mk_gui (out g) (piece_images g) (move_history g) (client_socket g) v
         (password g) (board g) (selected_square g) (push_log g).
Definition set_password v g :=
  mk_gui (out g) (piece_images g) (move_history g) (client_socket g)
         (username g) v (board g) (selected_square g) (push_log g).
Definition set_board v g :=
  mk_gui (out g) (piece_images g) (move_history g) (client_socket g)
         (username g) (password g) v (selected_square g) (push_log g).
Definition set_selected_square v g :=
  mk_gui (out g) (piece_images g) (move_history g) (client_socket g)
         (username g) (password g) (board g) v (push_log g).
Definition set_push_log v g :=
  mk_gui (out g) (piece_images g) (move_history g) (client_socket g)
         (username g) (password g) (board g) (selected_square g) v.

(** The module as loaded: no image, no history, no socket. *)
Definition init : Gui :=
  mk_gui [] ∅ [] None [] [] Board_new None [].

Definition G (A : Type) : Type := Gui -> Gui * ctl A.

Definition ret {A} (a : A) : G A := fun g => (g, Return a).
Definition bind {A B} (m : G A) (k : A -> G B) : G B :=
  fun g =>
    match m g with
    | (g', Return a) => k a g'
    | (g', Throw e) => (g', Throw e)
    | (g', SysExit) => (g', SysExit)
    end.
Definition lift {A} (r : result A) : G A :=
  fun g => (g, match r with Ok a => Return a | Raise e => Throw e end).
Definition read {A} (f : Gui -> A) : G A := fun g => (g, Return (f g)).
Definition assign (f : Gui -> Gui) : G unit := fun g => (f g, Return tt).
Definition emit (o : Out) : G unit := assign (fun g => set_out (out g ++ [o]) g).
Definition sys_exit {A} : G A := fun g => (g, SysExit).

Notation "x <- m ;; k" := (bind m (fun x => k))
  (at level 100, m at next level, right associativity).
Notation "m ;;; k" := (bind m (fun _ => k))
  (at level 100, right associativity).

Fixpoint for_each {A} (l : list A) (body : A -> G unit) : G unit :=
  match l with
  | [] => ret tt
  | x :: rest => body x ;;; for_each rest body
  end.

(** [board.push(mv)] on the board of the game in progress. *)
Definition push_board (mv : Move) : G unit :=
  assign (fun g =>
            set_push_log (push_log g ++ [Pushed (board g) mv])
                         (set_board (push (board g) mv) g)).

Definition load_piece_images : G unit :=
  for_each
    (map u ["wp"; "wr"; "wn"; "wb"; "wq"; "wk";
            "bp"; "br"; "bn"; "bb"; "bq"; "bk"]%string)
    (fun p =>
       let path := u "pieces/" ++ p ++ u ".png" in
       match image_load path with
       | Ok image => assign (fun g => set_piece_images (<[p := image]> (piece_images g)) g)
       | Raise e =>
         emit (Print (u "Nie można załadować obrazka " ++ path ++ u ": " ++ exn_str e))
       end).

(** What [draw_board] puts on one square: the square, then the piece if the
    board has one there and its image is loaded. *)
Definition draw_square (images : gmap pystr Surface) (b : Board)
    (offset_x offset_y square_size rank file : Z) : list Out :=
  let x := offset_x + file * square_size in
  let y := offset_y + rank * square_size in
  let colour := if (rank + file) mod 2 =? 0 then (240, 217, 181) else (181, 136, 99) in
  DrawRect colour x y square_size square_size ::
  match piece_at b (square file (7 - rank)) with
  | Some piece =>
    let color_prefix := if Bool.eqb (color piece) WHITE then u "w" else u "b" in
    match images !! (color_prefix ++ symbol_lower piece) with
    | Some img => [BlitImage img (x + square_size / 2) (y + square_size / 2)]
    | None => []
    end
  | None => []
  end.

Definition board_picture (images : gmap pystr Surface) (b : Board)
    (offset_x offset_y square_size : Z) : list Out :=
  flat_map (fun rank =>
              flat_map (draw_square images b offset_x offset_y square_size rank)
                       (py_range 8))
           (py_range 8).

(** [draw_board(board)] with the default offsets and square size. *)
Definition draw_board (b : Board) : G unit :=
  assign (fun g =>
            set_out (out g ++ board_picture (piece_images g) b DEFAULT_OFFSET_X
                                            DEFAULT_OFFSET_Y SQUARE_SIZE) g).

Definition white : rgb := (255, 255, 255).
Definition black : rgb := (0, 0, 0).

(** [draw_thermometer(score)] *)
Definition draw_thermometer (score : pyfloat) : G unit :=
  fill_height <- lift (rbind (py_add_float_int score 1) (fun s1 =>
                       rbind (py_mul_float_int s1 150) py_int_of_float)) ;;
  emit (DrawRect (255, 0, 0) (WIDTH - 150) 50 20 300) ;;;
  emit (DrawRect (0, 255, 0) (WIDTH - 150) (50 + (300 - fill_height)) 20 fill_height).

(** [EngineWrapper]: its [engine] attribute is the engine or [None]. *)
Definition start_engine (popen : result unit) : G (option engine_handle) :=
  match popen with
  | Ok _ => ret (Some (SimpleEngine ENGINE_PATH))
  | Raise e =>
    emit (Print (u "Błąd uruchomienia silnika: " ++ exn_str e)) ;;;
    ret None
  end.

(** [stop_engine]; [quit] is what [self.engine.quit()] does. *)
Definition stop_engine (eng : option engine_handle) (quit : result unit) : G unit :=
  match eng with
  | Some _ => lift quit
  | None => ret tt
  end.

(** [get_move]; [reply] is what [self.engine.play(board, limit)] does. *)
Definition get_move (eng : option engine_handle) (reply : result (option Move))
  : G (option Move) :=
  match eng with
  | None => ret None
  | Some _ =>
    match reply with
    | Ok mv => ret mv
    | Raise e => emit (Print (u "Błąd silnika: " ++ exn_str e)) ;;; ret None
    end
  end.

(** [get_evaluation]; [reply] is what [self.engine.analyse] does. *)
Definition get_evaluation (eng : option engine_handle) (reply : result Info) : pystr :=
  match eng with
  | None => u "Brak silnika"
  | Some _ =>
    match reply with
    | Ok info =>
      match info_rel info with
      | Some (Mate n) => u "Mate in " ++ py_str_int n
      | Some (Cp n) => u "cp " ++ py_str_int n
      | None => u "Błąd analizy: 'score'"
      end
    | Raise e => u "Błąd analizy: " ++ exn_str e
    end
  end.

(** [try: ... except Exception as e: handler(e)] *)
Definition try_except {A} (body : G A) (handler : exn -> G A) : G A :=
  fun g =>
    match body g with
    | (g', Throw e) => handler e g'
    | other => other
    end.

Definition get_analysis (eng : option engine_handle) (reply : result Info) : G unit :=
  let evaluation_text := get_evaluation eng reply in
  emit (BlitText (u "Eval: " ++ evaluation_text) white 50 20) ;;;
  (if py_startswith (u "cp") evaluation_text then
     try_except
       (field <- lift (match nth_error (py_split_on 32%N evaluation_text) 1 with
                       | Some f => Ok f
                       | None => Raise (mk_exn IndexError (u "list index out of range"))
                       end) ;;
        cp_val <- lift (py_int_of_str field) ;;
        score <- lift (py_truediv cp_val 100) ;;
        draw_thermometer score)
       (fun e => emit (Print (u "Błąd parsowania oceny: " ++ exn_str e)))
   else ret tt) ;;;
  emit Flip.

(** [get_lichess_puzzle]; [http] is what [requests.get(PUZZLE_API_URL)]
    does.  The value returned is the document, or [None]. *)
Definition get_lichess_puzzle (http : result Response) : G json :=
  try_except
    (response <- lift http ;;
     if status_code response =? 200 then
       puzzle <- lift (response_json response) ;;
       ret puzzle
     else ret JNull)
    (fun e =>
       emit (Print (u "Błąd pobierania zadania z Lichess: " ++ exn_str e)) ;;;
       ret JNull).

(** *** Playing against the engine *)

(** The square under a mouse position, if it is on the board. *)
Definition clicked_square (x y : Z) : option Z :=
  let file := (x - DEFAULT_OFFSET_X) / SQUARE_SIZE in
  let rank := 7 - ((y - DEFAULT_OFFSET_Y) / SQUARE_SIZE) in
  if (0 <=? file) && (file <? 8) && (0 <=? rank) && (rank <? 8)
  then Some (square file rank)
  else None.

(** [board.piece_at(square) and board.piece_at(square).color == c] *)
Definition has_piece_of (b : Board) (sq : Z) (c : bool) : bool :=
  match piece_at b sq with
  | Some piece => Bool.eqb (color piece) c
  | None => false
  end.

(** What one frame of [play_against_ai] gets from outside: the engine's
    answers when asked for an analysis and for a move, the pygame events,
    and the draw of [random.choice]. *)
Record AiFrame := mk_ai_frame {
  evaluation : Board -> result Info;
  events : list Event;
  ai_move : Board -> result (option Move);
  choice : nat
}.

Definition ai_event (ev : Event) : G unit :=
  match ev with
  | QUIT => emit PygameQuit ;;; sys_exit
  | MOUSEBUTTONDOWN x y =>
    match clicked_square x y with
    | None => ret tt
    | Some sq =>
      b <- read board ;;
      sel <- read selected_square ;;
      match sel with
      | None =>
        if has_piece_of b sq WHITE
        then assign (set_selected_square (Some sq))
        else ret tt
      | Some from_sq =>
        let move := Move_new from_sq sq in
        if is_legal b move then
          push_board move ;;;
          assign (fun g => set_move_history (move_history g ++ [move]) g) ;;;
          assign (set_selected_square None)
        else
          emit (BlitText (u "Błędny ruch! Spróbuj ponownie.") (255, 0, 0)
                         (WIDTH / 2 - 100) (HEIGHT - 50)) ;;;
          emit Flip ;;;
          emit (Sleep 1000) ;;;
          assign (set_selected_square None)
      end
    end
  | OtherEvent => ret tt
  end.

(** The [else] branch of the loop: the engine's turn. *)
Definition ai_turn (eng : option engine_handle) (f : AiFrame) : G unit :=
  emit (Sleep 500) ;;;
  b <- read board ;;
  engine_move <- get_move eng (ai_move f b) ;;
  let accepted :=
    match engine_move with
    | Some mv => if Move_bool mv && is_legal b mv then Some mv else None
    | None => None
    end in
  mv <- match accepted with
        | Some mv => ret mv
        | None =>
          match legal_moves b with
          | [] => lift (Raise (mk_exn IndexError
                                      (u "Cannot choose from an empty sequence")))
          | first :: _ =>
            ret (nth (choice f mod length (legal_moves b)) (legal_moves b) first)
          end
        end ;;
  push_board mv ;;;
  assign (fun g => set_move_history (move_history g ++ [mv]) g).

Fixpoint ai_loop (eng : option engine_handle) (frames : list AiFrame)
  : G loop_end :=
  match frames with
  | [] => ret InputEnded
  | f :: rest =>
    emit (Fill (30, 30, 30)) ;;;
    b <- read board ;;
    draw_board b ;;;
    get_analysis eng (evaluation f b) ;;;
    hist <- read move_history ;;
    emit (BlitText (u "Ruchy: " ++ py_join (u " ") (map uci hist)) white
                   50 (HEIGHT - 40)) ;;;
    emit Flip ;;;
    if is_game_over b then
      emit (Print (u "Gra zakończona: " ++ board_result b)) ;;;
      emit (Sleep 3000) ;;;
      ret GameOver
    else
      (if Bool.eqb (turn b) WHITE
       then for_each (events f) ai_event
       else ai_turn eng f) ;;;
      emit Tick ;;;
      ai_loop eng rest
  end.

(** Everything [play_against_ai] gets from outside. *)
Record AiScript := mk_ai_script {
  ai_popen : result unit;
  ai_frames : list AiFrame;
  ai_quit : result unit
}.

Definition play_against_ai (script : AiScript) : G loop_end :=
  eng <- start_engine (ai_popen script) ;;
  assign (set_board Board_new) ;;;
  assign (set_selected_square None) ;;;
  assign (set_move_history []) ;;;
  e <- ai_loop eng (ai_frames script) ;;
  match e with
  | InputEnded => ret InputEnded
  | _ => stop_engine eng (ai_quit script) ;;; ret e
  end.

(** *** Puzzles *)

Definition pgn_to_fen (pgn : pystr) : result pystr :=
  rbind (read_game pgn) (fun '(start, mainline) =>
  Ok (fen (fold_left push mainline start))).

(** [solution_moves[i]] as a move: the text, and [chess.Move.from_uci]. *)
Definition solution_move (solution_moves : json) (i : Z) : result (pystr * Move) :=
  rbind (json_index solution_moves i) (fun j =>
  rbind (json_text j) (fun text =>
  rbind (Move_from_uci text) (fun mv => Ok (text, mv)))).

(** One mouse click on the board in [draw_puzzle], with a square already
    selected; the result is the new [solution_index] and [running_puzzle]. *)
Definition puzzle_move (solution_moves : json) (solution_index : Z) (running : bool)
    (move : Move) : G (Z * bool) :=
  b <- read board ;;
  if is_legal b move then
    n <- lift (json_len solution_moves) ;;
    if solution_index <? n then
      correct <- lift (solution_move solution_moves solution_index) ;;
      let '(correct_move_str, correct_move) := correct in
      if Move_eq_dec move correct_move then
        push_board move ;;;
        b1 <- read board ;;
        draw_board b1 ;;;
        emit Flip ;;;
        let solution_index := solution_index + 1 in
        assign (set_selected_square None) ;;;
        emit (Sleep 500) ;;;
        n <- lift (json_len solution_moves) ;;
        if solution_index <? n then
          enemy <- lift (solution_move solution_moves solution_index) ;;
          let '(enemy_move_str, enemy_move) := enemy in
          if is_legal b1 enemy_move then
            push_board enemy_move ;;;
            b2 <- read board ;;
            draw_board b2 ;;;
            emit Flip ;;;
            ret (solution_index + 1, running)
          else
            emit (Print (u "Błąd: nielegalny ruch przeciwnika " ++ enemy_move_str)) ;;;
            ret (solution_index, false)
        else
          emit (Print (u "✅ Zadanie ukończone! Gratulacje!")) ;;;
          ret (solution_index, false)
      else
        emit (Print (u "❌ Niepoprawny ruch! Oczekiwany ruch: " ++ correct_move_str)) ;;;
        assign (set_selected_square None) ;;;
        ret (solution_index, running)
    else
      emit (Print (u "Zadanie już zakończone.")) ;;;
      ret (solution_index, false)
  else
    assign (set_selected_square None) ;;;
    ret (solution_index, running).

Definition puzzle_event (solution_moves : json) (st : Z * bool) (ev : Event)
  : G (Z * bool) :=
  match ev with
  | QUIT => emit PygameQuit ;;; sys_exit
  | MOUSEBUTTONDOWN x y =>
    match clicked_square x y with
    | None => ret st
    | Some sq =>
      b <- read board ;;
      sel <- read selected_square ;;
      match sel with
      | None =>
        (if has_piece_of b sq (turn b)
         then assign (set_selected_square (Some sq))
         else ret tt) ;;;
        ret st
      | Some from_sq =>
        puzzle_move solution_moves (fst st) (snd st) (Move_new from_sq sq)
      end
    end
  | OtherEvent => ret st
  end.

Fixpoint puzzle_events (solution_moves : json) (st : Z * bool) (evs : list Event)
  : G (Z * bool) :=
  match evs with
  | [] => ret st
  | ev :: rest =>
    st' <- puzzle_event solution_moves st ev ;;
    puzzle_events solution_moves st' rest
  end.

(** The [while running_puzzle] loop; one list of events per turn. *)
Fixpoint puzzle_loop (solution_moves : json) (solution_index : Z)
    (frames : list (list Event)) : G loop_end :=
  match frames with
  | [] => ret InputEnded
  | evs :: rest =>
    st <- puzzle_events solution_moves (solution_index, true) evs ;;
    emit Tick ;;;
    if snd st then puzzle_loop solution_moves (fst st) rest
    else ret GameOver
  end.

Definition draw_puzzle (puzzle : json) (frames : list (list Event)) : G loop_end :=
  if negb (json_bool puzzle) then
    emit (Print (u "Brak zadania do wyświetlenia")) ;;;
    ret GameOver
  else
    game <- lift (json_get puzzle (u "game")) ;;
    pgn <- lift (json_get game (u "pgn")) ;;
    pgn_text <- lift (json_text pgn) ;;
    fen_text <- lift (pgn_to_fen pgn_text) ;;
    b <- lift (Board_of_fen fen_text) ;;
    assign (set_board b) ;;;
    emit (Fill (30, 30, 30)) ;;;
    draw_board b ;;;
    emit Flip ;;;
    pz <- lift (json_get puzzle (u "puzzle")) ;;
    solution_moves <- lift (json_get pz (u "solution")) ;;
    assign (set_selected_square None) ;;;
    puzzle_loop solution_moves 0 frames.

(** *** Playing on the server *)

(** [send_to_server(data)]; [net] is what the socket does with the [send]
    and the [recv] that follows: the decoded answer, or an exception. *)
Definition send_to_server (data : pystr) (net : pystr -> result pystr) : G pystr :=
  sock <- read client_socket ;;
  match sock with
  | None =>
    emit (Print (u "Błąd komunikacji z serwerem: "
                 ++ u "'NoneType' object has no attribute 'send'")) ;;;
    ret (u "ERROR|Błąd komunikacji")
  | Some _ =>
    emit (Send data) ;;;
    match net data with
    | Ok response => ret response
    | Raise e =>
      emit (Print (u "Błąd komunikacji z serwerem: " ++ exn_str e)) ;;;
      ret (u "ERROR|Błąd komunikacji")
    end
  end.

Definition login_screen (net : pystr -> result pystr) : G unit :=
  assign (set_username (u "Buldozer")) ;;;
  assign (set_password (u "123")) ;;;
  user <- read username ;;
  pass <- read password ;;
  response <- send_to_server (u "LOGIN|" ++ user ++ u "|" ++ pass) net ;;
  emit (Print (u "Odpowiedź serwera na login: " ++ response)).

(** One turn of the [while True] of [receive_thread]; [received] is what
    [client_socket.recv(1024)] does.  The result is [true] when the loop goes
    on and [false] after [break]. *)
Definition receive_step (received : result pybytes) : G bool :=
  try_except
    (raw <- lift received ;;
     data <- lift (utf8_decode raw) ;;
     if py_startswith (u "OPPONENT_MOVE") data then
       move <- lift (match nth_error (py_split_on 124%N data) 1 with
                     | Some f => Ok f
                     | None => Raise (mk_exn IndexError (u "list index out of range"))
                     end) ;;
       b <- read board ;;
       b' <- lift (push_uci b move) ;;
       assign (fun g =>
                 set_push_log (push_log g ++ [PushedUci b move]) (set_board b' g)) ;;;
       ret true
     else ret true)
    (fun e =>
       emit (Print (u "Błąd odbierania danych: " ++ exn_str e)) ;;;
       ret false).

(** What [launch_online_game] gets from outside, in the order in which the
    two threads take their turns: a turn of the main loop with its pygame
    events and the socket's behaviour, or a turn of the receiving thread
    with what [recv] does. *)
Inductive OnlineStep :=
| MainFrame (events : list Event) (net : pystr -> result pystr)
| Received (data : result pybytes).

Definition online_click (is_white : bool) (opponent : pystr)
    (net : pystr -> result pystr) (x y : Z) : G unit :=
  b <- read board ;;
  if (Bool.eqb (turn b) WHITE && is_white) || (Bool.eqb (turn b) BLACK && negb is_white)
  then
    match clicked_square x y with
    | None => ret tt
    | Some sq =>
      sel <- read selected_square ;;
      match sel with
      | None =>
        if has_piece_of b sq (turn b)
        then assign (set_selected_square (Some sq))
        else ret tt
      | Some from_sq =>
        let move := Move_new from_sq sq in
        (if is_legal b move then
           push_board move ;;;
           send_to_server (u "MOVE|" ++ opponent ++ u "|" ++ uci move) net ;;;
           ret tt
         else ret tt) ;;;
        assign (set_selected_square None)
      end
    end
  else ret tt.

(** The [for event in pygame.event.get()] of the online loop; [true] after
    the [break] on [QUIT]. *)
Fixpoint online_events (is_white : bool) (opponent : pystr)
    (net : pystr -> result pystr) (evs : list Event) : G bool :=
  match evs with
  | [] => ret false
  | QUIT :: _ => ret true
  | MOUSEBUTTONDOWN x y :: rest =>
    online_click is_white opponent net x y ;;;
    online_events is_white opponent net rest
  | OtherEvent :: rest => online_events is_white opponent net rest
  end.

Fixpoint online_loop (is_white : bool) (opponent : pystr) (receiving : bool)
    (steps : list OnlineStep) : G loop_end :=
  match steps with
  | [] => ret InputEnded
  | Received data :: rest =>
    if receiving then
      go_on <- receive_step data ;;
      online_loop is_white opponent go_on rest
    else online_loop is_white opponent false rest
  | MainFrame evs net :: rest =>
    emit (Fill (30, 30, 30)) ;;;
    b <- read board ;;
    draw_board b ;;;
    emit Flip ;;;
    if is_game_over b then
      let result := board_result b in
      user <- read username ;;
      send_to_server (u "GAME_OVER|" ++ user ++ u "|" ++ opponent ++ u "|" ++ result)
                     net ;;;
      emit (Print (u "Gra zakończona: " ++ result)) ;;;
      emit (Sleep 3000) ;;;
      ret GameOver
    else
      quit <- online_events is_white opponent net evs ;;
      emit Tick ;;;
      if quit then ret UserExit
      else online_loop is_white opponent receiving rest
  end.

Definition launch_online_game (color opponent : pystr) (steps : list OnlineStep)
  : G loop_end :=
  assign (set_board Board_new) ;;;
  let is_white := pystr_eqb (py_lower color) (u "white") in
  assign (set_selected_square None) ;;;
  online_loop is_white opponent true steps.

Definition wait_for_match : G (pystr * pystr) :=
  emit (Print (u "Oczekiwanie na przeciwnika...")) ;;;
  emit (Sleep 2000) ;;;
  ret (u "white", u "Przeciwnik1").

(** *** Menus

    A click that opens a mode carries what that mode gets from outside. *)

Inductive ChooseEvent :=
| ChooseQuit
| ChooseOther
| ChooseClick (x y : Z) (net : pystr -> result pystr)
              (online : list OnlineStep) (ai : AiScript).

(** One click in [choose_opponent]; [true] when the function returns. *)
Definition choose_click (x y : Z) (net : pystr -> result pystr)
    (online : list OnlineStep) (ai : AiScript) : G (option loop_end) :=
  if (250 <=? x) && (x <=? 550) then
    if (120 <=? y) && (y <=? 160) then
      send_to_server (u "START_MATCH") net ;;;
      m <- wait_for_match ;;
      let '(color, opponent) := m in
      e <- launch_online_game color opponent online ;;
      ret (Some e)
    else if (180 <=? y) && (y <=? 220) then
      e <- play_against_ai ai ;;
      ret (Some e)
    else if (240 <=? y) && (y <=? 280) then ret (Some UserExit)
    else ret None
  else ret None.

Fixpoint choose_events (evs : list ChooseEvent) : G (option loop_end) :=
  match evs with
  | [] => ret None
  | ChooseQuit :: _ => emit PygameQuit ;;; sys_exit
  | ChooseOther :: rest => choose_events rest
  | ChooseClick x y net online ai :: rest =>
    r <- choose_click x y net online ai ;;
    match r with
    | Some e => ret (Some e)
    | None => choose_events rest
    end
  end.

Definition centred (text : pystr) : Z := WIDTH / 2 - text_width text / 2.

Fixpoint choose_opponent (frames : list (list ChooseEvent)) : G loop_end :=
  match frames with
  | [] => ret InputEnded
  | evs :: rest =>
    emit (Fill (20, 20, 20)) ;;;
    emit (BlitText (u "Wybierz przeciwnika") white (centred (u "Wybierz przeciwnika")) 50) ;;;
    emit (DrawRect (100, 100, 250) 250 120 300 40) ;;;
    emit (BlitText (u "Losowy gracz online") black 270 125) ;;;
    emit (DrawRect (100, 200, 100) 250 180 300 40) ;;;
    emit (BlitText (u "Zagraj z botem (AI)") black 270 185) ;;;
    emit (DrawRect (200, 100, 100) 250 240 300 40) ;;;
    emit (BlitText (u "Anuluj") black 360 245) ;;;
    emit Flip ;;;
    r <- choose_events evs ;;
    match r with
    | Some InputEnded => ret InputEnded
    | Some _ => ret UserExit
    | None => emit Tick ;;; choose_opponent rest
    end
  end.

Definition stats_screen : G unit :=
  emit (Fill (20, 20, 20)) ;;;
  let text := u "Statystyki - niezaimplementowane" in
  emit (BlitText text white (centred text) (HEIGHT / 2)) ;;;
  emit Flip ;;;
  emit (Sleep 2000).

Definition draw_lobby : G unit :=
  emit (Fill (20, 20, 20)) ;;;
  user <- read username ;;
  emit (BlitText (u "Witaj, " ++ user ++ u "!") white 50 30) ;;;
  emit (DrawRect (80, 80, 200) 50 100 200 40) ;;;
  emit (BlitText (u "Szybki mecz online") black 55 110) ;;;
  emit (DrawRect (80, 200, 100) 50 160 200 40) ;;;
  emit (BlitText (u "Statystyki") black 90 170) ;;;
  emit (DrawRect (200, 80, 80) 50 220 200 40) ;;;
  emit (BlitText (u "Wyloguj") black 115 230) ;;;
  emit Flip.

Inductive LobbyEvent :=
| LobbyQuit
| LobbyOther
| LobbyClick (x y : Z) (choose : list (list ChooseEvent)).

(** The events of one turn of [lobby_screen]; [Some e] when the function
    returns (log out) or the inputs are used up. *)
Fixpoint lobby_events (evs : list LobbyEvent) : G (option loop_end) :=
  match evs with
  | [] => ret None
  | LobbyQuit :: _ => emit PygameQuit ;;; sys_exit
  | LobbyOther :: rest => lobby_events rest
  | LobbyClick x y choose :: rest =>
    if (50 <=? x) && (x <=? 250) then
      if (100 <=? y) && (y <=? 140) then
        e <- choose_opponent choose ;;
        match e with
        | InputEnded => ret (Some InputEnded)
        | _ => lobby_events rest
        end
      else if (160 <=? y) && (y <=? 200) then
        stats_screen ;;; lobby_events rest
      else if (220 <=? y) && (y <=? 260) then ret (Some UserExit)
      else lobby_events rest
    else lobby_events rest
  end.

Fixpoint lobby_screen (frames : list (list LobbyEvent)) : G loop_end :=
  match frames with
  | [] => ret InputEnded
  | evs :: rest =>
    draw_lobby ;;;
    r <- lobby_events evs ;;
    match r with
    | Some e => ret e
    | None => emit Tick ;;; lobby_screen rest
    end
  end.

(** Everything [online_game_mode] gets from outside: whether the connection
    is made, the socket's behaviour at login, and the lobby's events. *)
Record OnlineScript := mk_online_script {
  connect : result unit;
  login_net : pystr -> result pystr;
  lobby : list (list LobbyEvent)
}.

Definition online_game_mode (script : OnlineScript) : G loop_end :=
  match connect script with
  | Raise e =>
    emit (Print (u "Błąd połączenia z serwerem: " ++ exn_str e)) ;;;
    emit (Sleep 2000) ;;;
    ret UserExit
  | Ok _ =>
    assign (set_client_socket (Some (Socket SERVER_IP SERVER_PORT))) ;;;
    login_screen (login_net script) ;;;
    e <- lobby_screen (lobby script) ;;
    match e with
    | InputEnded => ret InputEnded
    | _ => emit CloseSocket ;;; ret e
    end
  end.

Inductive MenuEvent :=
| MenuQuit
| MenuOther
| MenuClick (x y : Z) (ai : AiScript) (http : result Response)
            (puzzle_frames : list (list Event)) (online : OnlineScript).

(** The events of one turn of [main_menu]; [true] when the inputs are used
    up inside a mode. *)
Fixpoint menu_events (evs : list MenuEvent) : G bool :=
  match evs with
  | [] => ret false
  | MenuQuit :: _ => emit PygameQuit ;;; sys_exit
  | MenuOther :: rest => menu_events rest
  | MenuClick x y ai http puzzle_frames online :: rest =>
    if (250 <=? x) && (x <=? 550) then
      if (100 <=? y) && (y <=? 140) then
        e <- play_against_ai ai ;;
        match e with InputEnded => ret true | _ => menu_events rest end
      else if (160 <=? y) && (y <=? 200) then
        emit (Print (u "Analiza partii - funkcja niezaimplementowana.")) ;;;
        emit (Sleep 2000) ;;;
        menu_events rest
      else if (220 <=? y) && (y <=? 260) then
        puzzle <- get_lichess_puzzle http ;;
        e <- draw_puzzle puzzle puzzle_frames ;;
        match e with InputEnded => ret true | _ => menu_events rest end
      else if (280 <=? y) && (y <=? 320) then
        e <- online_game_mode online ;;
        match e with InputEnded => ret true | _ => menu_events rest end
      else if (340 <=? y) && (y <=? 380) then
        emit PygameQuit ;;; sys_exit
      else menu_events rest
    else menu_events rest
  end.

Definition menu_buttons : list (pystr * Z * rgb) :=
  [ (u "Gra z silnikiem", 100, (100, 100, 250));
    (u "Analiza partii", 160, (100, 200, 100));
    (u "Zadania z Lichess", 220, (200, 100, 100));
    (u "Gra na serwerze", 280, (150, 150, 50));
    (u "Zakończ", 340, (200, 80, 80)) ].

Fixpoint main_menu (frames : list (list MenuEvent)) : G loop_end :=
  match frames with
  | [] => ret InputEnded
  | evs :: rest =>
    emit (Fill (20, 20, 20)) ;;;
    emit (BlitText (u "Wybierz tryb:") white (centred (u "Wybierz tryb:")) 30) ;;;
    for_each menu_buttons
             (fun '(text, y, colour) =>
                emit (DrawRect colour 250 y 300 40) ;;;
                emit (BlitText text black (250 + 10) (y + 5))) ;;;
    emit Flip ;;;
    ended <- menu_events evs ;;
    if ended : bool then ret InputEnded
    else emit Tick ;;; main_menu rest
  end.

Definition main (frames : list (list MenuEvent)) : G loop_end :=
  load_piece_images ;;;
  main_menu frames.

End WithLib.

End ChesspyWindows.

(** ** A small rules library

    An instance of the interface on which the programs can be run: a board
    with pawns that advance one square onto an empty square, and kings that
    stay where they are.  It stands for the rules library where a property
    is evaluated on a concrete run. *)

Module Toy.

Record position := mk_position {
  pieces : list (Z * Piece);
  to_move : bool
}.

Definition move : Type := Z * Z.

Definition move_eq_dec (a b : move) : {a = b} + {a <> b}.
Proof. decide equality; apply Z.eq_dec. Defined.

Definition at_square (p : position) (sq : Z) : option Piece :=
  option_map snd (find (fun e => fst e =? sq) (pieces p)).

Definition ahead (c : bool) (sq : Z) : Z := if c then sq + 8 else sq - 8.

Definition moves (p : position) : list move :=
  flat_map
    (fun e =>
       let sq := fst e in
       let target := ahead (to_move p) sq in
       if Bool.eqb (color (snd e)) (to_move p) && (piece_type (snd e) =? 1)
          && (0 <=? target) && (target <? 64)
          && match at_square p target with None => true | Some _ => false end
       then [(sq, target)] else [])
    (pieces p).

Definition play (p : position) (m : move) : position :=
  mk_position
    (map (fun e => if fst e =? fst m then (snd m, snd e) else e)
         (filter (fun e => negb (fst e =? snd m)) (pieces p)))
    (negb (to_move p)).

Definition square_name (sq : Z) : pystr :=
  [Z.to_N (97 + sq mod 8); Z.to_N (49 + sq / 8)].

Definition square_of (f r : pychar) : option Z :=
  if ((97 <=? f) && (f <=? 104) && (49 <=? r) && (r <=? 56))%N
  then Some (square (Z.of_N f - 97) (Z.of_N r - 49))
  else None.

Definition move_text (m : move) : pystr := square_name (fst m) ++ square_name (snd m).

Definition move_of_text (s : pystr) : result move :=
  match s with
  | [f1; r1; f2; r2] =>
    match square_of f1 r1, square_of f2 r2 with
    | Some a, Some b => Ok (a, b)
    | _, _ => Raise (mk_exn ValueError (u "invalid uci: " ++ s))
    end
  | _ => Raise (mk_exn ValueError (u "invalid uci: " ++ s))
  end.

Definition in_moves (p : position) (m : move) : bool :=
  if in_dec move_eq_dec m (moves p) then true else false.

Definition read_uci (p : position) (s : pystr) : result move :=
  rbind (move_of_text s) (fun m =>
  if in_moves p m then Ok m
  else Raise (mk_exn ValueError (u "illegal uci: " ++ s))).

(** The notation of a pawn move is the name of its target square. *)
Definition read_san (p : position) (s : pystr) : result move :=
  match find (fun m => pystr_eqb (square_name (snd m)) s) (moves p) with
  | Some m => Ok m
  | None => Raise (mk_exn ValueError (u "illegal san: " ++ s))
  end.

Definition write_san (p : position) (m : move) : result pystr :=
  match at_square p (fst m) with
  | Some _ => Ok (square_name (snd m))
  | None => Raise (mk_exn ValueError (u "no piece to move"))
  end.

Definition start : position :=
  mk_position
    [ (4, mk_piece 6 true); (8, mk_piece 1 true); (9, mk_piece 1 true);
      (60, mk_piece 6 false); (48, mk_piece 1 false); (49, mk_piece 1 false) ]
    true.

Definition outcome (p : position) : pystr :=
  match moves p with
  | [] => if to_move p then u "0-1" else u "1-0"
  | _ => u "*"
  end.

(** The tablebase directory ["syzygy"] knows the positions with at most
    four men as draws; any other lookup fails. *)
Definition lookup (path : pystr) (p : position) : result Z :=
  if pystr_eqb path (u "syzygy") && (Z.of_nat (length (pieces p)) <=? 4)
  then Ok 0
  else Raise (mk_exn KeyError (u "missing table")).

#[export] Instance lib : ChessLib := {
  Board := position;
  Move := move;
  Move_eq_dec := move_eq_dec;
  Board_new := start;
  Board_of_fen := fun _ => Ok start;
  turn := to_move;
  piece_at := at_square;
  piece_map := pieces;
  legal_moves := moves;
  push := play;
  san := write_san;
  parse_uci := read_uci;
  parse_san := read_san;
  push_uci := fun p s => rbind (read_uci p s) (fun m => Ok (play p m));
  is_game_over := fun p => match moves p with [] => true | _ => false end;
  board_result := outcome;
  fen := fun _ => u "toy";
  Move_new := fun a b => (a, b);
  Move_from_uci := move_of_text;
  uci := move_text;
  Move_bool := fun m => negb ((fst m =? 0) && (snd m =? 0));
  probe_wdl := lookup;
  read_game := fun _ => Ok (start, [])
}.

#[export] Instance desktop : Desktop := {
  Surface := pystr;
  image_load := fun path => Ok path;
  text_width := fun text => 12 * Z.of_nat (length text)
}.

End Toy.

(** ** Runs on the small rules library: the inputs *)

Module Runs.

#[local] Existing Instance Toy.lib.
#[local] Existing Instance Toy.desktop.

(** The curses application at its start, and with a tablebase directory. *)
Definition app0 : Chesspy.ChessApp := Chesspy.init (H := Toy.lib).

Definition app_tb : Chesspy.ChessApp :=
  Chesspy.mk_app (H := Toy.lib) [] Toy.start None (Some (u "syzygy")) WHITE 1
                 (u "-") (u "-") [] (u "---") [] [] [] [].

(** The desktop program connected to the server, with the pawn on a2
    selected. *)
Definition gui0 : ChesspyWindows.Gui :=
  ChesspyWindows.set_client_socket
    (Some (Socket ChesspyWindows.SERVER_IP ChesspyWindows.SERVER_PORT))
    (ChesspyWindows.set_selected_square (Some 8)
       (ChesspyWindows.init (H := Toy.lib) (H0 := Toy.desktop))).

(** An engine that plays the first legal move. *)
Definition first_move (b : Toy.position) : result (option Toy.move) :=
  match Toy.moves b with
  | [] => Ok None
  | m :: _ => Ok (Some m)
  end.

Definition no_analysis (b : Toy.position) : result (Infos (H := Toy.lib)) :=
  Raise (mk_exn EngineError (u "no analysis")).

(** The keys of ["a2a3"] and Enter. *)
Definition one_round : Chesspy.Round (H := Toy.lib) :=
  Chesspy.mk_round (H := Toy.lib) first_move [97; 50; 97; 51; 10] no_analysis.

(** ["OPPONENT_MOVE|a2a3"], as bytes. *)
Definition opponent_move : pybytes :=
  bytes_of_string "OPPONENT_MOVE|a2a3".

(** The curses application with an engine running. *)
Definition app_engine : Chesspy.ChessApp :=
  Chesspy.set_engine (Some (SimpleEngine Chesspy.ENGINE_PATH)) app0.

Definition found : Response :=
  mk_response 200 (Ok (JObj [(u "game", JObj [(u "pgn", JStr (u "1. a3"))])])).

(** The keys of ["exit"] and Enter. *)
Definition exit_round : Chesspy.Round (H := Toy.lib) :=
  Chesspy.mk_round (H := Toy.lib) first_move [101; 120; 105; 116; 10]
                   no_analysis.

(** The starting position with Black to move. *)
Definition black_to_move : Toy.position :=
  Toy.mk_position (Toy.pieces Toy.start) false.

(** A reply of the engine that evaluates the position at 14 centipawns. *)
Definition fourteen : Info (H := Toy.lib) :=
  @mk_info Toy.lib None (Some (Cp 14)) None.

Definition no_evaluation (b : Toy.position) : result (Info (H := Toy.lib)) :=
  Raise (mk_exn EngineError (u "no analysis")).

(** A frame of the game against the engine with two clicks, on the squares
    [from_sq] and [to_sq], and an engine that plays the first legal move. *)
Definition click_on (sq : Z) : ChesspyWindows.Event :=
  ChesspyWindows.MOUSEBUTTONDOWN (154 + 64 * (sq mod 8))
                                 (54 + 64 * (7 - sq / 8)).

Definition frame (from_sq to_sq : Z) : ChesspyWindows.AiFrame (H := Toy.lib) :=
  ChesspyWindows.mk_ai_frame (H := Toy.lib) no_evaluation
    [click_on from_sq; click_on to_sq] first_move 0.

(** A whole game on the small board, four moves of each side, after which
    White has no move, with an engine whose [quit] fails. *)
Definition broken_pipe : exn := mk_exn OSError (u "Broken pipe").

Definition whole_game : ChesspyWindows.AiScript (H := Toy.lib) :=
  ChesspyWindows.mk_ai_script (H := Toy.lib) (Ok tt)
    [frame 8 16; frame 0 0; frame 16 24; frame 0 0;
     frame 9 17; frame 0 0; frame 17 25; frame 0 0; frame 0 0]
    (Raise broken_pipe).

(** A puzzle document without the game. *)
Definition no_game : json := JObj [(u "puzzle", JNull)].

Definition offline : ChesspyWindows.OnlineScript (H := Toy.lib) :=
  ChesspyWindows.mk_online_script (H := Toy.lib) (Raise broken_pipe)
                                  (fun _ => Ok []) [].

End Runs.

(** ** The vocabulary of the specification *)

(** [clamp(x, lo, hi)] *)
Definition clamp (lo hi x : Z) : Z := Z.max lo (Z.min x hi).

(** The integer nearest to the rational [n / d] ([d > 0]), ties to even: what
    [round] is on real numbers. *)
Definition round_half_even_div (n d : Z) : Z :=
  let q := n / d in
  let r := n mod d in
  match 2 * r ?= d with
  | Lt => q
  | Gt => q + 1
  | Eq => if Z.even q then q else q + 1
  end.

(** A bar of [len] dashes with the marker at index [marker]. *)
Definition bar_with_marker (len marker : Z) : pystr :=
  repeat 45%N (Z.to_nat marker) ++ [9608%N]
         ++ repeat 45%N (Z.to_nat (len - 1 - marker)).

(** The thermometer of a clamped value is the bar the specification
    describes, decided by evaluation. *)
Definition thermometer_check (c : Z) : bool :=
  let marker := 15 / 2 + round_half_even_div (c * (15 / 2)) 300 in
  (0 <=? marker) && (marker <? 15) &&
  match Chesspy.generate_thermometer c 300 15 with
  | Ok s => pystr_eqb s ([91%N] ++ bar_with_marker 15 marker ++ [93%N])
  | Raise _ => false
  end.

(** [t] is the last white-space separated token of [s]. *)
Definition is_last_token (s t : pystr) : Prop :=
  t <> [] /\
  forallb (fun c => negb (py_isspace c)) t = true /\
  exists pre,
    s = pre ++ t /\
    (pre = [] \/ exists p c, pre = p ++ [c] /\ py_isspace c = true).

(** [t] is [s] without the white space at its two ends. *)
Definition is_stripped (s t : pystr) : Prop :=
  exists l r,
    s = l ++ t ++ r /\
    forallb py_isspace l = true /\ forallb py_isspace r = true /\
    (forall c t', t = c :: t' -> py_isspace c = false) /\
    (forall t' c, t = t' ++ [c] -> py_isspace c = false).




(** The condition under which [synergy_check] asks the tablebase. *)
Definition tablebase_applies `{ChessLib} (app : Chesspy.ChessApp) : bool :=
  Chesspy.path_bool (Chesspy.tb_path app)
  && (Z.of_nat (length (piece_map (Chesspy.board app))) <=? 7).

(** The application after [synergy_check] has asked the tablebase. *)
Definition probed `{ChessLib} (app : Chesspy.ChessApp) : Chesspy.ChessApp :=
  let path := default [] (Chesspy.tb_path app) in
  Chesspy.set_status_msg
    (match probe_wdl path (Chesspy.board app) with
     | Ok wdl => u "(Syzygy) WDL = " ++ py_str_int wdl
     | Raise e => u "Błąd Syzygy: " ++ exn_str e
     end)
    (Chesspy.set_tb_log
       (Chesspy.tb_log app ++ [(path, Chesspy.board app)]) app).

(** The application after the push and the bookkeeping of [do_move], before
    its call of [synergy_check]. *)
Definition after_push `{ChessLib} (mv : Move) (move_san : pystr)
    (app : Chesspy.ChessApp) : Chesspy.ChessApp :=
  let b := Chesspy.board app in
  let a1 :=
    Chesspy.set_push_log (Chesspy.push_log app ++ [(b, mv)])
                         (Chesspy.set_board (push b mv) app) in
  if Bool.eqb (turn (push b mv)) WHITE
  then Chesspy.set_move_count (Chesspy.move_count a1 + 1)
                              (Chesspy.set_last_move_black move_san a1)
  else Chesspy.set_last_move_white move_san a1.

(** What [draw_screen] writes: the header, the eight lines of the board from
    row 2, the evaluation and the other variations at column 25, the status
    line, the prompt and the input line. *)
Definition screen_of `{ChessLib} (a : Chesspy.ChessApp) : list (Z * Z * pystr) :=
  let board_lines :=
    py_split_on 10%N (Chesspy.board_to_unicode_str (Chesspy.board a)) in
  let others := tl (Chesspy.analysis_variants a) in
  [(0, 0, u "[Ruch: " ++ py_str_int (Chesspy.move_count a) ++ u "]  Białe: "
          ++ Chesspy.last_move_white a ++ u " | Czarne: "
          ++ Chesspy.last_move_black a)]
  ++ map (fun '(i, ln) => (2 + i, 0, ln))
         (combine (py_range (Z.of_nat (length board_lines))) board_lines)
  ++ [(2, 25, u "Eval: " ++ Chesspy.best_eval_str a)]
  ++ map (fun '(k, (_, sc, var_str)) => (3 + k, 25, sc ++ u "  " ++ var_str))
         (combine (py_range (Z.of_nat (length others))) others)
  ++ [(12, 0, py_ljust 80 (Chesspy.status_msg a));
      (14, 0, u "Twój ruch ('exit' aby zakończyć): ");
      (15, 0, u "> " ++ py_prefix 50 (Chesspy.input_line a))].

(** *** Relations between the application before and after a step *)

(** Every run of [m] relates the state it starts from to the state it
    leaves. *)
Definition keeps `{ChessLib} (R : Chesspy.ChessApp -> Chesspy.ChessApp -> Prop)
    {A} (m : Chesspy.M A) : Prop :=
  forall app, R app (fst (m app)).




(** *** Relations between the desktop program before and after a step *)

Definition keeps_g `{ChessLib} `{Desktop}
    (R : ChesspyWindows.Gui -> ChesspyWindows.Gui -> Prop)
    {A} (m : ChesspyWindows.G A) : Prop :=
  forall g, R g (fst (m g)).

(** What the program has done to the outside only grows. *)
Definition out_grows `{ChessLib} `{Desktop} (g g' : ChesspyWindows.Gui) : Prop :=
  exists l, ChesspyWindows.out g' = ChesspyWindows.out g ++ l.




(** The forms of message that the protocol of the game server has. *)
Definition documented `{ChessLib} (data : pystr) : Prop :=
  (exists user pass, data = u "LOGIN|" ++ user ++ u "|" ++ pass)
  \/ (exists opponent mv, data = u "MOVE|" ++ opponent ++ u "|" ++ uci mv)
  \/ (exists user opponent result,
         data = u "GAME_OVER|" ++ user ++ u "|" ++ opponent ++ u "|" ++ result)
  \/ data = u "START_MATCH".

(** An action on the outside that is not a message, or a message of a
    documented form. *)
Definition sent_ok `{ChessLib} `{Desktop} (o : ChesspyWindows.Out) : Prop :=
  match o with
  | ChesspyWindows.Send data => documented data
  | _ => True
  end.

Definition sends_ok `{ChessLib} `{Desktop} (g g' : ChesspyWindows.Gui) : Prop :=
  Forall sent_ok (ChesspyWindows.out g) -> Forall sent_ok (ChesspyWindows.out g').

(** The messages among the actions on the outside. *)
Definition messages `{ChessLib} `{Desktop} (l : list ChesspyWindows.Out) : list pystr :=
  flat_map (fun o => match o with ChesspyWindows.Send d => [d] | _ => [] end) l.

(** *** Further vocabulary for the curses application *)

(** [m] returns normally from every state. *)
Definition returns `{ChessLib} {A} (m : Chesspy.M A) : Prop :=
  forall app, exists a, snd (m app) = Ok a.

(** A printable ASCII code point, as the main loop accepts from the
    keyboard. *)
Definition printable (c : pychar) : Prop := (32 <= c < 127)%N.

Definition printable_line `{ChessLib} (a a' : Chesspy.ChessApp) : Prop :=
  Forall printable (Chesspy.input_line a) ->
  Forall printable (Chesspy.input_line a').

(** Nothing but the screen and the input line differs: the game, its
    counters, the messages and the logs are the same. *)
Definition same_play `{ChessLib} (a a' : Chesspy.ChessApp) : Prop :=
  Chesspy.board a' = Chesspy.board a
  /\ Chesspy.engine a' = Chesspy.engine a
  /\ Chesspy.tb_path a' = Chesspy.tb_path a
  /\ Chesspy.human_color a' = Chesspy.human_color a
  /\ Chesspy.move_count a' = Chesspy.move_count a
  /\ Chesspy.last_move_white a' = Chesspy.last_move_white a
  /\ Chesspy.last_move_black a' = Chesspy.last_move_black a
  /\ Chesspy.best_eval_str a' = Chesspy.best_eval_str a
  /\ Chesspy.analysis_variants a' = Chesspy.analysis_variants a
  /\ Chesspy.status_msg a' = Chesspy.status_msg a
  /\ Chesspy.tb_log a' = Chesspy.tb_log a
  /\ Chesspy.push_log a' = Chesspy.push_log a.

(** The key codes of a text. *)
Definition key_codes (text : pystr) : list Z := map Z.of_N text.

(** The input line is left as it was. *)
Definition same_line `{ChessLib} (a a' : Chesspy.ChessApp) : Prop :=
  Chesspy.input_line a' = Chesspy.input_line a.

(** The application after [draw_screen]. *)
Definition redraw `{ChessLib} (a : Chesspy.ChessApp) : Chesspy.ChessApp :=
  Chesspy.set_stdscr (screen_of a) a.

Definition is_enter (ch : Z) : bool :=
  (ch =? Chesspy.KEY_ENTER) || (ch =? 10) || (ch =? 13).

Definition is_backspace (ch : Z) : bool :=
  (ch =? Chesspy.KEY_BACKSPACE) || (ch =? 127) || (ch =? 8).

(** What a line editor does with a key that is not Enter: a backspace takes
    the last character away, a printable character is added at the end, any
    other key is dropped. *)
Definition edit_line (line : pystr) (ch : Z) : pystr :=
  if is_backspace ch then py_drop_last line
  else if (32 <=? ch) && (ch <? 127) then line ++ [Z.to_N ch]
  else line.

(** The application after the keys of a text have been handled. *)
Definition typed `{ChessLib} (text : pystr) (a : Chesspy.ChessApp)
  : Chesspy.ChessApp :=
  match text with
  | [] => a
  | _ :: _ => redraw (Chesspy.set_input_line (Chesspy.input_line a ++ text) a)
  end.

(** The character that stands for a square in the text of the board. *)
Definition glyph `{ChessLib} (b : Board) (file rank : Z) : pychar :=
  match piece_at b (square file rank) with
  | Some piece => hd 63%N (Chesspy.piece_to_unicode piece)
  | None => 46%N
  end.

(** A piece of one of the six kinds of the game, and a board that holds
    only such pieces on its 64 squares. *)
Definition chess_piece (p : Piece) : Prop := 1 <= piece_type p <= 6.

Definition chess_pieces `{ChessLib} (b : Board) : Prop :=
  forall file rank p,
    0 <= file < 8 -> 0 <= rank < 8 ->
    piece_at b (square file rank) = Some p -> chess_piece p.

(** A number of centipawns written in pawns with two decimal places: the
    sign, the whole pawns, a dot and the two digits of the hundredths. *)
Definition two_places (cp : Z) : pystr :=
  (if 0 <=? cp then u "+" else u "-")
    ++ py_str_int (Z.abs cp / 100) ++ u "."
    ++ [Z.to_N (48 + (Z.abs cp mod 100) / 10);
        Z.to_N (48 + (Z.abs cp mod 100) mod 10)].

(** The score text of [do_continuous_analysis] for [cp] centipawns is
    [two_places cp], decided by evaluation. *)
Definition score_check (cp : Z) : bool :=
  match py_truediv cp 100 with
  | Ok x =>
    pystr_eqb ((if 0 <=? cp then u "+" else []) ++ py_format_2f x)
              (two_places cp)
  | Raise _ => false
  end.

(** The evaluation and the status line are left as they were. *)
Definition same_eval `{ChessLib} (a a' : Chesspy.ChessApp) : Prop :=
  Chesspy.best_eval_str a' = Chesspy.best_eval_str a
  /\ Chesspy.status_msg a' = Chesspy.status_msg a.

(** A recorded push after which White is to move. *)
Definition white_to_move_after `{ChessLib} (p : Board * Move) : bool :=
  Bool.eqb (turn (push (fst p) (snd p))) WHITE.

(** The pushes recorded since [a], and the move number grown by one for
    each of them that left White to move. *)
Definition counts_moves `{ChessLib} (a a' : Chesspy.ChessApp) : Prop :=
  exists l,
    Chesspy.push_log a' = Chesspy.push_log a ++ l
    /\ Chesspy.move_count a'
       = Chesspy.move_count a
         + Z.of_nat (length (List.filter white_to_move_after l)).

(** *** Further vocabulary for the desktop program *)

(** The height of the green bar that [get_analysis] and [draw_thermometer]
    compute from the text of an evaluation. *)
Definition fill_height_of (evaluation_text : pystr) : result Z :=
  rbind (match nth_error (py_split_on 32%N evaluation_text) 1 with
         | Some f => Ok f
         | None => Raise (mk_exn IndexError (u "list index out of range"))
         end) (fun field =>
  rbind (py_int_of_str field) (fun cp_val =>
  rbind (py_truediv cp_val 100) (fun score =>
  rbind (py_add_float_int score 1) (fun s1 =>
  rbind (py_mul_float_int s1 150) py_int_of_float)))).

(** The bar for [cp] centipawns is within a pixel of [1.5 * (cp + 100)], and
    inside the frame of 300 pixels exactly when [cp] is between -100 and
    100; decided by evaluation. *)
Definition bar_check (cp : Z) : bool :=
  match fill_height_of (u "cp " ++ py_str_int cp) with
  | Ok h =>
    (-2 <=? 2 * h - 3 * (cp + 100)) && (2 * h - 3 * (cp + 100) <=? 2)
    && Bool.eqb ((0 <=? h) && (h <=? 300)) ((-100 <=? cp) && (cp <=? 100))
  | Raise _ => false
  end.

(** The board is the starting position with the moves of the history played
    on it. *)
Definition replayed `{ChessLib} `{Desktop} (g : ChesspyWindows.Gui) : Prop :=
  ChesspyWindows.board g
  = fold_left push (ChesspyWindows.move_history g) Board_new.

(** Nothing has been played, or one move has been pushed and added to the
    history. *)
Definition played `{ChessLib} `{Desktop} (g g' : ChesspyWindows.Gui) : Prop :=
  (ChesspyWindows.board g' = ChesspyWindows.board g
   /\ ChesspyWindows.move_history g' = ChesspyWindows.move_history g)
  \/ exists mv,
       ChesspyWindows.board g' = push (ChesspyWindows.board g) mv
       /\ ChesspyWindows.move_history g'
          = ChesspyWindows.move_history g ++ [mv].

Definition replay_step `{ChessLib} `{Desktop} (g g' : ChesspyWindows.Gui) : Prop :=
  replayed g -> replayed g'.

(** Every exception that [m] raises satisfies [P]. *)
Definition throws_only `{ChessLib} `{Desktop} (P : exn -> Prop) {A}
    (m : ChesspyWindows.G A) : Prop :=
  forall g e, snd (m g) = ChesspyWindows.Throw e -> P e.

(** [m] returns normally from every state. *)
Definition returns_g `{ChessLib} `{Desktop} {A} (m : ChesspyWindows.G A) : Prop :=
  forall g, exists a, snd (m g) = ChesspyWindows.Return a.

(** The pushes recorded since [g] are pushes of moves made on this side,
    none of a move received from the server. *)
Definition local_pushes `{ChessLib} `{Desktop} (g g' : ChesspyWindows.Gui) : Prop :=
  exists l,
    ChesspyWindows.push_log g' = ChesspyWindows.push_log g ++ l
    /\ Forall (fun ev => exists b mv, ev = ChesspyWindows.Pushed b mv) l.

(** The key under which [draw_board] looks up the image of a piece, and the
    file that [load_piece_images] reads for a key. *)
Definition image_key (piece : Piece) : pystr :=
  (if Bool.eqb (color piece) WHITE then u "w" else u "b") ++ symbol_lower piece.

Definition image_path (key : pystr) : pystr := u "pieces/" ++ key ++ u ".png".

(** The pushes [l] are the moves of the solution from index [start] on, in
    their order, each one legal where it was pushed. *)
Definition follows_solution `{ChessLib} `{Desktop} (solution_moves : json)
    (start : Z) (l : list ChesspyWindows.push_event) : Prop :=
  forall k ev,
    nth_error l k = Some ev ->
    exists b text mv,
      ev = ChesspyWindows.Pushed b mv /\ In mv (legal_moves b)
      /\ ChesspyWindows.solution_move solution_moves (start + Z.of_nat k)
         = Ok (text, mv).

(** What a step of a puzzle leaves: the pushes it has added follow the
    solution from the index it started at, and the index it returns has
    advanced by their number. *)
Definition puzzle_post `{ChessLib} `{Desktop} (solution_moves : json)
    (start : Z) (g : ChesspyWindows.Gui)
    (r : ChesspyWindows.Gui * ChesspyWindows.ctl (Z * bool)) : Prop :=
  exists l,
    ChesspyWindows.push_log (fst r) = ChesspyWindows.push_log g ++ l
    /\ follows_solution solution_moves start l
    /\ match snd r with
       | ChesspyWindows.Return st => fst st = start + Z.of_nat (length l)
       | _ => True
       end.

(** The token that [split_ws_go] yields last. *)
Definition nonspace (c : pychar) : bool := negb (py_isspace c).

Definition last_tok (p : pystr * list pystr) : pystr :=
  match snd p with
  | [] => fst p
  | w :: ws => List.last (w :: ws) []
  end.

(** ** Strings *)

Arguments py_isspace : simpl never.

Lemma pystr_eqb_eq (a b : pystr) : pystr_eqb a b = true <-> a = b.
Proof.
  revert b; induction a as [|x a IH]; intros [|y b]; simpl;
    try (split; [discriminate | discriminate]); try tauto.
  rewrite andb_true_iff, N.eqb_eq, IH.
  split; [intros [-> ->]; reflexivity | intros [= -> ->]; auto].
Qed.

Lemma lstrip_spec (s : pystr) :
  exists l,
    s = l ++ py_lstrip s /\ forallb py_isspace l = true /\
    (forall c t, py_lstrip s = c :: t -> py_isspace c = false).
Proof.
  induction s as [|c s (l & Hs & Hl & Hh)]; simpl.
  - exists []; repeat split; auto; discriminate.
  - destruct (py_isspace c) eqn:Hc.
    + exists (c :: l); simpl; rewrite Hc, Hl; repeat split; auto.
      f_equal; exact Hs.
    + exists []; repeat split; auto.
      intros c' t [= <- <-]; exact Hc.
Qed.

Lemma lstrip_keeps_last (s t : pystr) (c : pychar) :
  py_isspace c = false -> s = t ++ [c] ->
  exists t', py_lstrip s = t' ++ [c].
Proof.
  intros Hc; revert t; induction s as [|x s IH]; intros t Hs.
  - destruct t; discriminate.
  - simpl; destruct (py_isspace x) eqn:Hx.
    + destruct t as [|y t]; simpl in Hs; injection Hs as -> Hs.
      * congruence.
      * eapply IH; eauto.
    + exists t; exact Hs.
Qed.

Lemma strip_spec (s : pystr) : is_stripped s (py_strip s).
Proof.
  unfold py_strip, py_rstrip.
  destruct (lstrip_spec s) as (l & Hs & Hl & Hh).
  destruct (lstrip_spec (rev (py_lstrip s))) as (r & Hr & Hrs & Hrh).
  exists l, (rev r); repeat split.
  - rewrite Hs at 1; f_equal.
    rewrite <- rev_app_distr, <- Hr, rev_involutive; reflexivity.
  - exact Hl.
  - rewrite forallb_forall in *; intros x Hx; apply Hrs, in_rev; exact Hx.
  - intros c t' Ht.
    assert (Hrev : py_lstrip (rev (py_lstrip s)) = rev t' ++ [c]).
    { rewrite <- (rev_involutive (py_lstrip _)), Ht; reflexivity. }
    destruct (py_isspace c) eqn:Hc; auto.
    exfalso.
    assert (Hl' : py_lstrip s = rev (py_lstrip (rev (py_lstrip s))) ++ rev r).
    { rewrite <- rev_app_distr, <- Hr, rev_involutive; reflexivity. }
    rewrite Ht in Hl'; simpl in Hl'.
    specialize (Hh c (t' ++ rev r) Hl'); congruence.
  - intros t' c Ht.
    apply (Hrh c (rev t')).
    rewrite <- (rev_involutive (py_lstrip _)), Ht, rev_app_distr; reflexivity.
Qed.

Lemma go_all_nonspace (s : pystr) :
  forallb nonspace s = true -> split_ws_go s = (s, []).
Proof.
  induction s as [|c s IH]; simpl; auto.
  unfold nonspace at 1. rewrite andb_true_iff, negb_true_iff.
  intros [Hc Hs]. rewrite (IH Hs), Hc. reflexivity.
Qed.

Lemma go_nil (s : pystr) :
  snd (split_ws_go s) = [] ->
  exists sp, s = fst (split_ws_go s) ++ sp /\ forallb py_isspace sp = true.
Proof.
  induction s as [|c s IH]; simpl.
  - exists []; auto.
  - destruct (split_ws_go s) as [w ws]; simpl in *.
    destruct (py_isspace c) eqn:Hc; simpl.
    + destruct w; [|discriminate].
      intros Hws; destruct (IH Hws) as (sp & -> & Hsp).
      exists (c :: sp); simpl; rewrite Hc, Hsp; auto.
    + intros Hws; destruct (IH Hws) as (sp & -> & Hsp).
      exists sp; auto.
Qed.

Lemma go_fst_nonspace (s : pystr) :
  forallb nonspace (fst (split_ws_go s)) = true.
Proof.
  induction s as [|c s IH]; simpl; auto.
  destruct (split_ws_go s) as [w ws]; simpl in *.
  destruct (py_isspace c) eqn:Hc; simpl; auto.
  unfold nonspace at 1; rewrite Hc; simpl; exact IH.
Qed.

Lemma split_ws_last (s : pystr) :
  forall s0 c0, s = s0 ++ [c0] -> py_isspace c0 = false ->
  is_last_token s (last_tok (split_ws_go s)).
Proof.
  induction s as [|c s IH]; intros s0 c0 Hs Hc0.
  - destruct s0; discriminate.
  - destruct s0 as [|x s0]; simpl in Hs; injection Hs as Hx Hs; subst c.
    + subst s. simpl. rewrite Hc0. unfold last_tok; simpl.
      repeat split; [discriminate | simpl; rewrite Hc0; reflexivity |].
      exists []; auto.
    + specialize (IH s0 c0 Hs Hc0).
      destruct IH as (Hne & Hns & pre & Hpre & Hsep).
      simpl. destruct (split_ws_go s) as [w ws] eqn:Hgo.
      unfold last_tok in *; simpl in *.
      destruct (py_isspace x) eqn:Hx; simpl.
      * (* a space in front: the tokens are those of the rest *)
        assert (Hsep' : exists p c, x :: pre = p ++ [c] /\ py_isspace c = true).
        { destruct Hsep as [-> | (p & c & -> & Hc)].
          - exists [], x; auto.
          - exists (x :: p), c; auto. }
        destruct ws as [|w1 ws]; destruct w as [|y w]; simpl in *;
          try congruence;
          (repeat split; auto; exists (x :: pre);
           split; [simpl; f_equal; exact Hpre | right; exact Hsep']).
      * destruct ws as [|w1 ws].
        -- (* one token: the whole text *)
           pose proof (go_nil s) as Hn. rewrite Hgo in Hn; simpl in Hn.
           destruct (Hn eq_refl) as (sp & Hsw & Hsp).
           assert (sp = []).
           { destruct sp as [|y sp] using rev_ind; auto.
             rewrite Hsw, app_assoc in Hs.
             apply app_inj_tail in Hs as [_ ->].
             rewrite forallb_app in Hsp; simpl in Hsp.
             rewrite Hc0 in Hsp. rewrite andb_false_r in Hsp. discriminate. }
           subst sp. rewrite app_nil_r in Hsw.
           repeat split; [discriminate | simpl; rewrite Hx; exact Hns |].
           exists []; split; auto. simpl. congruence.
        -- repeat split; auto.
           exists (x :: pre); split; [simpl; f_equal; exact Hpre|].
           right. destruct Hsep as [-> | (p & c & -> & Hc)].
           ++ exfalso. simpl in Hpre.
              assert (Hall : forallb nonspace s = true) by (rewrite Hpre; exact Hns).
              rewrite (go_all_nonspace _ Hall) in Hgo. discriminate.
           ++ exists (x :: p), c; auto.
Qed.

Lemma rev_head_last {A} (x : A) (l : list A) (d : A) :
  exists r, rev (x :: l) = List.last (x :: l) d :: r.
Proof.
  destruct (exists_last (l := x :: l)) as (l' & a & Hl); [discriminate|].
  rewrite Hl, rev_app_distr, last_last. simpl. eauto.
Qed.

Lemma rev_split_head (s : pystr) :
  last_tok (split_ws_go s) <> [] ->
  exists r, rev (py_split_ws s) = last_tok (split_ws_go s) :: r.
Proof.
  unfold py_split_ws, last_tok.
  destruct (split_ws_go s) as [w ws]; simpl.
  destruct ws as [|w1 ws]; destruct w as [|y w]; intros Hne;
    try congruence.
  - exists []; reflexivity.
  - change (exists r, rev (w1 :: ws) = List.last (w1 :: ws) [] :: r).
    apply rev_head_last.
  - change (exists r, rev ((y :: w) :: w1 :: ws)
                      = List.last ((y :: w) :: w1 :: ws) [] :: r).
    apply rev_head_last.
Qed.

(** ** chesspy.py: the helpers *)

Section ChesspyHelpers.
Context `{ChessLib}.

Lemma thermometer_check_all :
  forallb thermometer_check (map (fun n => -300 + Z.of_nat n) (seq 0 601)) = true.
Proof. vm_compute. reflexivity. Qed.

Lemma thermometer_check_clamped (c : Z) :
  -300 <= c <= 300 -> thermometer_check c = true.
Proof.
  intros Hc.
  pose proof thermometer_check_all as Hall.
  rewrite forallb_forall in Hall. apply Hall.
  apply in_map_iff. exists (Z.to_nat (c + 300)). split; [lia|].
  apply in_seq. lia.
Qed.

Lemma thermometer_clamps (cp : Z) :
  Chesspy.generate_thermometer cp 300 15
  = Chesspy.generate_thermometer (clamp (-300) 300 cp) 300 15.
Proof.
  unfold Chesspy.generate_thermometer, clamp.
  replace (Z.max (- (300)) (Z.min (Z.max (-300) (Z.min cp 300)) 300))
    with (Z.max (- (300)) (Z.min cp 300)) by lia.
  reflexivity.
Qed.

Lemma bar_with_marker_length (marker : Z) :
  0 <= marker < 15 -> length (bar_with_marker 15 marker) = 15%nat.
Proof.
  intros Hm. unfold bar_with_marker.
  rewrite !length_app, !repeat_length. simpl. lia.
Qed.

Lemma bar_with_marker_nth (marker : Z) :
  0 <= marker < 15 ->
  nth_error (bar_with_marker 15 marker) (Z.to_nat marker) = Some 9608%N.
Proof.
  intros Hm. unfold bar_with_marker.
  rewrite nth_error_app2; rewrite repeat_length; [|lia].
  replace (Z.to_nat marker - Z.to_nat marker)%nat with 0%nat by lia.
  reflexivity.
Qed.

Lemma count_occ_repeat_other (c d : N) (n : nat) :
  c <> d -> count_occ N.eq_dec (repeat c n) d = 0%nat.
Proof.
  intros Hcd. induction n as [|n IH]; simpl; auto.
  destruct (N.eq_dec c d); [contradiction | exact IH].
Qed.

Lemma bar_with_marker_count (marker : Z) :
  count_occ N.eq_dec (bar_with_marker 15 marker) 9608%N = 1%nat.
Proof.
  unfold bar_with_marker.
  rewrite !count_occ_app, !count_occ_repeat_other by discriminate.
  reflexivity.
Qed.

(** C9: with the default range and length, [generate_thermometer] returns for
    every integer [cp] a string of 17 characters, ["["], a bar of 15 and
    ["]"]; the bar holds the marker once, at the index [15 // 2] plus the
    rounded value of [clamp(cp, -300, 300) / 300 * (15 // 2)], which lies
    inside the bar, and dashes elsewhere. *)
Theorem generate_thermometer_default (cp : Z) :
  let marker :=
    15 / 2 + round_half_even_div (clamp (-300) 300 cp * (15 / 2)) 300 in
  exists bar,
    Chesspy.generate_thermometer cp 300 15 = Ok (u "[" ++ bar ++ u "]") /\
    length (u "[" ++ bar ++ u "]") = 17%nat /\
    length bar = 15%nat /\
    0 <= marker < 15 /\
    nth_error bar (Z.to_nat marker) = Some 9608%N /\
    count_occ N.eq_dec bar 9608%N = 1%nat /\
    bar = bar_with_marker 15 marker.
Proof.
  intros marker.
  assert (Hc : -300 <= clamp (-300) 300 cp <= 300) by (unfold clamp; lia).
  pose proof (thermometer_check_clamped _ Hc) as Hchk.
  unfold thermometer_check in Hchk. fold marker in Hchk.
  rewrite <- thermometer_clamps in Hchk.
  rewrite !andb_true_iff in Hchk. destruct Hchk as [[Hlo Hhi] Heq].
  apply Z.leb_le in Hlo. apply Z.ltb_lt in Hhi.
  destruct (Chesspy.generate_thermometer cp 300 15) as [s|e]; [|discriminate].
  apply pystr_eqb_eq in Heq. subst s.
  exists (bar_with_marker 15 marker).
  repeat split; try lia.
  - change (u "[") with [91%N]. change (u "]") with [93%N].
    rewrite !length_app, bar_with_marker_length by lia. reflexivity.
  - apply bar_with_marker_length; lia.
  - apply bar_with_marker_nth; lia.
  - apply bar_with_marker_count.
Qed.

(** C10: [parse_move] strips the input; if the stripped text holds a ['.']
    it keeps its last white-space separated token, otherwise the stripped
    text; a UCI parse of that token that succeeds is the result, whatever
    the SAN parser would say, and the SAN parser is asked only when the UCI
    parse raises. *)
Theorem parse_move_uci_first (user_input : pystr) (b : Board) :
  exists s token,
    is_stripped user_input s /\
    (py_contains 46%N s = true -> is_last_token s token) /\
    (py_contains 46%N s = false -> token = s) /\
    (forall mv, parse_uci b token = Ok mv ->
                Chesspy.parse_move user_input b = Ok mv) /\
    (forall e, parse_uci b token = Raise e ->
               Chesspy.parse_move user_input b = parse_san b token).
Proof.
  pose proof (strip_spec user_input) as Hstrip.
  set (s := py_strip user_input) in *.
  destruct (py_contains 46%N s) eqn:Hdot.
  - (* the text holds a dot: it is not empty and ends in a non-space *)
    assert (Hlast : exists s0 c0, s = s0 ++ [c0] /\ py_isspace c0 = false).
    { destruct Hstrip as (l & r & _ & _ & _ & _ & Hend).
      destruct (exists_last (l := s)) as (s0 & c0 & Hs).
      - intros Hs. rewrite Hs in Hdot. discriminate.
      - exists s0, c0. split; [exact Hs | eapply Hend; exact Hs]. }
    destruct Hlast as (s0 & c0 & Hs & Hc0).
    pose proof (split_ws_last s s0 c0 Hs Hc0) as Htok.
    destruct (rev_split_head s) as (r & Hr); [apply Htok|].
    exists s, (last_tok (split_ws_go s)).
    split; [exact Hstrip|]. split; [auto|]. split; [intros; congruence|].
    unfold Chesspy.parse_move. fold s. rewrite Hdot, Hr.
    split; intros ? Hp; rewrite Hp; reflexivity.
  - exists s, s.
    split; [exact Hstrip|]. split; [intros; congruence|]. split; [auto|].
    unfold Chesspy.parse_move. fold s. rewrite Hdot.
    split; intros ? Hp; rewrite Hp; reflexivity.
Qed.

End ChesspyHelpers.

(** ** chesspy.py: the application *)

Section ChesspyApp.
Context `{ChessLib}.
Import Chesspy.

Ltac unfold_m :=
  unfold Chesspy.bind, Chesspy.ret, Chesspy.lift, Chesspy.read, Chesspy.assign,
    Chesspy.try_except in *.

Lemma is_legal_true (b : Board) (mv : Move) :
  is_legal b mv = true <-> In mv (legal_moves b).
Proof.
  unfold is_legal. destruct (in_dec Move_eq_dec mv (legal_moves b)); split;
    auto; discriminate.
Qed.

Lemma is_legal_false (b : Board) (mv : Move) :
  is_legal b mv = false <-> ~ In mv (legal_moves b).
Proof.
  unfold is_legal. destruct (in_dec Move_eq_dec mv (legal_moves b)); split;
    auto; try discriminate; contradiction.
Qed.

(** *** Steps that keep a relation between the state before and after *)

Section Keeps.
Variable R : ChessApp -> ChessApp -> Prop.
Hypothesis R_refl : forall a, R a a.
Hypothesis R_trans : forall a b c, R a b -> R b c -> R a c.

Lemma keeps_ret {A} (a : A) : keeps R (ret a).
Proof. intros app; apply R_refl. Qed.

Lemma keeps_lift {A} (r : result A) : keeps R (lift r).
Proof. intros app; apply R_refl. Qed.

Lemma keeps_read {A} (f : ChessApp -> A) : keeps R (read f).
Proof. intros app; apply R_refl. Qed.

Lemma keeps_assign (f : ChessApp -> ChessApp) :
  (forall app, R app (f app)) -> keeps R (assign f).
Proof. intros Hf app; apply Hf. Qed.

Lemma keeps_bind {A B} (m : M A) (k : A -> M B) :
  keeps R m -> (forall a, keeps R (k a)) -> keeps R (bind m k).
Proof.
  intros Hm Hk app. unfold bind.
  specialize (Hm app). destruct (m app) as [app' [a|e]]; simpl in *; auto.
  eapply R_trans; [exact Hm | apply Hk].
Qed.

Lemma keeps_try_except {A} (body : M A) (handler : exn -> M A) :
  keeps R body -> (forall e, keeps R (handler e)) ->
  keeps R (try_except body handler).
Proof.
  intros Hb Hh app. unfold try_except.
  specialize (Hb app). destruct (body app) as [app' [a|e]]; simpl in *; auto.
  eapply R_trans; [exact Hb | apply Hh].
Qed.

Lemma keeps_for_each {A} (l : list A) (body : A -> M unit) :
  (forall x, keeps R (body x)) -> keeps R (for_each l body).
Proof.
  intros Hb. induction l as [|x l IH]; simpl.
  - apply keeps_ret.
  - apply keeps_bind; auto.
Qed.

End Keeps.







Lemma init_engine_game (popen : result unit) app :
  board (fst (init_engine popen app)) = board app
  /\ push_log (fst (init_engine popen app)) = push_log app.
Proof. unfold init_engine. unfold_m. destruct popen; simpl; auto. Qed.

Lemma close_engine_game (quit : result unit) app :
  board (fst (close_engine quit app)) = board app
  /\ push_log (fst (close_engine quit app)) = push_log app.
Proof.
  unfold close_engine. unfold_m. destruct (engine app); simpl; auto.
  destruct quit; simpl; auto.
Qed.

(** *** The screen *)

Lemma set_stdscr_twice v w (a : ChessApp) :
  set_stdscr v (set_stdscr w a) = set_stdscr v a.
Proof. reflexivity. Qed.

Lemma for_each_addstr {A} (l : list A) (body : A -> M unit)
    (entry : A -> Z * Z * pystr) :
  (forall x a, body x a = (set_stdscr (stdscr a ++ [entry x]) a, Ok tt)) ->
  forall a, for_each l body a = (set_stdscr (stdscr a ++ map entry l) a, Ok tt).
Proof.
  intros Hbody. induction l as [|x l IH]; intros a; simpl.
  - unfold ret. rewrite app_nil_r. destruct a; reflexivity.
  - unfold bind. rewrite Hbody, IH. simpl.
    rewrite <- app_assoc. reflexivity.
Qed.

Lemma draw_screen_spec (a : ChessApp) :
  draw_screen a = (set_stdscr (screen_of a) a, Ok tt).
Proof.
  unfold draw_screen, screen_of.
  unfold bind at 1. unfold assign at 1.
  unfold bind at 1. unfold read at 1. cbv beta iota.
  unfold bind at 1. unfold addstr at 1. unfold assign at 1. cbv beta iota.
  unfold bind at 1.
  rewrite (for_each_addstr _ _ (fun '(i, ln) => (2 + i, 0, ln)))
    by (intros [i ln] ?; reflexivity).
  cbv beta iota.
  unfold bind at 1. unfold addstr at 1. unfold assign at 1. cbv beta iota.
  unfold bind at 1.
  rewrite (for_each_addstr _ _
             (fun '(k, (_, sc, var_str)) => (3 + k, 25, sc ++ u "  " ++ var_str)))
    by (intros [k [[c sc] var_str]] ?; reflexivity).
  cbv beta iota.
  unfold bind, addstr, assign. cbn [stdscr set_stdscr].
  rewrite <- !app_assoc. reflexivity.
Qed.

Lemma py_range_nth (n i : nat) :
  (i < n)%nat -> nth_error (py_range (Z.of_nat n)) i = Some (Z.of_nat i).
Proof.
  intros Hi. unfold py_range. rewrite Nat2Z.id.
  rewrite nth_error_map, nth_error_seq.
  destruct (Nat.ltb_spec i n); [reflexivity | lia].
Qed.

Lemma nth_error_combine {A B} (la : list A) (lb : list B) (i : nat) (x : A) (y : B) :
  nth_error la i = Some x -> nth_error lb i = Some y ->
  nth_error (combine la lb) i = Some (x, y).
Proof.
  revert lb i. induction la as [|a la IH]; intros [|b lb] [|i] Ha Hb;
    simpl in *; try discriminate.
  - congruence.
  - apply IH; assumption.
Qed.

Lemma screen_shows_board (a : ChessApp) (i : nat) (ln : pystr) :
  nth_error (py_split_on 10%N (board_to_unicode_str (board a))) i = Some ln ->
  In (2 + Z.of_nat i, 0, ln) (screen_of a).
Proof.
  intros Hln. unfold screen_of.
  apply in_or_app; right. apply in_or_app; left.
  apply in_map_iff. exists (Z.of_nat i, ln). split; [reflexivity|].
  apply (nth_error_In _ i).
  apply nth_error_combine; [|exact Hln].
  apply py_range_nth. apply nth_error_Some. congruence.
Qed.

(** *** Moves *)

Lemma synergy_check_spec (app : ChessApp) :
  synergy_check app
  = (if tablebase_applies app then probed app else app, Ok tt).
Proof.
  unfold synergy_check, tablebase_applies, probed. unfold_m.
  destruct (path_bool (tb_path app)
            && (Z.of_nat (length (piece_map (board app))) <=? 7)); [|reflexivity].
  simpl. destruct (probe_wdl _ _); reflexivity.
Qed.

Lemma do_move_raise (mv : Move) (app : ChessApp) (e : exn) :
  san (board app) mv = Raise e -> do_move mv app = (app, Raise e).
Proof. intros Hs. unfold do_move. unfold_m. rewrite Hs. reflexivity. Qed.

Lemma do_move_ok (mv : Move) (app : ChessApp) (move_san : pystr) :
  san (board app) mv = Ok move_san ->
  do_move mv app = synergy_check (after_push mv move_san app).
Proof.
  intros Hs. unfold do_move, after_push. unfold_m. rewrite Hs. simpl.
  destruct (Bool.eqb (turn (push (board app) mv)) WHITE); reflexivity.
Qed.

Lemma after_push_board mv move_san app :
  board (after_push mv move_san app) = push (board app) mv
  /\ push_log (after_push mv move_san app) = push_log app ++ [(board app, mv)]
  /\ engine (after_push mv move_san app) = engine app
  /\ human_color (after_push mv move_san app) = human_color app
  /\ tb_log (after_push mv move_san app) = tb_log app
  /\ tb_path (after_push mv move_san app) = tb_path app.
Proof.
  unfold after_push.
  destruct (Bool.eqb (turn (push (board app) mv)) WHITE); repeat split.
Qed.


Lemma handle_player_move_raise (user_input : pystr) (app : ChessApp) (e : exn) :
  parse_move user_input (board app) = Raise e ->
  handle_player_move user_input app
  = (set_status_msg (u "Błąd ruchu: " ++ exn_str e) app, Ok tt).
Proof.
  intros Hp. unfold handle_player_move. unfold_m. rewrite Hp. reflexivity.
Qed.

Lemma handle_player_move_illegal (user_input : pystr) (app : ChessApp) (mv : Move) :
  parse_move user_input (board app) = Ok mv ->
  ~ In mv (legal_moves (board app)) ->
  handle_player_move user_input app
  = (set_status_msg (u "Nielegalny ruch.") app, Ok tt).
Proof.
  intros Hp Hl. apply is_legal_false in Hl.
  unfold handle_player_move. unfold_m. rewrite Hp, Hl. reflexivity.
Qed.

Lemma handle_player_move_legal (user_input : pystr) (app : ChessApp) (mv : Move) :
  parse_move user_input (board app) = Ok mv ->
  In mv (legal_moves (board app)) ->
  handle_player_move user_input app
  = match san (board app) mv with
    | Ok move_san =>
      (set_status_msg [] (fst (synergy_check (after_push mv move_san app))), Ok tt)
    | Raise e => (set_status_msg (u "Błąd ruchu: " ++ exn_str e) app, Ok tt)
    end.
Proof.
  intros Hp Hl. apply is_legal_true in Hl.
  unfold handle_player_move.
  unfold try_except, bind at 1, read at 1. cbv beta iota.
  unfold bind at 1, lift at 1. rewrite Hp. cbv beta iota. rewrite Hl. simpl.
  unfold bind at 1.
  destruct (san (board app) mv) as [move_san|e] eqn:Hs.
  - rewrite (do_move_ok _ _ _ Hs), synergy_check_spec. reflexivity.
  - rewrite (do_move_raise _ _ _ Hs). reflexivity.
Qed.

Lemma handle_player_move_returns (user_input : pystr) (app : ChessApp) :
  snd (handle_player_move user_input app) = Ok tt.
Proof.
  destruct (parse_move user_input (board app)) as [mv|e] eqn:Hp.
  - destruct (in_dec Move_eq_dec mv (legal_moves (board app))) as [Hl|Hl].
    + rewrite (handle_player_move_legal _ _ _ Hp Hl).
      destruct (san (board app) mv); reflexivity.
    + rewrite (handle_player_move_illegal _ _ _ Hp Hl). reflexivity.
  - rewrite (handle_player_move_raise _ _ _ Hp). reflexivity.
Qed.

(** C2: when [handle_player_move] fails, because [parse_move] raises or
    because the parsed move is not in [board.legal_moves], it returns
    normally, the only attribute it has changed is [status_msg], which holds
    the error text, and so the board, [move_count], [last_move_white] and
    [last_move_black] are what they were. *)
Theorem handle_player_move_failure (user_input : pystr) (app : ChessApp) :
  (exists e, parse_move user_input (board app) = Raise e)
  \/ (exists mv, parse_move user_input (board app) = Ok mv
                 /\ ~ In mv (legal_moves (board app))) ->
  exists msg app',
    handle_player_move user_input app = (app', Ok tt) /\
    app' = set_status_msg msg app /\
    board app' = board app /\
    move_count app' = move_count app /\
    last_move_white app' = last_move_white app /\
    last_move_black app' = last_move_black app /\
    push_log app' = push_log app /\
    status_msg app' = msg /\
    ((exists e, parse_move user_input (board app) = Raise e
                /\ msg = u "Błąd ruchu: " ++ exn_str e)
     \/ ((exists mv, parse_move user_input (board app) = Ok mv)
         /\ msg = u "Nielegalny ruch.")).
Proof.
  intros [[e Hp] | (mv & Hp & Hl)].
  - exists (u "Błąd ruchu: " ++ exn_str e), (set_status_msg (u "Błąd ruchu: " ++ exn_str e) app).
    rewrite (handle_player_move_raise _ _ _ Hp).
    repeat split. left. exists e. auto.
  - exists (u "Nielegalny ruch."), (set_status_msg (u "Nielegalny ruch.") app).
    rewrite (handle_player_move_illegal _ _ _ Hp Hl).
    repeat split. right. split; [exists mv; exact Hp | reflexivity].
Qed.

(** C4: [synergy_check] returns normally; it asks the tablebase exactly when
    [tb_path] is set and the board holds at most 7 pieces, and then it
    records the answer, the WDL value or the error text, in [status_msg];
    otherwise it changes nothing.  [do_move] asks the tablebase through
    [synergy_check] only, on the board after the move. *)
Theorem synergy_check_probe_iff (app : ChessApp) :
  let app' := fst (synergy_check app) in
  snd (synergy_check app) = Ok tt /\
  (tb_log app' <> tb_log app
   <-> path_bool (tb_path app) = true
       /\ Z.of_nat (length (piece_map (board app))) <= 7) /\
  (path_bool (tb_path app) = true
   /\ Z.of_nat (length (piece_map (board app))) <= 7 ->
   exists path,
     tb_path app = Some path /\
     tb_log app' = tb_log app ++ [(path, board app)] /\
     status_msg app'
     = match probe_wdl path (board app) with
       | Ok wdl => u "(Syzygy) WDL = " ++ py_str_int wdl
       | Raise e => u "Błąd Syzygy: " ++ exn_str e
       end /\
     app' = set_status_msg (status_msg app') (set_tb_log (tb_log app') app)) /\
  (~ (path_bool (tb_path app) = true
      /\ Z.of_nat (length (piece_map (board app))) <= 7) ->
   app' = app) /\
  (forall mv move_san,
      san (board app) mv = Ok move_san ->
      do_move mv app = synergy_check (after_push mv move_san app)
      /\ board (after_push mv move_san app) = push (board app) mv
      /\ tb_log (after_push mv move_san app) = tb_log app).
Proof.
  intros app'. subst app'. rewrite synergy_check_spec. simpl.
  unfold tablebase_applies.
  destruct (path_bool (tb_path app)) eqn:Hp; simpl.
  - destruct (Z.leb_spec (Z.of_nat (length (piece_map (board app)))) 7) as [Hn|Hn].
    + split; [reflexivity|]. split; [|split; [|split]].
      * split; [auto|]. intros _. unfold probed; simpl.
        intros Heq. apply (f_equal (@length _)) in Heq.
        rewrite length_app in Heq. simpl in Heq. lia.
      * intros _. destruct (tb_path app) as [path|] eqn:Htb; [|discriminate].
        exists path. unfold probed. rewrite Htb. simpl. repeat split.
      * intros Hno. exfalso. apply Hno. auto.
      * intros mv move_san Hs. split; [apply do_move_ok; exact Hs|].
        split; apply after_push_board.
    + split; [reflexivity|]. split; [|split; [|split]].
      * split; [congruence | intros [_ Hle]; lia].
      * intros [_ Hle]; lia.
      * reflexivity.
      * intros mv move_san Hs. split; [apply do_move_ok; exact Hs|].
        split; apply after_push_board.
  - split; [reflexivity|]. split; [|split; [|split]].
    + split; [congruence | intros [Hf _]; discriminate].
    + intros [Hf _]; discriminate.
    + reflexivity.
    + intros mv move_san Hs. split; [apply do_move_ok; exact Hs|].
      split; apply after_push_board.
Qed.

(** *** Every push is a push of a legal move *)















End ChesspyApp.

(** ** chesspy_windows.py *)

Section Windows.
Context `{ChessLib} `{Desktop}.
Import ChesspyWindows.

Ltac unfold_g :=
  unfold ChesspyWindows.bind, ChesspyWindows.ret, ChesspyWindows.lift,
    ChesspyWindows.read, ChesspyWindows.assign, ChesspyWindows.emit,
    ChesspyWindows.sys_exit, ChesspyWindows.try_except in *.

Section KeepsG.
Variable R : Gui -> Gui -> Prop.
Hypothesis R_refl : forall g, R g g.
Hypothesis R_trans : forall a b c, R a b -> R b c -> R a c.

Lemma keeps_g_ret {A} (a : A) : keeps_g R (ret a).
Proof. intros g; apply R_refl. Qed.

Lemma keeps_g_lift {A} (r : result A) : keeps_g R (lift r).
Proof. intros g; apply R_refl. Qed.

Lemma keeps_g_read {A} (f : Gui -> A) : keeps_g R (read f).
Proof. intros g; apply R_refl. Qed.

Lemma keeps_g_exit {A} : keeps_g R (@sys_exit _ _ A).
Proof. intros g; apply R_refl. Qed.

Lemma keeps_g_assign (f : Gui -> Gui) :
  (forall g, R g (f g)) -> keeps_g R (assign f).
Proof. intros Hf g; apply Hf. Qed.

Lemma keeps_g_emit (o : Out) :
  (forall g, R g (set_out (out g ++ [o]) g)) -> keeps_g R (emit o).
Proof. intros Hf g; apply Hf. Qed.

Lemma keeps_g_bind {A B} (m : G A) (k : A -> G B) :
  keeps_g R m -> (forall a, keeps_g R (k a)) -> keeps_g R (bind m k).
Proof.
  intros Hm Hk g. unfold bind.
  specialize (Hm g). destruct (m g) as [g' [a|e|]]; simpl in *; auto.
  eapply R_trans; [exact Hm | apply Hk].
Qed.

Lemma keeps_g_try_except {A} (body : G A) (handler : exn -> G A) :
  keeps_g R body -> (forall e, keeps_g R (handler e)) ->
  keeps_g R (try_except body handler).
Proof.
  intros Hb Hh g. unfold try_except.
  specialize (Hb g). destruct (body g) as [g' [a|e|]]; simpl in *; auto.
  eapply R_trans; [exact Hb | apply Hh].
Qed.

Lemma keeps_g_for_each {A} (l : list A) (body : A -> G unit) :
  (forall x, keeps_g R (body x)) -> keeps_g R (for_each l body).
Proof.
  intros Hb. induction l as [|x l IH]; simpl.
  - apply keeps_g_ret.
  - apply keeps_g_bind; auto.
Qed.

End KeepsG.

(** The structural steps of a proof that a statement keeps [R]; [leaf]
    settles the assignments and the actions on the outside. *)
Ltac keeps_g_steps refl trans leaf :=
  repeat first
    [ progress cbv beta zeta
    | match goal with
      | |- keeps_g _ (ChesspyWindows.ret _) => apply keeps_g_ret; apply refl
      | |- keeps_g _ (ChesspyWindows.lift _) => apply keeps_g_lift; apply refl
      | |- keeps_g _ (ChesspyWindows.read _) => apply keeps_g_read; apply refl
      | |- keeps_g _ ChesspyWindows.sys_exit => apply keeps_g_exit; apply refl
      | |- keeps_g _ (ChesspyWindows.assign _) =>
        apply keeps_g_assign; intros ?; leaf
      | |- keeps_g _ (ChesspyWindows.emit _) =>
        apply keeps_g_emit; intros ?; leaf
      | |- keeps_g _ (ChesspyWindows.for_each _ _) =>
        apply keeps_g_for_each; [apply refl | apply trans | intros ?]
      | |- keeps_g _ (ChesspyWindows.try_except _ _) =>
        apply keeps_g_try_except; [apply trans | | intros ?]
      | |- keeps_g _ (ChesspyWindows.bind _ _) =>
        apply keeps_g_bind; [apply trans | | intros ?]
      | |- keeps_g _ (match ?x with _ => _ end) => destruct x
      end ].

(** *** The output only grows *)

Lemma out_grows_refl g : out_grows g g.
Proof. exists []. symmetry. apply app_nil_r. Qed.

Lemma out_grows_trans a b c : out_grows a b -> out_grows b c -> out_grows a c.
Proof.
  intros [l1 H1] [l2 H2]. exists (l1 ++ l2).
  rewrite H2, H1, app_assoc. reflexivity.
Qed.

Ltac grows_leaf :=
  first [ eexists; simpl; reflexivity
        | exists []; simpl; symmetry; apply app_nil_r ].

Ltac keeps_grows := keeps_g_steps out_grows_refl out_grows_trans grows_leaf.

Lemma draw_board_grows b : keeps_g out_grows (draw_board b).
Proof. unfold draw_board. keeps_grows. Qed.

Lemma get_analysis_grows eng reply : keeps_g out_grows (get_analysis eng reply).
Proof. unfold get_analysis, draw_thermometer. keeps_grows. Qed.

Lemma push_board_grows mv : keeps_g out_grows (push_board mv).
Proof. unfold push_board. keeps_grows. Qed.

Lemma ai_event_grows ev : keeps_g out_grows (ai_event ev).
Proof. unfold ai_event, push_board. keeps_grows. Qed.

Lemma ai_turn_grows eng f : keeps_g out_grows (ai_turn eng f).
Proof. unfold ai_turn, get_move, push_board. keeps_grows. Qed.

Lemma ai_loop_grows eng frames : keeps_g out_grows (ai_loop eng frames).
Proof.
  induction frames as [|f rest IH]; simpl.
  - keeps_grows.
  - repeat first
      [ exact IH
      | apply draw_board_grows
      | apply get_analysis_grows
      | apply ai_event_grows
      | apply ai_turn_grows
      | progress keeps_grows ].
Qed.

(** Each turn of the loop of [play_against_ai] starts by drawing the board
    as it is then. *)
Lemma ai_loop_draws eng f rest g :
  exists tail,
    out (fst (ai_loop eng (f :: rest) g))
    = out g ++ Fill (30, 30, 30)
        :: board_picture (piece_images g) (board g)
                         DEFAULT_OFFSET_X DEFAULT_OFFSET_Y SQUARE_SIZE
        ++ tail.
Proof.
  cbn [ai_loop].
  unfold bind at 1. unfold emit at 1, assign at 1. cbv beta iota.
  unfold bind at 1. unfold read at 1. cbv beta iota.
  unfold bind at 1. unfold draw_board at 1, assign at 1. cbv beta iota.
  match goal with
  | |- exists tail, out (fst (?k ?g2)) = _ =>
    assert (Hk : keeps_g out_grows k);
      [| destruct (Hk g2) as [l Hl]; exists l; rewrite Hl;
         cbn [out set_out piece_images board];
         rewrite <- !app_assoc; reflexivity ]
  end.
  pose proof (ai_loop_grows eng rest) as IH.
  repeat first
    [ exact IH
    | apply get_analysis_grows
    | apply ai_event_grows
    | apply ai_turn_grows
    | progress keeps_grows ].
Qed.

(** A click on a square that completes a legal move. *)
Lemma ai_event_legal_click g x y from_sq sq :
  clicked_square x y = Some sq ->
  selected_square g = Some from_sq ->
  In (Move_new from_sq sq) (legal_moves (board g)) ->
  ai_event (MOUSEBUTTONDOWN x y) g
  = (set_selected_square None
       (set_move_history (move_history g ++ [Move_new from_sq sq])
          (set_push_log (push_log g ++ [Pushed (board g) (Move_new from_sq sq)])
             (set_board (push (board g) (Move_new from_sq sq)) g))),
     Return tt).
Proof.
  intros Hsq Hsel Hl. apply is_legal_true in Hl.
  unfold ai_event, push_board. rewrite Hsq. unfold_g.
  rewrite Hsel, Hl. reflexivity.
Qed.

(** *** The puzzle request *)

Lemma get_lichess_puzzle_eq (http : result Response) g :
  get_lichess_puzzle http g
  = match http with
    | Raise e =>
      (set_out (out g ++ [Print (u "Błąd pobierania zadania z Lichess: "
                                 ++ exn_str e)]) g, Return JNull)
    | Ok response =>
      if status_code response =? 200 then
        match response_json response with
        | Ok puzzle => (g, Return puzzle)
        | Raise e =>
          (set_out (out g ++ [Print (u "Błąd pobierania zadania z Lichess: "
                                     ++ exn_str e)]) g, Return JNull)
        end
      else (g, Return JNull)
    end.
Proof.
  unfold get_lichess_puzzle. unfold_g.
  destruct http as [response|e]; [|reflexivity].
  destruct (status_code response =? 200); [|reflexivity].
  destruct (response_json response); reflexivity.
Qed.

(** *** The receiving thread *)

Lemma split_on_go_first (sep : pychar) (s : pystr) :
  py_contains sep (fst (split_on_go sep s)) = false /\
  ((snd (split_on_go sep s) = [] /\ s = fst (split_on_go sep s))
   \/ exists s',
        s = fst (split_on_go sep s) ++ sep :: s' /\
        snd (split_on_go sep s)
        = fst (split_on_go sep s') :: snd (split_on_go sep s')).
Proof.
  induction s as [|c s (Hno & IH)]; simpl.
  - split; auto.
  - destruct (split_on_go sep s) as [w ws] eqn:Hgo; simpl in *.
    destruct (N.eqb_spec c sep) as [->|Hc]; simpl.
    + split; auto. right. exists s. rewrite Hgo. auto.
    + split.
      * unfold py_contains in *. simpl.
        destruct (N.eqb_spec c sep); [contradiction | exact Hno].
      * destruct IH as [[-> ->] | (s' & -> & Hws)].
        -- left. auto.
        -- right. exists s'. auto.
Qed.

(** The second field of [data.split(sep)] is the text between the first
    separator and the second, or the end. *)
Lemma split_on_second (sep : pychar) (s t : pystr) :
  nth_error (py_split_on sep s) 1 = Some t ->
  exists first rest,
    s = first ++ sep :: t ++ rest /\
    py_contains sep first = false /\
    py_contains sep t = false /\
    (rest = [] \/ exists rest', rest = sep :: rest').
Proof.
  unfold py_split_on.
  destruct (split_on_go_first sep s) as (Hno & Hs).
  destruct (split_on_go sep s) as [w ws]; simpl in *.
  destruct Hs as [[-> _] | (s' & -> & ->)]; [discriminate|].
  intros [= <-].
  destruct (split_on_go_first sep s') as (Hno' & Hs').
  exists w. destruct Hs' as [[_ Hs'] | (s'' & Hs' & _)].
  - exists []. rewrite app_nil_r. repeat split; auto.
    rewrite <- Hs'. reflexivity.
  - exists (sep :: s''). repeat split; auto.
    + rewrite <- Hs'. reflexivity.
    + right. eauto.
Qed.

Lemma receive_step_eq (received : result pybytes) g :
  receive_step received g
  = let stop e :=
        (set_out (out g ++ [Print (u "Błąd odbierania danych: " ++ exn_str e)]) g,
         Return false) in
    match received with
    | Raise e => stop e
    | Ok raw =>
      match utf8_decode raw with
      | Raise e => stop e
      | Ok data =>
        if py_startswith (u "OPPONENT_MOVE") data then
          match nth_error (py_split_on 124%N data) 1 with
          | None => stop (mk_exn IndexError (u "list index out of range"))
          | Some move =>
            match push_uci (board g) move with
            | Ok b' =>
              (set_push_log (push_log g ++ [PushedUci (board g) move])
                            (set_board b' g), Return true)
            | Raise e => stop e
            end
          end
        else (g, Return true)
      end
    end.
Proof.
  unfold receive_step. unfold_g.
  destruct received as [raw|e]; [|reflexivity].
  destruct (utf8_decode raw) as [data|e]; [|reflexivity].
  destruct (py_startswith _ data); [|reflexivity].
  destruct (nth_error _ 1) as [move|]; [|reflexivity].
  destruct (push_uci (board g) move); reflexivity.
Qed.

(** *** Every push of the game against the engine is legal *)













(** *** The messages sent to the server *)

Lemma sends_ok_refl g : sends_ok g g.
Proof. intros Hg; exact Hg. Qed.

Lemma sends_ok_trans a b c : sends_ok a b -> sends_ok b c -> sends_ok a c.
Proof. intros H1 H2 Ha; auto. Qed.

Ltac sends_leaf :=
  let Hf := fresh "Hf" in
  intros Hf; cbn [out set_out set_piece_images set_move_history
                  set_client_socket set_username set_password set_board
                  set_selected_square set_push_log];
  first [ exact Hf
        | apply Forall_app; split; [exact Hf | repeat constructor] ].

Create HintDb sends.

Ltac keeps_sends :=
  repeat first
    [ solve [auto with sends nocore]
    | progress keeps_g_steps sends_ok_refl sends_ok_trans sends_leaf ].

Lemma board_picture_ok images b ox oy sz :
  Forall sent_ok (board_picture images b ox oy sz).
Proof.
  apply List.Forall_forall. intros o Ho. unfold board_picture in Ho.
  apply in_flat_map in Ho as (rank & _ & Ho).
  apply in_flat_map in Ho as (file & _ & Ho).
  unfold draw_square in Ho. destruct Ho as [<- | Ho]; [exact I|].
  destruct (piece_at b _) as [piece|]; [|contradiction].
  destruct (images !! _) as [img|]; [|contradiction].
  destruct Ho as [<- | []]. exact I.
Qed.

Lemma draw_board_sends b : keeps_g sends_ok (draw_board b).
Proof.
  unfold draw_board. apply keeps_g_assign. intros g Hf. cbn [out set_out].
  apply Forall_app. split; [exact Hf | apply board_picture_ok].
Qed.
#[local] Hint Resolve draw_board_sends : sends.

Lemma load_piece_images_sends : keeps_g sends_ok load_piece_images.
Proof. unfold load_piece_images. keeps_sends. Qed.
#[local] Hint Resolve load_piece_images_sends : sends.

Lemma get_analysis_sends eng reply : keeps_g sends_ok (get_analysis eng reply).
Proof. unfold get_analysis, draw_thermometer. keeps_sends. Qed.
#[local] Hint Resolve get_analysis_sends : sends.

Lemma get_lichess_puzzle_sends http : keeps_g sends_ok (get_lichess_puzzle http).
Proof. unfold get_lichess_puzzle. keeps_sends. Qed.
#[local] Hint Resolve get_lichess_puzzle_sends : sends.

Lemma push_board_sends mv : keeps_g sends_ok (push_board mv).
Proof. unfold push_board. keeps_sends. Qed.
#[local] Hint Resolve push_board_sends : sends.

Lemma ai_event_sends ev : keeps_g sends_ok (ai_event ev).
Proof. unfold ai_event. keeps_sends. Qed.
#[local] Hint Resolve ai_event_sends : sends.

Lemma ai_turn_sends eng f : keeps_g sends_ok (ai_turn eng f).
Proof. unfold ai_turn, get_move. keeps_sends. Qed.
#[local] Hint Resolve ai_turn_sends : sends.

Lemma ai_loop_sends eng frames : keeps_g sends_ok (ai_loop eng frames).
Proof. induction frames as [|f rest IH]; cbn [ai_loop]; keeps_sends. Qed.
#[local] Hint Resolve ai_loop_sends : sends.

Lemma play_against_ai_sends script : keeps_g sends_ok (play_against_ai script).
Proof. unfold play_against_ai, start_engine, stop_engine. keeps_sends. Qed.
#[local] Hint Resolve play_against_ai_sends : sends.

Lemma puzzle_move_sends sm i r mv : keeps_g sends_ok (puzzle_move sm i r mv).
Proof. unfold puzzle_move. keeps_sends. Qed.
#[local] Hint Resolve puzzle_move_sends : sends.

Lemma puzzle_event_sends sm st ev : keeps_g sends_ok (puzzle_event sm st ev).
Proof. unfold puzzle_event. keeps_sends. Qed.
#[local] Hint Resolve puzzle_event_sends : sends.

Lemma puzzle_events_sends sm evs : forall st, keeps_g sends_ok (puzzle_events sm st evs).
Proof. induction evs as [|ev evs IH]; intros st; cbn [puzzle_events]; keeps_sends. Qed.
#[local] Hint Resolve puzzle_events_sends : sends.

Lemma puzzle_loop_sends sm frames : forall i, keeps_g sends_ok (puzzle_loop sm i frames).
Proof. induction frames as [|evs rest IH]; intros i; cbn [puzzle_loop]; keeps_sends. Qed.
#[local] Hint Resolve puzzle_loop_sends : sends.

Lemma draw_puzzle_sends puzzle frames : keeps_g sends_ok (draw_puzzle puzzle frames).
Proof. unfold draw_puzzle. keeps_sends. Qed.
#[local] Hint Resolve draw_puzzle_sends : sends.

(** [send_to_server] sends its argument, and nothing else. *)
Lemma send_to_server_sends data net :
  documented data -> keeps_g sends_ok (send_to_server data net).
Proof.
  intros Hd. unfold send_to_server.
  apply keeps_g_bind; [apply sends_ok_trans | keeps_sends |]. intros sock.
  destruct sock as [sock|]; [|keeps_sends].
  apply keeps_g_bind; [apply sends_ok_trans | | intros _; keeps_sends].
  apply keeps_g_emit. intros g Hf. cbn [out set_out].
  apply Forall_app. split; [exact Hf|]. constructor; [exact Hd | constructor].
Qed.

Lemma login_documented user pass :
  documented (u "LOGIN|" ++ user ++ u "|" ++ pass).
Proof. left. eauto. Qed.

Lemma move_documented opponent mv :
  documented (u "MOVE|" ++ opponent ++ u "|" ++ uci mv).
Proof. right. left. eauto. Qed.

Lemma game_over_documented user opponent result :
  documented (u "GAME_OVER|" ++ user ++ u "|" ++ opponent ++ u "|" ++ result).
Proof. right. right. left. eauto. Qed.

Lemma start_match_documented : documented (u "START_MATCH").
Proof. right. right. right. reflexivity. Qed.

#[local] Hint Resolve send_to_server_sends login_documented move_documented
  game_over_documented start_match_documented : sends.

Lemma login_screen_sends net : keeps_g sends_ok (login_screen net).
Proof. unfold login_screen. keeps_sends. Qed.
#[local] Hint Resolve login_screen_sends : sends.

Lemma receive_step_sends received : keeps_g sends_ok (receive_step received).
Proof. unfold receive_step. keeps_sends. Qed.
#[local] Hint Resolve receive_step_sends : sends.

Lemma online_click_sends w opp net x y : keeps_g sends_ok (online_click w opp net x y).
Proof. unfold online_click. keeps_sends. Qed.
#[local] Hint Resolve online_click_sends : sends.

Lemma online_events_sends w opp net evs : keeps_g sends_ok (online_events w opp net evs).
Proof.
  induction evs as [|ev evs IH]; cbn [online_events]; [keeps_sends|].
  destruct ev; keeps_sends.
Qed.
#[local] Hint Resolve online_events_sends : sends.

Lemma online_loop_sends w opp steps :
  forall receiving, keeps_g sends_ok (online_loop w opp receiving steps).
Proof.
  induction steps as [|step rest IH]; intros receiving; cbn [online_loop]; [keeps_sends|].
  destruct step; keeps_sends.
Qed.
#[local] Hint Resolve online_loop_sends : sends.

Lemma launch_online_game_sends color opp steps :
  keeps_g sends_ok (launch_online_game color opp steps).
Proof. unfold launch_online_game. keeps_sends. Qed.
#[local] Hint Resolve launch_online_game_sends : sends.

Lemma choose_click_sends x y net online ai :
  keeps_g sends_ok (choose_click x y net online ai).
Proof. unfold choose_click, wait_for_match. keeps_sends. Qed.
#[local] Hint Resolve choose_click_sends : sends.

Lemma choose_events_sends evs : keeps_g sends_ok (choose_events evs).
Proof.
  induction evs as [|ev evs IH]; cbn [choose_events]; [keeps_sends|].
  destruct ev; keeps_sends.
Qed.
#[local] Hint Resolve choose_events_sends : sends.

Lemma choose_opponent_sends frames : keeps_g sends_ok (choose_opponent frames).
Proof. induction frames as [|evs rest IH]; cbn [choose_opponent]; keeps_sends. Qed.
#[local] Hint Resolve choose_opponent_sends : sends.

Lemma lobby_events_sends evs : keeps_g sends_ok (lobby_events evs).
Proof.
  induction evs as [|ev evs IH]; cbn [lobby_events]; [keeps_sends|].
  destruct ev; unfold stats_screen; keeps_sends.
Qed.
#[local] Hint Resolve lobby_events_sends : sends.

Lemma lobby_screen_sends frames : keeps_g sends_ok (lobby_screen frames).
Proof.
  induction frames as [|evs rest IH]; cbn [lobby_screen]; unfold draw_lobby; keeps_sends.
Qed.
#[local] Hint Resolve lobby_screen_sends : sends.

Lemma online_game_mode_sends script : keeps_g sends_ok (online_game_mode script).
Proof. unfold online_game_mode. keeps_sends. Qed.
#[local] Hint Resolve online_game_mode_sends : sends.

Lemma menu_events_sends evs : keeps_g sends_ok (menu_events evs).
Proof.
  induction evs as [|ev evs IH]; cbn [menu_events]; [keeps_sends|].
  destruct ev; keeps_sends.
Qed.
#[local] Hint Resolve menu_events_sends : sends.

Lemma main_menu_sends frames : keeps_g sends_ok (main_menu frames).
Proof.
  induction frames as [|evs rest IH]; cbn [main_menu]; unfold menu_buttons; keeps_sends.
Qed.
#[local] Hint Resolve main_menu_sends : sends.

Lemma main_sends frames : keeps_g sends_ok (main frames).
Proof. unfold main. keeps_sends. Qed.

Lemma messages_documented (l : list Out) :
  Forall sent_ok l -> Forall documented (messages l).
Proof.
  induction 1 as [|o l Ho Hl IH]; simpl; [constructor|].
  destruct o; simpl; auto.
Qed.

(** *** What is sent, and when *)

Lemma messages_app (l1 l2 : list Out) :
  messages (l1 ++ l2) = messages l1 ++ messages l2.
Proof. unfold messages. apply flat_map_app. Qed.

Lemma messages_flat_map_nil {A} (f : A -> list Out) (l : list A) :
  (forall x, messages (f x) = []) -> messages (flat_map f l) = [].
Proof.
  intros Hf. induction l as [|x l IH]; simpl; [reflexivity|].
  rewrite messages_app, Hf, IH. reflexivity.
Qed.

Lemma board_picture_messages images b ox oy sz :
  messages (board_picture images b ox oy sz) = [].
Proof.
  unfold board_picture.
  apply messages_flat_map_nil. intros rank.
  apply messages_flat_map_nil. intros file.
  unfold draw_square, messages. simpl.
  destruct (piece_at b _) as [piece|]; [|reflexivity].
  destruct (images !! _); reflexivity.
Qed.

Lemma send_to_server_messages data net g sock :
  client_socket g = Some sock ->
  messages (out (fst (send_to_server data net g))) = messages (out g) ++ [data]
  /\ board (fst (send_to_server data net g)) = board g.
Proof.
  intros Hs. unfold send_to_server. unfold_g. rewrite Hs. simpl.
  destruct (net data); simpl; rewrite !messages_app; simpl;
    rewrite ?app_nil_r; auto.
Qed.

Lemma send_to_server_unconnected data net g :
  client_socket g = None ->
  messages (out (fst (send_to_server data net g))) = messages (out g).
Proof.
  intros Hs. unfold send_to_server. unfold_g. rewrite Hs. simpl.
  rewrite messages_app. simpl. apply app_nil_r.
Qed.

Lemma login_screen_messages net g sock :
  client_socket g = Some sock ->
  messages (out (fst (login_screen net g)))
  = messages (out g) ++ [u "LOGIN|Buldozer|123"].
Proof.
  intros Hs. unfold login_screen, send_to_server. unfold_g. simpl. rewrite Hs.
  simpl. destruct (net _); simpl; rewrite !messages_app; simpl;
    rewrite ?app_nil_r; reflexivity.
Qed.

(** A click that completes a legal move of the player whose turn it is. *)
Lemma online_click_legal is_white opponent net x y g from_sq sq sock :
  turn (board g) = is_white ->
  clicked_square x y = Some sq ->
  selected_square g = Some from_sq ->
  In (Move_new from_sq sq) (legal_moves (board g)) ->
  client_socket g = Some sock ->
  board (fst (online_click is_white opponent net x y g))
  = push (board g) (Move_new from_sq sq)
  /\ messages (out (fst (online_click is_white opponent net x y g)))
     = messages (out g)
         ++ [u "MOVE|" ++ opponent ++ u "|" ++ uci (Move_new from_sq sq)].
Proof.
  intros Ht Hsq Hsel Hl Hs. apply is_legal_true in Hl.
  unfold online_click, push_board, send_to_server. unfold_g.
  rewrite Ht, Hsq. unfold WHITE, BLACK.
  destruct is_white; simpl; rewrite Hsel, Hl; simpl; rewrite Hs; simpl;
    (destruct (net _); simpl; rewrite !messages_app; simpl;
     rewrite ?app_nil_r; split; reflexivity).
Qed.

(** A turn of the online loop on a finished game. *)
Lemma online_loop_game_over is_white opponent receiving evs net rest g sock :
  is_game_over (board g) = true ->
  client_socket g = Some sock ->
  snd (online_loop is_white opponent receiving (MainFrame evs net :: rest) g)
  = Return GameOver
  /\ messages (out (fst (online_loop is_white opponent receiving
                                     (MainFrame evs net :: rest) g)))
     = messages (out g)
         ++ [u "GAME_OVER|" ++ username g ++ u "|" ++ opponent ++ u "|"
               ++ board_result (board g)].
Proof.
  intros Hover Hs. cbn [online_loop]. unfold draw_board, send_to_server. unfold_g.
  with_strategy opaque [messages board_picture]
    (cbn; rewrite Hover; cbn; rewrite Hs; cbn).
  destruct (net _);
    with_strategy opaque [messages board_picture]
      (cbn; rewrite !messages_app, board_picture_messages);
    split; try reflexivity; cbn; rewrite ?app_nil_r; reflexivity.
Qed.

Create HintDb grows.
#[local] Hint Resolve draw_board_grows push_board_grows : grows.

Ltac keeps_grows_db :=
  repeat first
    [ solve [auto with grows nocore]
    | progress keeps_grows ].

Lemma send_to_server_grows data net : keeps_g out_grows (send_to_server data net).
Proof. unfold send_to_server. keeps_grows_db. Qed.
#[local] Hint Resolve send_to_server_grows : grows.

Lemma receive_step_grows received : keeps_g out_grows (receive_step received).
Proof. unfold receive_step. keeps_grows_db. Qed.
#[local] Hint Resolve receive_step_grows : grows.

Lemma online_click_grows w opp net x y : keeps_g out_grows (online_click w opp net x y).
Proof. unfold online_click. keeps_grows_db. Qed.
#[local] Hint Resolve online_click_grows : grows.

Lemma online_events_grows w opp net evs : keeps_g out_grows (online_events w opp net evs).
Proof.
  induction evs as [|ev evs IH]; cbn [online_events]; [keeps_grows_db|].
  destruct ev; keeps_grows_db.
Qed.
#[local] Hint Resolve online_events_grows : grows.

Lemma online_loop_grows w opp steps :
  forall receiving, keeps_g out_grows (online_loop w opp receiving steps).
Proof.
  induction steps as [|step rest IH]; intros receiving; cbn [online_loop];
    [keeps_grows_db|].
  destruct step; keeps_grows_db.
Qed.
#[local] Hint Resolve online_loop_grows : grows.

Lemma launch_online_game_grows color opp steps :
  keeps_g out_grows (launch_online_game color opp steps).
Proof. unfold launch_online_game. keeps_grows_db. Qed.
#[local] Hint Resolve launch_online_game_grows : grows.

(** A click on the first button of [choose_opponent] asks for a match before
    anything else is sent. *)
Lemma choose_click_start_match x y net online ai g sock :
  250 <= x <= 550 -> 120 <= y <= 160 ->
  client_socket g = Some sock ->
  exists later,
    messages (out (fst (choose_click x y net online ai g)))
    = messages (out g) ++ u "START_MATCH" :: later.
Proof.
  intros Hx Hy Hs. unfold choose_click.
  replace ((250 <=? x) && (x <=? 550)) with true
    by (symmetry; apply andb_true_iff; split; apply Z.leb_le; lia).
  replace ((120 <=? y) && (y <=? 160)) with true
    by (symmetry; apply andb_true_iff; split; apply Z.leb_le; lia).
  destruct (send_to_server_messages (u "START_MATCH") net g sock Hs) as [Hm _].
  unfold bind at 1.
  assert (Hret : exists r, snd (send_to_server (u "START_MATCH") net g) = Return r).
  { unfold send_to_server. unfold_g. rewrite Hs. simpl.
    destruct (net _); simpl; eauto. }
  destruct Hret as [r Hr].
  destruct (send_to_server (u "START_MATCH") net g) as [g1 c] eqn:Hsend.
  simpl in Hr, Hm. subst c.
  match goal with
  | |- exists later, messages (out (fst (?k ?g1))) = _ =>
    assert (Hk : keeps_g out_grows k)
  end.
  { unfold wait_for_match. keeps_grows_db. }
  destruct (Hk g1) as [l Hl]. exists (messages l).
  rewrite Hl, messages_app, Hm, <- app_assoc. reflexivity.
Qed.

End Windows.

(** ** The two programs together *)

Section Claims.
Context `{ChessLib} `{Desktop}.

Lemma do_move_pushes (mv : Move) (app : Chesspy.ChessApp) (move_san : pystr) :
  san (Chesspy.board app) mv = Ok move_san ->
  snd (Chesspy.do_move mv app) = Ok tt
  /\ Chesspy.board (fst (Chesspy.do_move mv app)) = push (Chesspy.board app) mv
  /\ Chesspy.push_log (fst (Chesspy.do_move mv app))
     = Chesspy.push_log app ++ [(Chesspy.board app, mv)].
Proof.
  intros Hs. rewrite (do_move_ok _ _ _ Hs), synergy_check_spec.
  destruct (after_push_board mv move_san app) as (Hb & Hl & _).
  destruct (tablebase_applies _); simpl; auto.
Qed.

(** C1: a move that is accepted is on the board that is shown next.  In the
    curses application [do_move] leaves the board [b.push(mv)] (the rules
    library giving the notation of the move), [handle_player_move] does so
    for the move it parsed and found legal, and [draw_screen] then writes the
    lines of that board from row 2.  In [play_against_ai] a click that
    completes a move of [board.legal_moves] pushes it and appends it to
    [move_history] without drawing anything, and the next turn of the loop
    starts by drawing the board with the move on it. *)
Theorem accepted_move_is_displayed :
  (forall (app : Chesspy.ChessApp) (mv : Move) (move_san : pystr),
      san (Chesspy.board app) mv = Ok move_san ->
      exists app' shown,
        Chesspy.do_move mv app = (app', Ok tt) /\
        Chesspy.board app' = push (Chesspy.board app) mv /\
        Chesspy.draw_screen app' = (shown, Ok tt) /\
        Chesspy.board shown = push (Chesspy.board app) mv /\
        forall i ln,
          nth_error (py_split_on 10%N
                       (Chesspy.board_to_unicode_str (push (Chesspy.board app) mv)))
                    i = Some ln ->
          In (2 + Z.of_nat i, 0, ln) (Chesspy.stdscr shown)) /\
  (forall (app : Chesspy.ChessApp) (user_input : pystr) (mv : Move)
          (move_san : pystr),
      Chesspy.parse_move user_input (Chesspy.board app) = Ok mv ->
      In mv (legal_moves (Chesspy.board app)) ->
      san (Chesspy.board app) mv = Ok move_san ->
      Chesspy.board (fst (Chesspy.handle_player_move user_input app))
      = push (Chesspy.board app) mv) /\
  (forall (g : ChesspyWindows.Gui) (x y from_sq sq : Z),
      ChesspyWindows.clicked_square x y = Some sq ->
      ChesspyWindows.selected_square g = Some from_sq ->
      In (Move_new from_sq sq) (legal_moves (ChesspyWindows.board g)) ->
      exists g',
        ChesspyWindows.ai_event (ChesspyWindows.MOUSEBUTTONDOWN x y) g
        = (g', ChesspyWindows.Return tt) /\
        ChesspyWindows.board g'
        = push (ChesspyWindows.board g) (Move_new from_sq sq) /\
        ChesspyWindows.move_history g'
        = ChesspyWindows.move_history g ++ [Move_new from_sq sq] /\
        ChesspyWindows.out g' = ChesspyWindows.out g /\
        forall eng f rest,
        exists tail,
          ChesspyWindows.out (fst (ChesspyWindows.ai_loop eng (f :: rest) g'))
          = ChesspyWindows.out g
              ++ ChesspyWindows.Fill (30, 30, 30)
              :: ChesspyWindows.board_picture
                   (ChesspyWindows.piece_images g)
                   (push (ChesspyWindows.board g) (Move_new from_sq sq))
                   ChesspyWindows.DEFAULT_OFFSET_X ChesspyWindows.DEFAULT_OFFSET_Y
                   ChesspyWindows.SQUARE_SIZE
              ++ tail).
Proof.
  split; [|split].
  - intros app mv move_san Hs.
    destruct (do_move_pushes mv app move_san Hs) as (Hret & Hb & _).
    destruct (Chesspy.do_move mv app) as [app' r] eqn:Hd. simpl in *. subst r.
    exists app', (Chesspy.set_stdscr (screen_of app') app').
    split; [reflexivity|]. split; [exact Hb|].
    split; [apply draw_screen_spec|]. split; [exact Hb|].
    intros i ln Hln. cbn [Chesspy.stdscr Chesspy.set_stdscr].
    apply screen_shows_board. rewrite Hb. exact Hln.
  - intros app user_input mv move_san Hp Hl Hs.
    rewrite (handle_player_move_legal _ _ _ Hp Hl), Hs, synergy_check_spec.
    destruct (after_push_board mv move_san app) as (Hb & _).
    destruct (tablebase_applies _); simpl; exact Hb.
  - intros g x y from_sq sq Hsq Hsel Hl.
    eexists. split; [apply (ai_event_legal_click g x y from_sq sq Hsq Hsel Hl)|].
    repeat split.
    intros eng f rest.
    destruct (ai_loop_draws eng f rest
                (ChesspyWindows.set_selected_square None
                   (ChesspyWindows.set_move_history
                      (ChesspyWindows.move_history g ++ [Move_new from_sq sq])
                      (ChesspyWindows.set_push_log
                         (ChesspyWindows.push_log g
                            ++ [ChesspyWindows.Pushed (ChesspyWindows.board g)
                                                      (Move_new from_sq sq)])
                         (ChesspyWindows.set_board
                            (push (ChesspyWindows.board g) (Move_new from_sq sq))
                            g))))) as [tail Htail].
    exists tail. exact Htail.
Qed.


(** C5, as the code has it: the receiving thread changes the board only on
    data that starts with ["OPPONENT_MOVE"].  On such data it hands the text
    between the first ["|"] and the second (or the end) to [push_uci]: the
    board changes when [push_uci] accepts the text, and the loop goes on.
    When the data has no ["|"], or [push_uci] rejects the text, the board
    stays as it is and the loop ends, as it does when [recv] or the decoding
    raises.  Any other data leaves everything as it is and the loop goes
    on. *)
Theorem receive_step_cases (received : result pybytes) (g : ChesspyWindows.Gui) :
  let g' := fst (ChesspyWindows.receive_step received g) in
  let go_on := snd (ChesspyWindows.receive_step received g) in
  (ChesspyWindows.push_log g' <> ChesspyWindows.push_log g ->
   exists raw data,
     received = Ok raw /\ utf8_decode raw = Ok data /\
     py_startswith (u "OPPONENT_MOVE") data = true) /\
  (forall raw data,
      received = Ok raw -> utf8_decode raw = Ok data ->
      (py_startswith (u "OPPONENT_MOVE") data = false ->
       g' = g /\ go_on = ChesspyWindows.Return true) /\
      (py_startswith (u "OPPONENT_MOVE") data = true ->
       (nth_error (py_split_on 124%N data) 1 = None ->
        ChesspyWindows.board g' = ChesspyWindows.board g /\
        ChesspyWindows.push_log g' = ChesspyWindows.push_log g /\
        go_on = ChesspyWindows.Return false) /\
       (forall text,
           nth_error (py_split_on 124%N data) 1 = Some text ->
           (exists first rest,
               data = first ++ 124%N :: text ++ rest /\
               py_contains 124%N first = false /\
               py_contains 124%N text = false /\
               (rest = [] \/ exists rest', rest = 124%N :: rest')) /\
           (forall b',
               push_uci (ChesspyWindows.board g) text = Ok b' ->
               ChesspyWindows.board g' = b' /\
               ChesspyWindows.push_log g'
               = ChesspyWindows.push_log g
                   ++ [ChesspyWindows.PushedUci (ChesspyWindows.board g) text] /\
               go_on = ChesspyWindows.Return true) /\
           (forall e,
               push_uci (ChesspyWindows.board g) text = Raise e ->
               ChesspyWindows.board g' = ChesspyWindows.board g /\
               ChesspyWindows.push_log g' = ChesspyWindows.push_log g /\
               go_on = ChesspyWindows.Return false)))) /\
  ((forall e, received = Raise e ->
              ChesspyWindows.board g' = ChesspyWindows.board g /\
              ChesspyWindows.push_log g' = ChesspyWindows.push_log g /\
              go_on = ChesspyWindows.Return false) /\
   (forall raw e, received = Ok raw -> utf8_decode raw = Raise e ->
                  ChesspyWindows.board g' = ChesspyWindows.board g /\
                  ChesspyWindows.push_log g' = ChesspyWindows.push_log g /\
                  go_on = ChesspyWindows.Return false)).
Proof.
  intros g' go_on. subst g' go_on. rewrite receive_step_eq. cbv zeta.
  split; [|split; [|split]].
  - destruct received as [raw|e]; [|simpl; congruence].
    destruct (utf8_decode raw) as [data|e] eqn:Hd; [|simpl; congruence].
    destruct (py_startswith _ data) eqn:Hp; [|simpl; congruence].
    intros _. exists raw, data. auto.
  - intros raw data -> Hd. rewrite Hd. split.
    + intros ->. auto.
    + intros ->. split; [|intros text Htext; split; [|split]].
      * intros ->. simpl. auto.
      * apply split_on_second. exact Htext.
      * intros b' Hb. rewrite Htext, Hb. simpl. auto.
      * intros e He. rewrite Htext, He. simpl. auto.
  - intros e ->. simpl. auto.
  - intros raw e -> He. rewrite He. simpl. auto.
Qed.

(** C6: what the desktop program sends to the game server, from start to
    end, are messages of the documented forms only.  [login_screen] sends
    ["LOGIN|Buldozer|123"]; a click that completes a legal move of the
    player to move sends ["MOVE|opponent|uci"] for that move; the loop of an
    online game whose board is finished sends
    ["GAME_OVER|user|opponent|result"] and ends; the first button of
    [choose_opponent] sends ["START_MATCH"] before anything else.  Without a
    socket nothing is sent. *)
Theorem client_messages_documented :
  (forall frames : list (list ChesspyWindows.MenuEvent),
      Forall documented
             (messages (ChesspyWindows.out
                          (fst (ChesspyWindows.main frames ChesspyWindows.init))))) /\
  (forall net g sock,
      ChesspyWindows.client_socket g = Some sock ->
      messages (ChesspyWindows.out (fst (ChesspyWindows.login_screen net g)))
      = messages (ChesspyWindows.out g) ++ [u "LOGIN|Buldozer|123"]) /\
  (forall is_white opponent net x y g from_sq sq sock,
      turn (ChesspyWindows.board g) = is_white ->
      ChesspyWindows.clicked_square x y = Some sq ->
      ChesspyWindows.selected_square g = Some from_sq ->
      In (Move_new from_sq sq) (legal_moves (ChesspyWindows.board g)) ->
      ChesspyWindows.client_socket g = Some sock ->
      ChesspyWindows.board
        (fst (ChesspyWindows.online_click is_white opponent net x y g))
      = push (ChesspyWindows.board g) (Move_new from_sq sq)
      /\ messages (ChesspyWindows.out
                     (fst (ChesspyWindows.online_click is_white opponent net x y g)))
         = messages (ChesspyWindows.out g)
             ++ [u "MOVE|" ++ opponent ++ u "|" ++ uci (Move_new from_sq sq)]) /\
  (forall is_white opponent receiving evs net rest g sock,
      is_game_over (ChesspyWindows.board g) = true ->
      ChesspyWindows.client_socket g = Some sock ->
      snd (ChesspyWindows.online_loop is_white opponent receiving
             (ChesspyWindows.MainFrame evs net :: rest) g)
      = ChesspyWindows.Return GameOver
      /\ messages (ChesspyWindows.out
                     (fst (ChesspyWindows.online_loop is_white opponent receiving
                             (ChesspyWindows.MainFrame evs net :: rest) g)))
         = messages (ChesspyWindows.out g)
             ++ [u "GAME_OVER|" ++ ChesspyWindows.username g ++ u "|" ++ opponent
                   ++ u "|" ++ board_result (ChesspyWindows.board g)]) /\
  (forall x y net online ai g sock,
      250 <= x <= 550 -> 120 <= y <= 160 ->
      ChesspyWindows.client_socket g = Some sock ->
      exists later,
        messages (ChesspyWindows.out
                    (fst (ChesspyWindows.choose_click x y net online ai g)))
        = messages (ChesspyWindows.out g) ++ u "START_MATCH" :: later) /\
  (forall data net g,
      ChesspyWindows.client_socket g = None ->
      messages (ChesspyWindows.out (fst (ChesspyWindows.send_to_server data net g)))
      = messages (ChesspyWindows.out g)).
Proof.
  split; [|split; [|split; [|split; [|split]]]].
  - intros frames. apply messages_documented.
    apply (main_sends frames ChesspyWindows.init). constructor.
  - apply login_screen_messages.
  - apply online_click_legal.
  - apply online_loop_game_over.
  - apply choose_click_start_match.
  - apply send_to_server_unconnected.
Qed.

(** C7: [get_lichess_puzzle] never raises.  When the request returns with
    status 200 and a body that parses, it returns the parsed document; with
    any other status, or when the request or the parsing raises, it returns
    [None].  So, for a document that is not [None], it is returned exactly
    when the status is 200.  [draw_puzzle(None)] prints one line and
    returns: nothing else of the program's state changes and nothing is
    drawn. *)
Theorem puzzle_fetch_and_missing_puzzle (http : result Response)
    (g : ChesspyWindows.Gui) :
  (exists value, snd (ChesspyWindows.get_lichess_puzzle http g)
                 = ChesspyWindows.Return value) /\
  (forall response doc,
      http = Ok response -> response_json response = Ok doc ->
      (status_code response = 200 ->
       ChesspyWindows.get_lichess_puzzle http g = (g, ChesspyWindows.Return doc)) /\
      (doc <> JNull ->
       (snd (ChesspyWindows.get_lichess_puzzle http g) = ChesspyWindows.Return doc
        <-> status_code response = 200))) /\
  (forall response,
      http = Ok response -> status_code response <> 200 ->
      ChesspyWindows.get_lichess_puzzle http g = (g, ChesspyWindows.Return JNull)) /\
  (forall response e,
      http = Ok response -> response_json response = Raise e ->
      snd (ChesspyWindows.get_lichess_puzzle http g) = ChesspyWindows.Return JNull) /\
  (forall e,
      http = Raise e ->
      snd (ChesspyWindows.get_lichess_puzzle http g) = ChesspyWindows.Return JNull) /\
  (forall frames,
      ChesspyWindows.draw_puzzle JNull frames g
      = (ChesspyWindows.set_out
           (ChesspyWindows.out g
              ++ [ChesspyWindows.Print (u "Brak zadania do wyświetlenia")]) g,
         ChesspyWindows.Return GameOver)).
Proof.
  rewrite get_lichess_puzzle_eq.
  split; [|split; [|split; [|split; [|split]]]].
  - destruct http as [response|e]; [|eauto].
    destruct (status_code response =? 200); [|eauto].
    destruct (response_json response); eauto.
  - intros response doc -> Hdoc. rewrite Hdoc. split.
    + intros Hst. rewrite Hst. reflexivity.
    + intros Hnn. destruct (Z.eqb_spec (status_code response) 200) as [Hst|Hst].
      * split; auto.
      * simpl. split; [intros [= Hd]; congruence | contradiction].
  - intros response -> Hst.
    destruct (Z.eqb_spec (status_code response) 200); [contradiction|reflexivity].
  - intros response e -> He. rewrite He.
    destruct (status_code response =? 200); reflexivity.
  - intros e ->. reflexivity.
  - intros frames. reflexivity.
Qed.

End Claims.

(** ** chesspy.py: what else the application does *)

Section ChesspyMore.
Context `{ChessLib}.
Import Chesspy.

Ltac unfold_m :=
  unfold Chesspy.bind, Chesspy.ret, Chesspy.lift, Chesspy.read, Chesspy.assign,
    Chesspy.try_except in *.

(** *** No exception leaves the application *)

Lemma returns_ret {A} (a : A) : returns (ret a).
Proof. intros app. exists a. reflexivity. Qed.

Lemma returns_read {A} (f : ChessApp -> A) : returns (read f).
Proof. intros app. eexists. reflexivity. Qed.

Lemma returns_assign (f : ChessApp -> ChessApp) : returns (assign f).
Proof. intros app. exists tt. reflexivity. Qed.

Lemma returns_bind {A B} (m : M A) (k : A -> M B) :
  returns m -> (forall a, returns (k a)) -> returns (bind m k).
Proof.
  intros Hm Hk app. unfold bind.
  destruct (Hm app) as [a Ha]. destruct (m app) as [app' r]. simpl in Ha.
  subst r. apply Hk.
Qed.

Lemma returns_try_except {A} (body : M A) (handler : exn -> M A) :
  (forall e, returns (handler e)) -> returns (try_except body handler).
Proof.
  intros Hh app. unfold try_except.
  destruct (body app) as [app' [a|e]]; [exists a; reflexivity | apply Hh].
Qed.

Lemma returns_for_each {A} (l : list A) (body : A -> M unit) :
  (forall x, returns (body x)) -> returns (for_each l body).
Proof.
  intros Hb. induction l as [|x l IH]; simpl.
  - apply returns_ret.
  - apply returns_bind; auto.
Qed.

Ltac returns_steps :=
  repeat first
    [ progress cbv beta zeta
    | match goal with
      | |- returns (Chesspy.ret _) => apply returns_ret
      | |- returns (Chesspy.read _) => apply returns_read
      | |- returns (Chesspy.assign _) => apply returns_assign
      | |- returns (Chesspy.try_except _ _) =>
        apply returns_try_except; intros ?
      | |- returns (Chesspy.for_each _ _) => apply returns_for_each; intros ?
      | |- returns (Chesspy.bind _ _) => apply returns_bind; [| intros ?]
      | |- returns (match ?x with _ => _ end) => destruct x
      end ].

Lemma draw_screen_returns : returns draw_screen.
Proof. intros app. rewrite draw_screen_spec. exists tt. reflexivity. Qed.

Lemma handle_player_move_total user_input : returns (handle_player_move user_input).
Proof. unfold handle_player_move. returns_steps. Qed.

Lemma handle_engine_move_returns play : returns (handle_engine_move play).
Proof. unfold handle_engine_move. returns_steps. Qed.

Lemma do_continuous_analysis_returns analyse :
  returns (do_continuous_analysis analyse).
Proof. unfold do_continuous_analysis. returns_steps. Qed.

Lemma handle_key_returns ch : returns (handle_key ch).
Proof.
  unfold handle_key.
  repeat first
    [ apply draw_screen_returns
    | apply handle_player_move_total
    | progress returns_steps ].
Qed.

Lemma key_loop_returns ks : returns (key_loop ks).
Proof.
  induction ks as [|ch ks IH]; cbn [key_loop].
  - apply returns_ret.
  - apply returns_bind; [apply handle_key_returns|].
    intros [|]; [apply returns_ret | exact IH].
Qed.

Lemma game_loop_returns rounds : returns (game_loop rounds).
Proof.
  induction rounds as [|r rounds IH]; cbn [game_loop];
    repeat first
      [ exact IH
      | apply draw_screen_returns
      | apply handle_engine_move_returns
      | apply do_continuous_analysis_returns
      | apply key_loop_returns
      | progress returns_steps ].
Qed.

(** X1: whatever the engine, the tablebase and the keyboard do, no exception
    leaves [run]: starting the engine, asking it for moves and analyses,
    handling the keys, and closing the engine all end normally. *)
Theorem run_never_raises (popen quit : result unit) (rounds : list Round)
    (app : ChessApp) :
  exists e, snd (run popen rounds quit app) = Ok e.
Proof.
  revert app. change (returns (run popen rounds quit)).
  unfold run, main_loop, init_engine, close_engine, addstr.
  repeat first
    [ apply draw_screen_returns
    | apply game_loop_returns
    | progress returns_steps ].
Qed.

(** *** The keyboard *)

Ltac cbn_app :=
  cbn [fst snd Chesspy.stdscr Chesspy.board Chesspy.engine Chesspy.tb_path
       Chesspy.human_color Chesspy.move_count Chesspy.last_move_white
       Chesspy.last_move_black Chesspy.input_line Chesspy.best_eval_str
       Chesspy.analysis_variants Chesspy.status_msg Chesspy.tb_log
       Chesspy.push_log Chesspy.set_stdscr Chesspy.set_board
       Chesspy.set_engine Chesspy.set_tb_path Chesspy.set_human_color
       Chesspy.set_move_count Chesspy.set_last_move_white
       Chesspy.set_last_move_black Chesspy.set_input_line
       Chesspy.set_best_eval_str Chesspy.set_analysis_variants
       Chesspy.set_status_msg Chesspy.set_tb_log Chesspy.set_push_log] in *.

Lemma same_play_refl a : same_play a a.
Proof. repeat split. Qed.

Lemma same_play_trans a b c : same_play a b -> same_play b c -> same_play a c.
Proof.
  unfold same_play. intros Hab Hbc.
  repeat match goal with H : _ /\ _ |- _ => destruct H end.
  repeat split; congruence.
Qed.

Lemma redraw_set_stdscr s (a : ChessApp) : redraw (set_stdscr s a) = redraw a.
Proof. reflexivity. Qed.

Lemma draw_screen_redraw (a : ChessApp) : draw_screen a = (redraw a, Ok tt).
Proof. apply draw_screen_spec. Qed.

Lemma set_input_line_same (a : ChessApp) : set_input_line (input_line a) a = a.
Proof. destruct a; reflexivity. Qed.

Lemma is_enter_cases ch :
  is_enter ch = true -> ch = KEY_ENTER \/ ch = 10 \/ ch = 13.
Proof. unfold is_enter, KEY_ENTER. lia. Qed.

Lemma handle_key_none (app : ChessApp) : handle_key (-1) app = (app, Ok false).
Proof. reflexivity. Qed.

Lemma handle_key_edit (ch : Z) (app : ChessApp) :
  is_enter ch = false -> ch <> -1 ->
  handle_key ch app
  = (redraw (set_input_line (edit_line (input_line app) ch) app), Ok false).
Proof.
  intros He Hn. unfold handle_key, edit_line.
  destruct (Z.eqb_spec ch (-1)) as [->|_]; [contradiction|].
  change ((ch =? KEY_BACKSPACE) || (ch =? 127) || (ch =? 8))
    with (is_backspace ch).
  change ((ch =? KEY_ENTER) || (ch =? 10) || (ch =? 13)) with (is_enter ch).
  rewrite He.
  destruct (is_backspace ch).
  - unfold bind at 1, read at 1. cbv beta iota.
    destruct (input_line app) as [|c line] eqn:Hl.
    + unfold bind, ret. rewrite draw_screen_redraw.
      replace (set_input_line (py_drop_last []) app) with app; [reflexivity|].
      destruct app; cbn [input_line] in Hl; subst; reflexivity.
    + unfold bind, ret, assign. rewrite draw_screen_redraw. reflexivity.
  - destruct ((32 <=? ch) && (ch <? 127)).
    + unfold bind, ret, assign. rewrite draw_screen_redraw. reflexivity.
    + unfold bind, ret. rewrite draw_screen_redraw, set_input_line_same.
      reflexivity.
Qed.

Lemma handle_key_enter (ch : Z) (app : ChessApp) :
  is_enter ch = true ->
  handle_key ch app
  = if pystr_eqb (py_lower (py_strip (input_line app))) (u "exit")
    then (app, Ok true)
    else (redraw (set_input_line []
                    (fst (handle_player_move (input_line app) app))),
          Ok false).
Proof.
  intros He. unfold handle_key.
  change ((ch =? KEY_ENTER) || (ch =? 10) || (ch =? 13)) with (is_enter ch).
  rewrite He.
  assert (Hne : (ch =? -1) = false)
    by (apply is_enter_cases in He; unfold KEY_ENTER in He; lia).
  assert (Hbs : (ch =? KEY_BACKSPACE) || (ch =? 127) || (ch =? 8) = false)
    by (apply is_enter_cases in He; unfold KEY_ENTER, KEY_BACKSPACE in *; lia).
  rewrite Hne, Hbs.
  unfold bind at 1, read at 1. cbv beta iota.
  destruct (pystr_eqb (py_lower (py_strip (input_line app))) (u "exit"));
    [reflexivity|].
  unfold bind at 1.
  pose proof (handle_player_move_returns (input_line app) app) as Hr.
  destruct (handle_player_move (input_line app) app) as [app1 r].
  cbn [fst snd] in *. subst r.
  unfold bind, ret, assign. rewrite draw_screen_redraw. reflexivity.
Qed.

Lemma printable_key (c : pychar) :
  printable c ->
  is_enter (Z.of_N c) = false /\ is_backspace (Z.of_N c) = false
  /\ (32 <=? Z.of_N c) && (Z.of_N c <? 127) = true /\ Z.of_N c <> -1.
Proof.
  unfold printable, is_enter, is_backspace, KEY_ENTER, KEY_BACKSPACE. lia.
Qed.

Lemma handle_key_printable (c : pychar) (app : ChessApp) :
  printable c ->
  handle_key (Z.of_N c) app
  = (redraw (set_input_line (input_line app ++ [c]) app), Ok false).
Proof.
  intros Hc. destruct (printable_key c Hc) as (He & Hb & Hp & Hn).
  rewrite handle_key_edit by assumption.
  unfold edit_line. rewrite Hb, Hp, N2Z.id. reflexivity.
Qed.

Lemma key_loop_app (ks rest : list Z) (app : ChessApp) :
  key_loop (ks ++ rest) app
  = match key_loop ks app with
    | (app', Ok false) => key_loop rest app'
    | other => other
    end.
Proof.
  revert app. induction ks as [|ch ks IH]; intros app; [reflexivity|].
  cbn [key_loop List.app]. unfold bind.
  destruct (handle_key ch app) as [app1 [[|]|e]]; try reflexivity.
  apply IH.
Qed.

Lemma key_loop_typed (text : pystr) (app : ChessApp) :
  Forall printable text ->
  key_loop (key_codes text) app = (typed text app, Ok false).
Proof.
  intros Hp. revert app. induction Hp as [|c text Hc Hp IH]; intros app;
    [reflexivity|].
  cbn [key_codes map key_loop]. unfold bind at 1.
  rewrite (handle_key_printable c app Hc).
  fold (key_codes text). rewrite IH.
  destruct text as [|d text]; [reflexivity|].
  unfold typed. cbn [input_line set_input_line set_stdscr redraw].
  rewrite <- app_assoc. reflexivity.
Qed.

Lemma handle_player_move_frame (user_input : pystr) s line (app : ChessApp) :
  handle_player_move user_input (set_stdscr s (set_input_line line app))
  = (set_stdscr s (set_input_line line (fst (handle_player_move user_input app))),
     Ok tt).
Proof.
  set (app1 := set_stdscr s (set_input_line line app)).
  assert (Hb : board app1 = board app) by reflexivity.
  destruct (parse_move user_input (board app)) as [mv|e] eqn:Hp.
  - destruct (in_dec Move_eq_dec mv (legal_moves (board app))) as [Hl|Hl].
    + rewrite (handle_player_move_legal _ app1 mv) by (rewrite Hb; assumption).
      rewrite (handle_player_move_legal _ app mv) by assumption.
      rewrite Hb. destruct (san (board app) mv) as [move_san|e]; [|reflexivity].
      rewrite !synergy_check_spec.
      unfold tablebase_applies, after_push, probed, app1.
      cbn_app.
      destruct (Bool.eqb (turn (push (board app) mv)) WHITE); cbn_app;
        destruct (path_bool (tb_path app)
                  && (Z.of_nat (length (piece_map (push (board app) mv))) <=? 7));
        reflexivity.
    + rewrite (handle_player_move_illegal _ app1 mv) by (rewrite Hb; assumption).
      rewrite (handle_player_move_illegal _ app mv) by assumption.
      reflexivity.
  - rewrite (handle_player_move_raise _ app1 e) by (rewrite Hb; assumption).
    rewrite (handle_player_move_raise _ app e) by assumption.
    reflexivity.
Qed.

Lemma printable_text (text : pystr) :
  forallb (fun c => (32 <=? c) && (c <? 127))%N text = true ->
  Forall printable text.
Proof.
  intros Hall. apply List.Forall_forall. intros c Hc.
  rewrite forallb_forall in Hall. specialize (Hall c Hc).
  apply andb_true_iff in Hall. destruct Hall as [Hlo Hhi].
  apply N.leb_le in Hlo. apply N.ltb_lt in Hhi.
  unfold printable. split; assumption.
Qed.


(** X2: a key other than Enter never touches the game: after any run of
    such keys the loop goes on, the board, the engine, the counters, the
    last moves, the evaluation, the status line and the logs are what they
    were, and the input line is the one a line editor gives (backspace drops
    the last character, a printable character is added, other keys are
    dropped). *)
Theorem keys_other_than_enter_edit_the_line (ks : list Z) (app : ChessApp) :
  Forall (fun ch => is_enter ch = false) ks ->
  let app' := fst (key_loop ks app) in
  snd (key_loop ks app) = Ok false
  /\ same_play app app'
  /\ input_line app' = fold_left edit_line ks (input_line app).
Proof.
  intros Hks. revert app.
  induction Hks as [|ch ks Hch Hks IH]; intros app.
  - cbn. split; [reflexivity|]. split; [apply same_play_refl | reflexivity].
  - cbv zeta. cbn [key_loop fold_left]. unfold bind.
    destruct (Z.eq_dec ch (-1)) as [->|Hn].
    + rewrite handle_key_none. apply IH.
    + rewrite (handle_key_edit ch app Hch Hn).
      set (app1 := redraw (set_input_line (edit_line (input_line app) ch) app)).
      destruct (IH app1) as (Hr & Hs & Hl). cbv zeta.
      split; [exact Hr|]. split; [|exact Hl].
      apply (same_play_trans app app1); [repeat split | exact Hs].
Qed.

(** X3: typing a text of printable characters and then Enter hands the whole
    line, what was there followed by the text, to [handle_player_move],
    empties the line and redraws the screen; when the line, stripped and in
    lower case, is [exit], nothing is played and the loop is left. *)
Theorem typed_line_is_submitted (text : pystr) (enter : Z) (app : ChessApp) :
  Forall printable text -> is_enter enter = true ->
  let line := input_line app ++ text in
  key_loop (key_codes text ++ [enter]) app
  = if pystr_eqb (py_lower (py_strip line)) (u "exit")
    then (typed text app, Ok true)
    else (redraw (set_input_line [] (fst (handle_player_move line app))),
          Ok false).
Proof.
  intros Hp He line.
  rewrite key_loop_app, (key_loop_typed text app Hp).
  cbn [key_loop]. unfold bind at 1.
  rewrite (handle_key_enter enter _ He).
  assert (Hl : input_line (typed text app) = line).
  { unfold typed, line. destruct text; [symmetry; apply app_nil_r | reflexivity]. }
  rewrite Hl.
  destruct (pystr_eqb (py_lower (py_strip line)) (u "exit")); [reflexivity|].
  unfold ret. f_equal.
  unfold typed. destruct text as [|c text].
  - reflexivity.
  - unfold redraw at 2. rewrite handle_player_move_frame. reflexivity.
Qed.

(** X4: a backspace undoes the printable character typed before it: the two
    keys together leave the application as one redraw does. *)
Theorem backspace_undoes_a_key (c : pychar) (bs : Z) (app : ChessApp) :
  printable c -> is_backspace bs = true ->
  key_loop [Z.of_N c; bs] app = (redraw app, Ok false).
Proof.
  intros Hc Hb.
  cbn [key_loop]. unfold bind at 1.
  rewrite (handle_key_printable c app Hc).
  unfold bind at 1.
  assert (He : is_enter bs = false)
    by (unfold is_enter, is_backspace, KEY_ENTER, KEY_BACKSPACE in *; lia).
  assert (Hn : bs <> -1)
    by (unfold is_backspace, KEY_BACKSPACE in *; lia).
  rewrite (handle_key_edit bs _ He Hn).
  unfold ret, edit_line. rewrite Hb.
  cbn [input_line set_input_line set_stdscr redraw].
  unfold py_drop_last. rewrite removelast_last.
  reflexivity.
Qed.

(** *** Leaving with [exit], and what the input line holds *)

Lemma bind_ok {A B} (m : M A) (k : A -> M B) (app app1 : ChessApp) (a : A) :
  m app = (app1, Ok a) -> bind m k app = k a app1.
Proof. intros Hm. unfold bind. rewrite Hm. reflexivity. Qed.

Lemma same_line_refl a : same_line a a.
Proof. reflexivity. Qed.

Lemma same_line_trans a b c : same_line a b -> same_line b c -> same_line a c.
Proof. unfold same_line. congruence. Qed.

Ltac keeps_with refl trans leaf :=
  repeat first
    [ progress cbv beta zeta
    | match goal with
      | |- keeps _ (Chesspy.ret _) => apply keeps_ret; apply refl
      | |- keeps _ (Chesspy.lift _) => apply keeps_lift; apply refl
      | |- keeps _ (Chesspy.read _) => apply keeps_read; apply refl
      | |- keeps _ (Chesspy.assign _) => apply keeps_assign; intros ?; leaf
      | |- keeps _ (Chesspy.for_each _ _) =>
        apply keeps_for_each; [apply refl | apply trans | intros ?]
      | |- keeps _ (Chesspy.try_except _ _) =>
        apply keeps_try_except; [apply trans | | intros ?]
      | |- keeps _ (Chesspy.bind _ _) =>
        apply keeps_bind; [apply trans | | intros ?]
      | |- keeps _ (match ?x with _ => _ end) => destruct x
      end ].

Ltac keeps_line :=
  keeps_with same_line_refl same_line_trans ltac:(reflexivity).

Lemma draw_screen_line : keeps same_line draw_screen.
Proof. intros app. rewrite draw_screen_redraw. reflexivity. Qed.

Lemma init_engine_line popen : keeps same_line (init_engine popen).
Proof. unfold init_engine. keeps_line. Qed.

Lemma close_engine_line quit : keeps same_line (close_engine quit).
Proof. unfold close_engine. keeps_line. Qed.

Lemma synergy_check_line : keeps same_line synergy_check.
Proof. unfold synergy_check. keeps_line. Qed.

Lemma do_move_line mv : keeps same_line (do_move mv).
Proof.
  unfold do_move, USE_SYZYGY_AFTER_MOVE.
  repeat first [apply synergy_check_line | progress keeps_line].
Qed.

Lemma handle_engine_move_line play : keeps same_line (handle_engine_move play).
Proof.
  unfold handle_engine_move.
  repeat first [apply do_move_line | progress keeps_line].
Qed.

Lemma do_continuous_analysis_line analyse :
  keeps same_line (do_continuous_analysis analyse).
Proof. unfold do_continuous_analysis, analyse_one. keeps_line. Qed.

Lemma printable_line_refl a : printable_line a a.
Proof. intros Ha; exact Ha. Qed.

Lemma printable_line_trans a b c :
  printable_line a b -> printable_line b c -> printable_line a c.
Proof. unfold printable_line. auto. Qed.

Lemma same_line_printable {A} (m : M A) :
  keeps same_line m -> keeps printable_line m.
Proof. intros Hm app Hp. rewrite (Hm app). exact Hp. Qed.

Lemma edit_line_printable (line : pystr) (ch : Z) :
  Forall printable line -> Forall printable (edit_line line ch).
Proof.
  intros Hl. unfold edit_line.
  destruct (is_backspace ch).
  - unfold py_drop_last.
    apply List.Forall_forall. intros c Hc.
    assert (Hin : In c line).
    { clear Hl. revert Hc. induction line as [|d line IH]; [intros []|].
      destruct line as [|d' line]; [intros []|].
      cbn [removelast]. intros [->|Hc]; [left; reflexivity | right; auto]. }
    rewrite List.Forall_forall in Hl. auto.
  - destruct ((32 <=? ch) && (ch <? 127)) eqn:Hp; [|exact Hl].
    apply Forall_app. split; [exact Hl|].
    constructor; [|constructor]. unfold printable. lia.
Qed.

Lemma handle_key_printable_line ch : keeps printable_line (handle_key ch).
Proof.
  intros app Hp.
  destruct (is_enter ch) eqn:He.
  - rewrite (handle_key_enter ch app He).
    destruct (pystr_eqb _ _); [exact Hp | constructor].
  - destruct (Z.eq_dec ch (-1)) as [->|Hn]; [exact Hp|].
    rewrite (handle_key_edit ch app He Hn).
    apply edit_line_printable, Hp.
Qed.

Lemma key_loop_printable_line ks : keeps printable_line (key_loop ks).
Proof.
  induction ks as [|ch ks IH]; cbn [key_loop].
  - apply keeps_ret, printable_line_refl.
  - apply keeps_bind; [apply printable_line_trans
                      | apply handle_key_printable_line |].
    intros [|]; [apply keeps_ret, printable_line_refl | exact IH].
Qed.

Ltac keeps_printable :=
  repeat first
    [ apply key_loop_printable_line
    | apply same_line_printable, draw_screen_line
    | apply same_line_printable, handle_engine_move_line
    | apply same_line_printable, do_continuous_analysis_line
    | apply same_line_printable, init_engine_line
    | apply same_line_printable, close_engine_line
    | progress keeps_with printable_line_refl printable_line_trans
                          ltac:(intros Hp; exact Hp) ].

Lemma game_loop_printable_line rounds : keeps printable_line (game_loop rounds).
Proof.
  induction rounds as [|r rounds IH]; cbn [game_loop];
    repeat first [exact IH | progress keeps_printable].
Qed.

(** X5: the input line only ever holds printable ASCII characters (code
    points 32 to 126): whatever keys arrive, and whatever the engine and
    the rules library do, [run] leaves such a line when it starts with
    one. *)
Theorem input_line_stays_printable (popen quit : result unit)
    (rounds : list Round) (app : ChessApp) :
  Forall printable (input_line app) ->
  Forall printable (input_line (fst (run popen rounds quit app))).
Proof.
  revert app. change (keeps printable_line (run popen rounds quit)).
  unfold run, main_loop, addstr.
  repeat first [apply game_loop_printable_line | progress keeps_printable].
Qed.

Lemma key_loop_exit (text : pystr) (enter : Z) (more : list Z) (a : ChessApp) :
  Forall printable text -> is_enter enter = true ->
  pystr_eqb (py_lower (py_strip (input_line a ++ text))) (u "exit") = true ->
  key_loop (key_codes text ++ enter :: more) a = (typed text a, Ok true).
Proof.
  intros Hp He Hx.
  rewrite key_loop_app, (key_loop_typed text a Hp).
  cbn [key_loop]. unfold bind at 1.
  rewrite (handle_key_enter enter _ He).
  assert (Hl : input_line (typed text a) = input_line a ++ text).
  { unfold typed. destruct text; [symmetry; apply app_nil_r | reflexivity]. }
  rewrite Hl, Hx. reflexivity.
Qed.

Lemma typed_same_play text (a : ChessApp) : same_play a (typed text a).
Proof. destruct text; repeat split. Qed.

Lemma handle_engine_move_ok play (a : ChessApp) :
  handle_engine_move play a = (fst (handle_engine_move play a), Ok tt).
Proof.
  destruct (handle_engine_move_returns play a) as [[] Hr].
  destruct (handle_engine_move play a) as [a' r]. cbn [fst snd] in *.
  subst r. reflexivity.
Qed.

Lemma close_engine_closes quit (a : ChessApp) :
  exists a', close_engine quit a = (a', Ok tt) /\ engine a' = None
             /\ board a' = board a /\ push_log a' = push_log a.
Proof.
  unfold close_engine. unfold_m.
  destruct (engine a) as [eng|] eqn:He.
  - destruct quit; eexists; (split; [reflexivity|]); repeat split.
  - exists a. repeat split. exact He.
Qed.

Lemma init_engine_ok popen (a : ChessApp) :
  exists a', init_engine popen a = (a', Ok tt) /\ board a' = board a
             /\ push_log a' = push_log a /\ input_line a' = input_line a
             /\ human_color a' = human_color a.
Proof.
  unfold init_engine. unfold_m.
  destruct popen; eexists; (split; [reflexivity|]); repeat split.
Qed.

Lemma game_loop_exit (r : Round) (rest : list Round) (text : pystr)
    (enter : Z) (more : list Z) (a : ChessApp) :
  is_game_over (board a) = false ->
  Forall printable text -> is_enter enter = true ->
  pystr_eqb (py_lower (py_strip (input_line a ++ text))) (u "exit") = true ->
  keys r = key_codes text ++ enter :: more ->
  exists a2,
    game_loop (r :: rest) a = (typed text a2, Ok UserExit)
    /\ input_line a2 = input_line a
    /\ (turn (board a) = human_color a ->
        board a2 = board a /\ push_log a2 = push_log a).
Proof.
  intros Hgo Hp He Hx Hk.
  cbn [game_loop].
  unfold bind at 1, read at 1. cbv beta iota. rewrite Hgo.
  unfold bind at 1, read at 1. cbv beta iota.
  match goal with
  | |- exists a2, bind ?m _ _ = _ /\ _ =>
    assert (Hm : exists a2, m a = (a2, Ok tt)
                            /\ input_line a2 = input_line a
                            /\ (turn (board a) = human_color a ->
                                board a2 = board a
                                /\ push_log a2 = push_log a))
  end.
  { destruct (Bool.eqb (turn (board a)) (human_color a)) eqn:Ht; cbn [negb].
    - exists a. repeat split.
    - rewrite (bind_ok _ _ _ _ _ (handle_engine_move_ok _ _)).
      rewrite draw_screen_redraw. eexists. split; [reflexivity|]. split.
      + change (input_line (redraw ?x)) with (input_line x).
        apply (handle_engine_move_line _ a).
      + intros Heq. rewrite Heq, Bool.eqb_reflx in Ht. discriminate. }
  destruct Hm as (a2 & E2 & Hi2 & Hsame).
  exists a2. split; [|split; assumption].
  rewrite (bind_ok _ _ _ _ _ E2), Hk.
  rewrite (bind_ok _ _ _ _ _ (key_loop_exit text enter more a2 Hp He
                                 ltac:(rewrite Hi2; exact Hx))).
  reflexivity.
Qed.

(** X6: typing [exit] (in any case, with spaces around it) and Enter while
    the game is not over ends [run] in that very round: the engine is
    closed, the screen holds the two closing lines with the result of the
    board, and neither the keys after Enter nor the later rounds are read.
    If it was the human's turn, no move has been made. *)
Theorem exit_ends_run (popen quit : result unit) (r : Round)
    (rest : list Round) (text : pystr) (enter : Z) (more : list Z)
    (app : ChessApp) :
  is_game_over (board app) = false ->
  Forall printable text -> is_enter enter = true ->
  pystr_eqb (py_lower (py_strip (input_line app ++ text))) (u "exit") = true ->
  keys r = key_codes text ++ enter :: more ->
  let app' := fst (run popen (r :: rest) quit app) in
  snd (run popen (r :: rest) quit app) = Ok UserExit
  /\ engine app' = None
  /\ stdscr app'
     = [(0, 0, u "Koniec gry. Wynik: " ++ board_result (board app'));
        (1, 0, u "Naciśnij dowolny klawisz, aby wyjść.")]
  /\ (turn (board app) = human_color app ->
      board app' = board app /\ push_log app' = push_log app).
Proof.
  intros Hgo Hp He Hx Hk app'. subst app'.
  unfold run.
  destruct (init_engine_ok popen app) as (a1 & E1 & Hb1 & Hl1 & Hi1 & Hc1).
  rewrite (bind_ok _ _ _ _ _ E1).
  rewrite (bind_ok _ _ _ _ _ (draw_screen_redraw a1)).
  destruct (game_loop_exit r rest text enter more (redraw (redraw a1)))
    as (a2 & E2 & Hi2 & Hsame); try assumption.
  { change (board (redraw (redraw a1))) with (board a1). congruence. }
  { change (input_line (redraw (redraw a1))) with (input_line a1).
    rewrite Hi1. exact Hx. }
  assert (Em : main_loop (r :: rest) (redraw a1) = (typed text a2, Ok UserExit)).
  { unfold main_loop.
    rewrite (bind_ok _ _ _ _ _ (draw_screen_redraw _)). exact E2. }
  rewrite (bind_ok _ _ _ _ _ Em).
  destruct (close_engine_closes quit (typed text a2)) as (a3 & E3 & He3 & Hb3 & Hl3).
  rewrite (bind_ok _ _ _ _ _ E3).
  unfold addstr. unfold bind, assign, read, ret. cbn_app.
  split; [reflexivity|]. split; [exact He3|]. split; [reflexivity|].
  intros Ht.
  change (board (redraw (redraw a1))) with (board a1) in Hsame.
  change (human_color (redraw (redraw a1))) with (human_color a1) in Hsame.
  change (push_log (redraw (redraw a1))) with (push_log a1) in Hsame.
  rewrite Hb1, Hc1, Hl1 in Hsame. destruct (Hsame Ht) as [Hb2 Hl2].
  pose proof (typed_same_play text a2) as Hty. unfold same_play in Hty.
  repeat match goal with Hc : _ /\ _ |- _ => destruct Hc end.
  split; congruence.
Qed.

(** *** The text of the board *)

Lemma split_on_go_no_sep (sep : pychar) (s : pystr) :
  ~ In sep s -> split_on_go sep s = (s, []).
Proof.
  induction s as [|c s IH]; intros Hs; [reflexivity|].
  cbn [split_on_go]. rewrite IH by (intros Hin; apply Hs; right; exact Hin).
  destruct (N.eqb_spec c sep) as [->|_]; [|reflexivity].
  exfalso. apply Hs. left. reflexivity.
Qed.

Lemma split_on_go_sep (sep : pychar) (s rest : pystr) :
  ~ In sep s ->
  split_on_go sep (s ++ sep :: rest) = (s, py_split_on sep rest).
Proof.
  induction s as [|c s IH]; intros Hs.
  - cbn [List.app split_on_go]. unfold py_split_on.
    destruct (split_on_go sep rest) as [w ws]. rewrite N.eqb_refl. reflexivity.
  - cbn [List.app split_on_go].
    rewrite IH by (intros Hin; apply Hs; right; exact Hin).
    destruct (N.eqb_spec c sep) as [->|_]; [|reflexivity].
    exfalso. apply Hs. left. reflexivity.
Qed.

Lemma split_join (sep : pychar) (rows : list pystr) :
  rows <> [] -> Forall (fun row => ~ In sep row) rows ->
  py_split_on sep (py_join [sep] rows) = rows.
Proof.
  intros Hne Hrows. induction Hrows as [|row rows Hrow Hrows IH];
    [contradiction|].
  destruct rows as [|row2 rows].
  - cbn [py_join]. unfold py_split_on.
    rewrite split_on_go_no_sep by exact Hrow. reflexivity.
  - change (py_join [sep] (row :: row2 :: rows))
      with (row ++ sep :: py_join [sep] (row2 :: rows)).
    unfold py_split_on at 1. rewrite split_on_go_sep by exact Hrow.
    rewrite IH by discriminate. reflexivity.
Qed.

Lemma piece_to_unicode_char (p : Piece) :
  exists c, piece_to_unicode p = [c] /\ py_isspace c = false
            /\ c <> 10%N /\ c <> 46%N.
Proof.
  unfold piece_to_unicode.
  destruct (UNICODE_PIECES !! (piece_type p, color p)) as [s|] eqn:Hs.
  - change (exists c, s = [c] /\ py_isspace c = false
                      /\ c <> 10%N /\ c <> 46%N).
    apply elem_of_list_to_map_2 in Hs.
    repeat (apply elem_of_cons in Hs;
            destruct Hs as [Hs|Hs];
            [injection Hs as _ _ ->;
             match goal with
             | |- exists c, u ?str = [c] /\ _ =>
               let v := eval vm_compute in (u str) in change (u str) with v
             end;
             eexists; split; [reflexivity|];
             split; [reflexivity|]; split; discriminate|]).
    apply elem_of_nil in Hs. contradiction.
  - exists 63%N. split; [reflexivity|]. split; [reflexivity|].
    split; discriminate.
Qed.

Lemma glyph_cell (b : Board) (file rank : Z) :
  match piece_at b (square file rank) with
  | Some piece => piece_to_unicode piece ++ u " "
  | None => u ". "
  end = [glyph b file rank; 32%N]
  /\ py_isspace (glyph b file rank) = false
  /\ glyph b file rank <> 10%N.
Proof.
  unfold glyph. destruct (piece_at b (square file rank)) as [p|].
  - destruct (piece_to_unicode_char p) as (c & -> & Hs & Hn & _).
    repeat split; assumption.
  - repeat split. discriminate.
Qed.

Lemma fold_cells (b : Board) (rank : Z) (files : list Z) (acc : pystr) :
  fold_left
    (fun row_str file =>
       match piece_at b (square file rank) with
       | Some piece => row_str ++ piece_to_unicode piece ++ u " "
       | None => row_str ++ u ". "
       end) files acc
  = acc ++ flat_map (fun file => [glyph b file rank; 32%N]) files.
Proof.
  revert acc. induction files as [|file files IH]; intros acc;
    cbn [fold_left flat_map].
  - symmetry. apply app_nil_r.
  - rewrite IH. destruct (glyph_cell b file rank) as (E & _).
    rewrite <- E.
    destruct (piece_at b (square file rank)); rewrite <- !app_assoc;
      reflexivity.
Qed.

Lemma board_row_glyphs (b : Board) (rank : Z) :
  board_row b rank
  = [glyph b 0 rank; 32; glyph b 1 rank; 32; glyph b 2 rank; 32;
     glyph b 3 rank; 32; glyph b 4 rank; 32; glyph b 5 rank; 32;
     glyph b 6 rank; 32; glyph b 7 rank]%N.
Proof.
  unfold board_row. rewrite fold_cells.
  change (py_range 8) with [0; 1; 2; 3; 4; 5; 6; 7].
  cbn [flat_map List.app]. unfold py_rstrip. cbn [rev List.app py_lstrip].
  change (py_isspace 32%N) with true. cbv iota.
  destruct (glyph_cell b 7 rank) as (_ & H7 & _). rewrite H7. reflexivity.
Qed.

Lemma board_row_no_newline (b : Board) (rank : Z) :
  ~ In 10%N (board_row b rank).
Proof.
  rewrite board_row_glyphs. cbn [In].
  pose proof (fun file => proj2 (proj2 (glyph_cell b file rank))) as Hg.
  intros Hin.
  repeat (destruct Hin as [Hin|Hin];
          [first [discriminate Hin | exact (Hg _ Hin)]|]).
  exact Hin.
Qed.

Lemma board_lines (b : Board) :
  py_split_on 10%N (board_to_unicode_str b)
  = map (board_row b) [7; 6; 5; 4; 3; 2; 1; 0].
Proof.
  unfold board_to_unicode_str.
  change (rev (py_range 8)) with [7; 6; 5; 4; 3; 2; 1; 0].
  change (u (String "010" EmptyString)) with [10%N].
  apply split_join; [discriminate|].
  apply List.Forall_forall. intros row Hrow.
  apply in_map_iff in Hrow. destruct Hrow as (rank & <- & _).
  apply board_row_no_newline.
Qed.

(** X7: [draw_screen] writes the board as eight lines of fifteen characters
    at column 0: the line of rank [rank] (0 for the first rank) is on screen
    row [9 - rank], so the eighth rank is on row 2 and the first on row 9,
    and in it the square of file [file] is the character at index
    [2 * file], the piece's symbol or a dot, with one space between two
    squares and none at the end. *)
Theorem draw_screen_board_rows (a : ChessApp) (rank : Z) :
  0 <= rank < 8 ->
  exists ln,
    In (9 - rank, 0, ln) (stdscr (fst (draw_screen a)))
    /\ length ln = 15%nat
    /\ (forall file, 0 <= file < 8 ->
        nth_error ln (Z.to_nat (2 * file)) = Some (glyph (board a) file rank))
    /\ (forall file, 0 <= file < 7 ->
        nth_error ln (Z.to_nat (2 * file + 1)) = Some 32%N).
Proof.
  intros Hr. exists (board_row (board a) rank).
  split; [|rewrite board_row_glyphs; split; [reflexivity|split]].
  - rewrite draw_screen_spec. cbn [fst stdscr set_stdscr].
    replace (9 - rank) with (2 + Z.of_nat (Z.to_nat (7 - rank))) by lia.
    apply screen_shows_board. rewrite board_lines.
    assert (Hc : rank = 0 \/ rank = 1 \/ rank = 2 \/ rank = 3 \/ rank = 4
                 \/ rank = 5 \/ rank = 6 \/ rank = 7) by lia.
    repeat (destruct Hc as [->|Hc]; [reflexivity|]). subst rank. reflexivity.
  - intros file Hf.
    assert (Hc : file = 0 \/ file = 1 \/ file = 2 \/ file = 3 \/ file = 4
                 \/ file = 5 \/ file = 6 \/ file = 7) by lia.
    repeat (destruct Hc as [->|Hc]; [reflexivity|]). subst file. reflexivity.
  - intros file Hf.
    assert (Hc : file = 0 \/ file = 1 \/ file = 2 \/ file = 3 \/ file = 4
                 \/ file = 5 \/ file = 6) by lia.
    repeat (destruct Hc as [->|Hc]; [reflexivity|]). subst file. reflexivity.
Qed.

Lemma piece_to_unicode_inj (p q : Piece) :
  chess_piece p -> chess_piece q ->
  piece_to_unicode p = piece_to_unicode q -> p = q.
Proof.
  unfold chess_piece. destruct p as [t c], q as [t' c']. cbn [piece_type].
  intros Ht Ht'.
  assert (Hc : t = 1 \/ t = 2 \/ t = 3 \/ t = 4 \/ t = 5 \/ t = 6) by lia.
  assert (Hc' : t' = 1 \/ t' = 2 \/ t' = 3 \/ t' = 4 \/ t' = 5 \/ t' = 6) by lia.
  clear Ht Ht'.
  repeat (destruct Hc as [->|Hc]); subst;
    repeat (destruct Hc' as [->|Hc']); subst;
    destruct c, c'; vm_compute; intros Heq;
    first [reflexivity | discriminate Heq].
Qed.

Lemma glyph_inj (b1 b2 : Board) (file rank : Z) :
  (forall p, piece_at b1 (square file rank) = Some p -> chess_piece p) ->
  (forall p, piece_at b2 (square file rank) = Some p -> chess_piece p) ->
  glyph b1 file rank = glyph b2 file rank ->
  piece_at b1 (square file rank) = piece_at b2 (square file rank).
Proof.
  unfold glyph. intros H1 H2.
  destruct (piece_at b1 (square file rank)) as [p|],
           (piece_at b2 (square file rank)) as [q|]; intros Hg.
  - f_equal. apply piece_to_unicode_inj; [apply H1 | apply H2 |]; try reflexivity.
    destruct (piece_to_unicode_char p) as (c & Ep & _).
    destruct (piece_to_unicode_char q) as (d & Eq & _).
    rewrite Ep, Eq in *. cbn [hd] in Hg. congruence.
  - destruct (piece_to_unicode_char p) as (c & Ep & _ & _ & Hd).
    rewrite Ep in Hg. cbn [hd] in Hg. contradiction.
  - destruct (piece_to_unicode_char q) as (c & Eq & _ & _ & Hd).
    rewrite Eq in Hg. cbn [hd] in Hg. symmetry in Hg. contradiction.
  - reflexivity.
Qed.

(** X8: the text of the board tells the position: two boards that hold only
    pieces of the six kinds and give the same text have the same piece, or
    none, on each of the 64 squares. *)
Theorem board_text_determines_pieces (b1 b2 : Board) (file rank : Z) :
  chess_pieces b1 -> chess_pieces b2 ->
  board_to_unicode_str b1 = board_to_unicode_str b2 ->
  0 <= file < 8 -> 0 <= rank < 8 ->
  piece_at b1 (square file rank) = piece_at b2 (square file rank).
Proof.
  intros H1 H2 Heq Hf Hr.
  apply glyph_inj; [intros p; apply H1; assumption
                   | intros p; apply H2; assumption |].
  pose proof (board_lines b1) as L1. rewrite Heq, board_lines in L1.
  assert (Hrow : board_row b1 rank = board_row b2 rank).
  { cbn [map] in L1.
    assert (Hc : rank = 0 \/ rank = 1 \/ rank = 2 \/ rank = 3 \/ rank = 4
                 \/ rank = 5 \/ rank = 6 \/ rank = 7) by lia.
    repeat (destruct Hc as [->|Hc]; [congruence|]). subst rank. congruence. }
  rewrite !board_row_glyphs in Hrow.
  assert (Hc : file = 0 \/ file = 1 \/ file = 2 \/ file = 3 \/ file = 4
               \/ file = 5 \/ file = 6 \/ file = 7) by lia.
  repeat (destruct Hc as [->|Hc]; [congruence|]). subst file. congruence.
Qed.

(** *** The analysis *)

Lemma score_check_all :
  forallb score_check
          (map (fun n => -2000 + Z.of_nat n) (seq 0 (Z.to_nat 4001))) = true.
Proof. vm_compute. reflexivity. Qed.

Lemma score_check_range (cp : Z) :
  -2000 <= cp <= 2000 -> score_check cp = true.
Proof.
  intros Hc.
  pose proof score_check_all as Hall.
  rewrite forallb_forall in Hall. apply Hall.
  apply in_map_iff. exists (Z.to_nat (cp + 2000)). split; [lia|].
  apply in_seq. lia.
Qed.

(** X9: a score of [cp] centipawns, between -2000 and 2000, is listed in
    pawns with exactly two decimal places: a [+] or [-], the whole part of
    [|cp| / 100], a dot and the two digits of [|cp| mod 100]; the division
    and the formatting of the floating-point number lose nothing.  The
    variation is added at the end of the list with the centipawns and the
    moves of its line. *)
Theorem score_text_two_places (inf : Info) (cp : Z) (app : ChessApp) :
  info_score inf = Some (Cp cp) -> -2000 <= cp <= 2000 ->
  analyse_one inf app
  = (set_analysis_variants
       (analysis_variants app
        ++ [(cp, two_places cp,
             py_prefix 60
               (py_join (u " ")
                  (pv_san (board app) (default [] (info_pv inf)))))]) app,
     Ok tt).
Proof.
  intros Hs Hc. pose proof (score_check_range cp Hc) as Hchk.
  unfold score_check in Hchk.
  unfold analyse_one. rewrite Hs.
  unfold bind at 1, lift at 1. cbv beta iota.
  unfold bind at 1, lift at 1.
  destruct (py_truediv cp 100) as [x|e]; [|discriminate].
  apply pystr_eqb_eq in Hchk. cbn [rbind].
  unfold bind, read, assign. rewrite <- Hchk. reflexivity.
Qed.

Lemma same_eval_refl a : same_eval a a.
Proof. split; reflexivity. Qed.

Lemma same_eval_trans a b c : same_eval a b -> same_eval b c -> same_eval a c.
Proof. unfold same_eval. intros [] []. split; congruence. Qed.

Lemma analyse_one_eval inf : keeps same_eval (analyse_one inf).
Proof.
  unfold analyse_one.
  keeps_with same_eval_refl same_eval_trans ltac:(split; reflexivity).
Qed.

Lemma for_each_analyse_eval infos : keeps same_eval (for_each infos analyse_one).
Proof.
  apply keeps_for_each;
    [apply same_eval_refl | apply same_eval_trans | apply analyse_one_eval].
Qed.

Lemma do_continuous_analysis_eq (analyse : Board -> result Infos)
    (eng : engine_handle) (app : ChessApp) :
  engine app = Some eng ->
  do_continuous_analysis analyse app
  = match analyse (board app) with
    | Raise e => (set_status_msg (u "Błąd analizy: " ++ exn_str e) app, Ok tt)
    | Ok infos =>
      match for_each (match infos with InfoDict i => [i] | InfoList l => l end)
                     analyse_one (set_analysis_variants [] app) with
      | (a1, Raise e) =>
        (set_status_msg (u "Błąd analizy: " ++ exn_str e) a1, Ok tt)
      | (a1, Ok _) =>
        match analysis_variants a1 with
        | [] => (set_best_eval_str (u "---") a1, Ok tt)
        | (cp_val, score_str, _) :: _ =>
          match generate_thermometer cp_val 300 15 with
          | Ok therm =>
            (set_best_eval_str (score_str ++ u " " ++ therm) a1, Ok tt)
          | Raise e =>
            (set_status_msg (u "Błąd analizy: " ++ exn_str e) a1, Ok tt)
          end
        end
      end
    end.
Proof.
  intros He. unfold do_continuous_analysis.
  unfold bind at 1, read at 1. cbv beta iota. rewrite He.
  unfold try_except.
  unfold bind at 1, read at 1. cbv beta iota.
  unfold bind at 1, lift at 1.
  destruct (analyse (board app)) as [infos|e]; [|reflexivity].
  cbv beta iota.
  unfold bind at 1, assign at 1. cbv beta iota.
  unfold bind at 1.
  destruct (for_each _ analyse_one (set_analysis_variants [] app))
    as [a1 [[]|e]]; [|reflexivity].
  unfold bind at 1, read at 1. cbv beta iota.
  destruct (analysis_variants a1) as [|[[cp_val score_str] var_str] rest];
    [reflexivity|].
  unfold bind at 1, lift at 1.
  destruct (generate_thermometer cp_val 300 15); reflexivity.
Qed.

(** X10: with an engine, [do_continuous_analysis] either succeeds, and then
    the status line is untouched and the evaluation shown is that of the
    first variation with its thermometer (or [---] when there is none), or
    it fails, and then the status line holds the error text and the
    evaluation shown is still the old one, whatever has become of the list
    of variations. *)
Theorem analysis_is_fresh_or_failed (analyse : Board -> result Infos)
    (eng : engine_handle) (app : ChessApp) :
  engine app = Some eng ->
  let app' := fst (do_continuous_analysis analyse app) in
  (status_msg app' = status_msg app
   /\ match analysis_variants app' with
      | [] => best_eval_str app' = u "---"
      | (cp_val, score_str, _) :: _ =>
        exists therm, generate_thermometer cp_val 300 15 = Ok therm
                      /\ best_eval_str app' = score_str ++ u " " ++ therm
      end)
  \/ (exists e, status_msg app' = u "Błąd analizy: " ++ exn_str e
                /\ best_eval_str app' = best_eval_str app).
Proof.
  intros He app'. subst app'.
  rewrite (do_continuous_analysis_eq analyse eng app He).
  destruct (analyse (board app)) as [infos|e].
  2:{ right. exists e. split; reflexivity. }
  set (l := match infos with InfoDict i => [i] | InfoList l => l end).
  pose proof (for_each_analyse_eval l (set_analysis_variants [] app)) as Hk.
  destruct (for_each l analyse_one (set_analysis_variants [] app))
    as [a1 [[]|e]]; cbn [fst] in Hk; destruct Hk as [Hb Hs].
  2:{ right. exists e. split; [reflexivity | exact Hb]. }
  destruct (analysis_variants a1) as [|[[cp_val score_str] var_str] rest] eqn:Hav.
  - left. cbn_app. rewrite Hav. split; [exact Hs | reflexivity].
  - destruct (generate_thermometer cp_val 300 15) as [therm|e] eqn:Ht.
    + left. cbn_app. rewrite Hav.
      split; [exact Hs|]. exists therm. split; [exact Ht | reflexivity].
    + right. exists e. split; [reflexivity | exact Hb].
Qed.

(** *** The move number *)

Lemma counts_moves_refl a : counts_moves a a.
Proof. exists []. split; [symmetry; apply app_nil_r | cbn; lia]. Qed.

Lemma counts_moves_trans a b c :
  counts_moves a b -> counts_moves b c -> counts_moves a c.
Proof.
  intros (l1 & Hl1 & Hm1) (l2 & Hl2 & Hm2). exists (l1 ++ l2). split.
  - rewrite Hl2, Hl1, app_assoc. reflexivity.
  - rewrite Hm2, Hm1, List.filter_app, length_app. lia.
Qed.

Ltac keeps_count :=
  keeps_with counts_moves_refl counts_moves_trans
             ltac:(exists []; split; [symmetry; apply app_nil_r | cbn; lia]).

Lemma do_move_counts mv : keeps counts_moves (do_move mv).
Proof.
  intros app. destruct (san (board app) mv) as [move_san|e] eqn:Hs.
  - rewrite (do_move_ok mv app move_san Hs), synergy_check_spec. cbn [fst].
    exists [(board app, mv)].
    unfold white_to_move_after. cbn [List.filter fst snd].
    unfold after_push, probed.
    destruct (Bool.eqb (turn (push (board app) mv)) WHITE);
      destruct (tablebase_applies _); cbn_app; cbn [length];
      split; first [reflexivity | lia].
  - rewrite (do_move_raise mv app e Hs). apply counts_moves_refl.
Qed.

Lemma handle_player_move_counts user_input :
  keeps counts_moves (handle_player_move user_input).
Proof.
  unfold handle_player_move.
  repeat first [apply do_move_counts | progress keeps_count].
Qed.

Lemma handle_engine_move_counts play :
  keeps counts_moves (handle_engine_move play).
Proof.
  unfold handle_engine_move.
  repeat first [apply do_move_counts | progress keeps_count].
Qed.

Lemma draw_screen_counts : keeps counts_moves draw_screen.
Proof.
  intros app. rewrite draw_screen_redraw. exists []. split.
  - symmetry. apply app_nil_r.
  - change (move_count app = move_count app + 0). lia.
Qed.

Lemma handle_key_counts ch : keeps counts_moves (handle_key ch).
Proof.
  unfold handle_key.
  repeat first [ apply draw_screen_counts | apply handle_player_move_counts
               | progress keeps_count ].
Qed.

Lemma key_loop_counts ks : keeps counts_moves (key_loop ks).
Proof.
  induction ks as [|ch ks IH]; cbn [key_loop];
    repeat first [exact IH | apply handle_key_counts | progress keeps_count].
Qed.

Lemma game_loop_counts rounds : keeps counts_moves (game_loop rounds).
Proof.
  induction rounds as [|r rounds IH]; cbn [game_loop];
    unfold do_continuous_analysis, analyse_one;
    repeat first [ exact IH | apply draw_screen_counts | apply key_loop_counts
                 | apply handle_engine_move_counts | progress keeps_count ].
Qed.

(** X11: through a whole [run], the move number grows by one for each move
    pushed on the board that leaves White to move, whether the human or
    the engine made it, and by nothing else; the pushes are recorded in the
    order in which they are made. *)
Theorem move_count_counts_moves (popen quit : result unit)
    (rounds : list Round) (app : ChessApp) :
  let app' := fst (run popen rounds quit app) in
  exists pushes,
    push_log app' = push_log app ++ pushes
    /\ move_count app'
       = move_count app
         + Z.of_nat (length (List.filter white_to_move_after pushes)).
Proof.
  revert app. change (keeps counts_moves (run popen rounds quit)).
  unfold run, main_loop, init_engine, close_engine, addstr.
  repeat first [ apply game_loop_counts | apply draw_screen_counts
               | progress keeps_count ].
Qed.

End ChesspyMore.

(** ** chesspy_windows.py: what else the program does *)

Section WindowsMore.
Context `{ChessLib} `{Desktop}.
Import ChesspyWindows.

Ltac unfold_g :=
  unfold ChesspyWindows.emit in *;
  unfold ChesspyWindows.bind, ChesspyWindows.ret, ChesspyWindows.lift,
    ChesspyWindows.read, ChesspyWindows.assign, ChesspyWindows.sys_exit,
    ChesspyWindows.try_except in *.

Ltac cbn_gui :=
  cbn [fst snd ChesspyWindows.out ChesspyWindows.piece_images
       ChesspyWindows.move_history ChesspyWindows.client_socket
       ChesspyWindows.username ChesspyWindows.password ChesspyWindows.board
       ChesspyWindows.selected_square ChesspyWindows.push_log
       ChesspyWindows.set_out ChesspyWindows.set_piece_images
       ChesspyWindows.set_move_history ChesspyWindows.set_client_socket
       ChesspyWindows.set_username ChesspyWindows.set_password
       ChesspyWindows.set_board ChesspyWindows.set_selected_square
       ChesspyWindows.set_push_log] in *.

Ltac keeps_g_with refl trans leaf :=
  repeat first
    [ progress cbv beta zeta
    | match goal with
      | |- keeps_g _ (ChesspyWindows.ret _) => apply keeps_g_ret; apply refl
      | |- keeps_g _ (ChesspyWindows.lift _) => apply keeps_g_lift; apply refl
      | |- keeps_g _ (ChesspyWindows.read _) => apply keeps_g_read; apply refl
      | |- keeps_g _ ChesspyWindows.sys_exit => apply keeps_g_exit; apply refl
      | |- keeps_g _ (ChesspyWindows.assign _) =>
        apply keeps_g_assign; intros ?; leaf
      | |- keeps_g _ (ChesspyWindows.emit _) =>
        apply keeps_g_emit; intros ?; leaf
      | |- keeps_g _ (ChesspyWindows.for_each _ _) =>
        apply keeps_g_for_each; [apply refl | apply trans | intros ?]
      | |- keeps_g _ (ChesspyWindows.try_except _ _) =>
        apply keeps_g_try_except; [apply trans | | intros ?]
      | |- keeps_g _ (ChesspyWindows.bind _ _) =>
        apply keeps_g_bind; [apply trans | | intros ?]
      | |- keeps_g _ (match ?x with _ => _ end) => destruct x
      end ].

(** *** The evaluation and its thermometer *)

Lemma bar_check_all :
  forallb bar_check
          (map (fun n => -500 + Z.of_nat n) (seq 0 (Z.to_nat 1001))) = true.
Proof. vm_compute. reflexivity. Qed.

Lemma bar_check_range (cp : Z) : -500 <= cp <= 500 -> bar_check cp = true.
Proof.
  intros Hc.
  pose proof bar_check_all as Hall.
  rewrite forallb_forall in Hall. apply Hall.
  apply in_map_iff. exists (Z.to_nat (cp + 500)). split; [lia|].
  apply in_seq. lia.
Qed.

Lemma get_analysis_cp (eng : option engine_handle) (reply : result Info)
    (tail : pystr) (g : Gui) :
  get_evaluation eng reply = u "cp " ++ tail ->
  get_analysis eng reply g
  = match fill_height_of (u "cp " ++ tail) with
    | Ok h =>
      (set_out (out g ++ [BlitText (u "Eval: cp " ++ tail) white 50 20;
                          DrawRect (255, 0, 0) 650 50 20 300;
                          DrawRect (0, 255, 0) 650 (50 + (300 - h)) 20 h;
                          Flip]) g, Return tt)
    | Raise e =>
      (set_out (out g ++ [BlitText (u "Eval: cp " ++ tail) white 50 20;
                          Print (u "Błąd parsowania oceny: " ++ exn_str e);
                          Flip]) g, Return tt)
    end.
Proof.
  intros Hev. unfold get_analysis. rewrite Hev.
  change (py_startswith (u "cp") (u "cp " ++ tail)) with true. cbv iota.
  unfold fill_height_of, draw_thermometer.
  unfold bind, emit, assign, lift, try_except.
  destruct (nth_error (py_split_on 32%N (u "cp " ++ tail)) 1) as [field|];
    cbn [rbind];
    [|cbn_gui; rewrite <- !app_assoc; reflexivity].
  destruct (py_int_of_str field) as [cp_val|e]; cbn [rbind];
    [|cbn_gui; rewrite <- !app_assoc; reflexivity].
  destruct (py_truediv cp_val 100) as [score|e]; cbn [rbind];
    [|cbn_gui; rewrite <- !app_assoc; reflexivity].
  destruct (py_add_float_int score 1) as [s1|e]; cbn [rbind];
    [|cbn_gui; rewrite <- !app_assoc; reflexivity].
  destruct (py_mul_float_int s1 150) as [s2|e]; cbn [rbind];
    [|cbn_gui; rewrite <- !app_assoc; reflexivity].
  destruct (py_int_of_float s2) as [h|e];
    cbn_gui; rewrite <- !app_assoc; reflexivity.
Qed.

(** X12: for an evaluation of [cp] centipawns, between -500 and 500,
    [get_analysis] writes the evaluation, draws the red frame of the
    thermometer, 300 pixels high, and the green bar on its floor, and flips
    the display.  The height of the bar is within one pixel of
    [1.5 * (cp + 100)]; it is not clamped, so the bar is inside the frame
    exactly when [cp] is between -100 and 100. *)
Theorem thermometer_bar_height (eng : engine_handle) (info : Info) (cp : Z)
    (g : Gui) :
  info_rel info = Some (Cp cp) -> -500 <= cp <= 500 ->
  exists h,
    get_analysis (Some eng) (Ok info) g
    = (set_out (out g ++ [BlitText (u "Eval: cp " ++ py_str_int cp) white 50 20;
                          DrawRect (255, 0, 0) 650 50 20 300;
                          DrawRect (0, 255, 0) 650 (50 + (300 - h)) 20 h;
                          Flip]) g, Return tt)
    /\ -2 <= 2 * h - 3 * (cp + 100) <= 2
    /\ (0 <= h <= 300 <-> -100 <= cp <= 100).
Proof.
  intros Hrel Hc. pose proof (bar_check_range cp Hc) as Hchk.
  unfold bar_check in Hchk.
  rewrite (get_analysis_cp (Some eng) (Ok info) (py_str_int cp) g)
    by (unfold get_evaluation; rewrite Hrel; reflexivity).
  destruct (fill_height_of (u "cp " ++ py_str_int cp)) as [h|e];
    [|discriminate].
  exists h. split; [reflexivity|].
  apply andb_true_iff in Hchk. destruct Hchk as [Hb Hin].
  apply Bool.eqb_prop in Hin. split; [lia|].
  destruct ((-100 <=? cp) && (cp <=? 100)) eqn:Hcp; lia.
Qed.

(** X13: when the evaluation is not a number of centipawns, because there
    is no engine, the engine fails, the reply has no score or the score is
    a mate, [get_analysis] draws no thermometer: it writes the text and
    flips the display. *)
Theorem no_thermometer_without_centipawns (eng : option engine_handle)
    (reply : result Info) (g : Gui) :
  (forall e info cp,
      eng = Some e -> reply = Ok info -> info_rel info <> Some (Cp cp)) ->
  get_analysis eng reply g
  = (set_out (out g ++ [BlitText (u "Eval: " ++ get_evaluation eng reply)
                                 white 50 20; Flip]) g, Return tt).
Proof.
  intros Hno. unfold get_analysis.
  assert (Hs : py_startswith (u "cp") (get_evaluation eng reply) = false).
  { unfold get_evaluation. destruct eng as [e|]; [|reflexivity].
    destruct reply as [info|e']; [|reflexivity].
    destruct (info_rel info) as [[cp|n]|] eqn:Hrel; try reflexivity.
    exfalso. exact (Hno e info cp eq_refl eq_refl Hrel). }
  rewrite Hs. unfold bind, emit, assign, ret. cbn_gui.
  rewrite <- !app_assoc. reflexivity.
Qed.

(** *** Clicks and squares *)

(** X14: a click selects the square in whose rectangle it falls: the click
    at [(x, y)] gives the square [sq] exactly when, for a row and a file of
    the board, [(x, y)] lies in the rectangle that [draw_board] paints for
    them, and [sq] is the square whose piece it draws there.  A click
    outside the 64 rectangles gives no square. *)
Theorem click_selects_drawn_square (images : gmap pystr Surface) (b : Board)
    (x y sq : Z) :
  clicked_square x y = Some sq
  <-> exists row file colour x0 y0 rest,
        0 <= row < 8 /\ 0 <= file < 8
        /\ draw_square images b DEFAULT_OFFSET_X DEFAULT_OFFSET_Y SQUARE_SIZE
                       row file
           = DrawRect colour x0 y0 SQUARE_SIZE SQUARE_SIZE :: rest
        /\ x0 <= x < x0 + SQUARE_SIZE /\ y0 <= y < y0 + SQUARE_SIZE
        /\ sq = square file (7 - row)
        /\ rest = match piece_at b sq with
                  | Some piece =>
                    match images !! image_key piece with
                    | Some img =>
                      [BlitImage img (x0 + SQUARE_SIZE / 2) (y0 + SQUARE_SIZE / 2)]
                    | None => []
                    end
                  | None => []
                  end.
Proof.
  unfold clicked_square, draw_square, image_key.
  change DEFAULT_OFFSET_X with 144. change DEFAULT_OFFSET_Y with 44.
  change SQUARE_SIZE with 64.
  split.
  - destruct ((0 <=? (x - 144) / 64) && ((x - 144) / 64 <? 8)
              && (0 <=? 7 - (y - 44) / 64) && (7 - (y - 44) / 64 <? 8)) eqn:Hin;
      [|discriminate].
    intros Hsq. injection Hsq as <-.
    exists ((y - 44) / 64), ((x - 144) / 64).
    do 4 eexists.
    split; [lia|]. split; [lia|]. split; [reflexivity|].
    split; [pose proof (Z.div_mod (x - 144) 64);
            pose proof (Z.mod_pos_bound (x - 144) 64); lia|].
    split; [pose proof (Z.div_mod (y - 44) 64);
            pose proof (Z.mod_pos_bound (y - 44) 64); lia|].
    split; reflexivity.
  - intros (row & file & colour & x0 & y0 & rest & Hr & Hf & Hd & Hx & Hy & -> & _).
    injection Hd as _ <- <- _.
    assert (Efile : (x - 144) / 64 = file)
      by (symmetry; apply (Z.div_unique _ _ _ (x - 144 - file * 64)); lia).
    assert (Erow : (y - 44) / 64 = row)
      by (symmetry; apply (Z.div_unique _ _ _ (y - 44 - row * 64)); lia).
    rewrite Efile, Erow.
    replace ((0 <=? file) && (file <? 8) && (0 <=? 7 - row) && (7 - row <? 8))
      with true by lia.
    reflexivity.
Qed.

(** *** The engine's turn *)

Lemma nth_choice_in {A} (l : list A) (first : A) (n : nat) :
  l <> [] -> In (nth (n mod length l) l first) l.
Proof.
  intros Hl. apply nth_In. apply Nat.mod_upper_bound.
  destruct l; [contradiction | discriminate].
Qed.

Lemma ai_turn_eq (eng : option engine_handle) (f : AiFrame) (g : Gui) :
  let b := board g in
  let said :=
    match eng, ai_move f b with
    | Some _, Raise e => [Print (u "Błąd silnika: " ++ exn_str e)]
    | _, _ => []
    end in
  let accepted :=
    match eng, ai_move f b with
    | Some _, Ok (Some mv) =>
      if Move_bool mv && is_legal b mv then Some mv else None
    | _, _ => None
    end in
  let played mv :=
    (set_move_history (move_history g ++ [mv])
       (set_push_log (push_log g ++ [Pushed b mv])
          (set_board (push b mv)
             (set_out (out g ++ Sleep 500 :: said) g))), Return tt) in
  ai_turn eng f g
  = match accepted, legal_moves b with
    | Some mv, _ => played mv
    | None, [] =>
      (set_out (out g ++ Sleep 500 :: said) g,
       Throw (mk_exn IndexError (u "Cannot choose from an empty sequence")))
    | None, first :: _ =>
      played (nth (choice f mod length (legal_moves b)) (legal_moves b) first)
    end.
Proof.
  cbv zeta. unfold ai_turn, get_move, push_board.
  destruct eng as [e|]; unfold_g; cbn_gui.
  - destruct (ai_move f (board g)) as [[mv|]|e']; cbn_gui.
    + destruct (Move_bool mv && is_legal (board g) mv); [reflexivity|].
      destruct (legal_moves (board g)); reflexivity.
    + destruct (legal_moves (board g)); reflexivity.
    + rewrite <- !app_assoc.
      destruct (legal_moves (board g)); reflexivity.
  - destruct (legal_moves (board g)); reflexivity.
Qed.

(** X15: on the engine's turn a move is always made when the position has
    one: [ai_turn] pushes exactly one move, legal in the position, and adds
    it to the history; it is the engine's move when the engine returned a
    move that is legal there, and otherwise (no engine, a failure, no move,
    an illegal move) one drawn from the legal moves. *)
Theorem ai_turn_plays_a_legal_move (eng : option engine_handle) (f : AiFrame)
    (g : Gui) :
  legal_moves (board g) <> [] ->
  exists mv,
    In mv (legal_moves (board g))
    /\ snd (ai_turn eng f g) = Return tt
    /\ board (fst (ai_turn eng f g)) = push (board g) mv
    /\ move_history (fst (ai_turn eng f g)) = move_history g ++ [mv]
    /\ push_log (fst (ai_turn eng f g)) = push_log g ++ [Pushed (board g) mv]
    /\ (forall m, eng <> None -> ai_move f (board g) = Ok (Some m) ->
                  Move_bool m = true -> In m (legal_moves (board g)) ->
                  mv = m).
Proof.
  intros Hne. rewrite ai_turn_eq. cbv zeta.
  destruct eng as [e|].
  - destruct (ai_move f (board g)) as [[mv|]|e'].
    + destruct (Move_bool mv && is_legal (board g) mv) eqn:Hok.
      * apply andb_true_iff in Hok. destruct Hok as [_ Hl].
        apply is_legal_true in Hl. exists mv.
        split; [exact Hl|]. do 4 (split; [reflexivity|]).
        intros m _ Hm _ _. congruence.
      * destruct (legal_moves (board g)) as [|first rest] eqn:Hlm;
          [contradiction|].
        eexists. split; [apply (nth_choice_in (first :: rest)); discriminate|].
        do 4 (split; [reflexivity|]).
        intros m _ Hm Hb Hl. exfalso.
        injection Hm as <-. rewrite Hb in Hok. cbn [andb] in Hok.
        apply is_legal_false in Hok. apply Hok. rewrite Hlm. exact Hl.
    + destruct (legal_moves (board g)) as [|first rest] eqn:Hlm;
        [contradiction|].
      eexists. split; [apply (nth_choice_in (first :: rest)); discriminate|].
      do 4 (split; [reflexivity|]). intros m _ Hm. discriminate.
    + destruct (legal_moves (board g)) as [|first rest] eqn:Hlm;
        [contradiction|].
      eexists. split; [apply (nth_choice_in (first :: rest)); discriminate|].
      do 4 (split; [reflexivity|]). intros m _ Hm. discriminate.
  - destruct (legal_moves (board g)) as [|first rest] eqn:Hlm;
      [contradiction|].
    eexists. split; [apply (nth_choice_in (first :: rest)); discriminate|].
    do 4 (split; [reflexivity|]). intros m He. contradiction.
Qed.

(** *** The game against the engine *)

Lemma bind_return {A B} (m : G A) (k : A -> G B) (g g1 : Gui) (a : A) :
  m g = (g1, Return a) -> bind m k g = k a g1.
Proof. intros Hm. unfold bind. rewrite Hm. reflexivity. Qed.

Lemma bind_throw {A B} (m : G A) (k : A -> G B) (g g1 : Gui) (e : exn) :
  m g = (g1, Throw e) -> bind m k g = (g1, Throw e).
Proof. intros Hm. unfold bind. rewrite Hm. reflexivity. Qed.

Lemma replay_step_refl g : replay_step g g.
Proof. intros Hg; exact Hg. Qed.

Lemma replay_step_trans a b c :
  replay_step a b -> replay_step b c -> replay_step a c.
Proof. unfold replay_step. auto. Qed.

Lemma played_replay g g' : played g g' -> replay_step g g'.
Proof.
  unfold played, replay_step, replayed.
  intros [[Hb Hh]|(mv & Hb & Hh)] Hg; rewrite Hb, Hh.
  - exact Hg.
  - rewrite fold_left_app, <- Hg. reflexivity.
Qed.

Ltac same_board := apply played_replay; left; split; reflexivity.

Ltac keeps_replay :=
  keeps_g_with replay_step_refl replay_step_trans ltac:(same_board).

Lemma ai_event_played ev g : played g (fst (ai_event ev g)).
Proof.
  unfold ai_event, push_board. destruct ev as [|x y|]; unfold_g; cbn_gui;
    try (left; split; reflexivity).
  destruct (clicked_square x y) as [sq|]; [|left; split; reflexivity].
  destruct (selected_square g) as [from_sq|].
  - destruct (is_legal (board g) (Move_new from_sq sq)); cbn_gui.
    + right. exists (Move_new from_sq sq). split; reflexivity.
    + left. split; reflexivity.
  - destruct (has_piece_of (board g) sq WHITE); left; split; reflexivity.
Qed.

Lemma ai_turn_played eng f g : played g (fst (ai_turn eng f g)).
Proof.
  rewrite ai_turn_eq. cbv zeta.
  destruct (match eng with Some _ => _ | None => _ end) as [mv|].
  - right. exists mv. split; reflexivity.
  - destruct (legal_moves (board g)) as [|first rest].
    + left. split; reflexivity.
    + right. eexists. split; reflexivity.
Qed.

Lemma ai_loop_replay eng frames : keeps_g replay_step (ai_loop eng frames).
Proof.
  induction frames as [|f rest IH]; cbn [ai_loop];
    unfold draw_board, get_analysis, draw_thermometer;
    repeat first
      [ exact IH
      | match goal with
        | |- keeps_g _ (ai_event _) =>
          intros ?; apply played_replay, ai_event_played
        | |- keeps_g _ (ai_turn _ _) =>
          intros ?; apply played_replay, ai_turn_played
        end
      | progress keeps_replay ].
Qed.

(** X16: the board of a game against the engine is always the starting
    position with the moves of the history played on it, in order: every
    move pushed, by a click or on the engine's turn, is added to the
    history, and nothing else changes either of them.  So the line of moves
    shown under the board is the game. *)
Theorem board_replays_move_history (script : AiScript) (g : Gui) :
  let g' := fst (play_against_ai script g) in
  board g' = fold_left push (move_history g') Board_new.
Proof.
  cbv zeta. change (replayed (fst (play_against_ai script g))).
  unfold play_against_ai.
  assert (Hs : exists g1 eng,
             start_engine (ai_popen script) g = (g1, Return eng)).
  { unfold start_engine. destruct (ai_popen script); unfold_g;
      eexists; eexists; reflexivity. }
  destruct Hs as (g1 & eng & Hs).
  rewrite (bind_return _ _ _ _ _ Hs).
  unfold bind at 1, assign at 1. cbv beta iota.
  unfold bind at 1, assign at 1. cbv beta iota.
  unfold bind at 1, assign at 1. cbv beta iota.
  match goal with
  | |- replayed (fst (bind _ _ ?g4)) =>
    assert (H4 : replayed g4) by reflexivity;
      pose proof (ai_loop_replay eng (ai_frames script) g4 H4) as Hl
  end.
  unfold bind.
  destruct (ai_loop eng (ai_frames script) _) as [g5 [[| |]|e|]];
    cbn [fst] in Hl; try exact Hl;
    unfold stop_engine, lift, ret;
    destruct eng; try exact Hl; destruct (ai_quit script); exact Hl.
Qed.

(** *** What can go wrong *)

Section Throws.
Variable P : exn -> Prop.

Lemma throws_ret {A} (a : A) : throws_only P (ret a).
Proof. intros g e He. discriminate. Qed.

Lemma throws_read {A} (f : Gui -> A) : throws_only P (read f).
Proof. intros g e He. discriminate. Qed.

Lemma throws_assign (f : Gui -> Gui) : throws_only P (assign f).
Proof. intros g e He. discriminate. Qed.

Lemma throws_emit (o : Out) : throws_only P (emit o).
Proof. intros g e He. discriminate. Qed.

Lemma throws_exit {A} : throws_only P (@sys_exit _ _ A).
Proof. intros g e He. discriminate. Qed.

Lemma throws_lift {A} (r : result A) :
  (forall e, r = Raise e -> P e) -> throws_only P (lift r).
Proof.
  intros Hr g e He. unfold lift in He. cbn [snd] in He.
  destruct r as [a|e']; [discriminate|]. injection He as <-. auto.
Qed.

Lemma throws_bind {A B} (m : G A) (k : A -> G B) :
  throws_only P m -> (forall a, throws_only P (k a)) ->
  throws_only P (bind m k).
Proof.
  intros Hm Hk g e. unfold bind. specialize (Hm g).
  destruct (m g) as [g1 [a|e'|]]; cbn [snd] in *.
  - apply Hk.
  - intros He. injection He as <-. auto.
  - discriminate.
Qed.

Lemma throws_try_except {A} (body : G A) (handler : exn -> G A) :
  (forall e, throws_only P (handler e)) ->
  throws_only P (try_except body handler).
Proof.
  intros Hh g e. unfold try_except.
  destruct (body g) as [g1 [a|e'|]]; cbn [snd]; try discriminate.
  apply Hh.
Qed.

Lemma throws_for_each {A} (l : list A) (body : A -> G unit) :
  (forall x, throws_only P (body x)) -> throws_only P (for_each l body).
Proof.
  intros Hb. induction l as [|x l IH]; cbn [for_each].
  - apply throws_ret.
  - apply throws_bind; auto.
Qed.

End Throws.

Ltac throws_steps :=
  repeat first
    [ progress cbv beta zeta
    | match goal with
      | |- throws_only _ (ChesspyWindows.ret _) => apply throws_ret
      | |- throws_only _ (ChesspyWindows.read _) => apply throws_read
      | |- throws_only _ ChesspyWindows.sys_exit => apply throws_exit
      | |- throws_only _ (ChesspyWindows.assign _) => apply throws_assign
      | |- throws_only _ (ChesspyWindows.emit _) => apply throws_emit
      | |- throws_only _ (ChesspyWindows.for_each _ _) =>
        apply throws_for_each; intros ?
      | |- throws_only _ (ChesspyWindows.try_except _ _) =>
        apply throws_try_except; intros ?
      | |- throws_only _ (ChesspyWindows.bind _ _) =>
        apply throws_bind; [| intros ?]
      | |- throws_only _ (match ?x with _ => _ end) => destruct x
      end ].

Lemma get_analysis_no_throw P eng reply : throws_only P (get_analysis eng reply).
Proof. unfold get_analysis. throws_steps. Qed.

Lemma draw_board_no_throw P b : throws_only P (draw_board b).
Proof. unfold draw_board. throws_steps. Qed.

Lemma ai_event_no_throw P ev : throws_only P (ai_event ev).
Proof. unfold ai_event, push_board. throws_steps. Qed.

Lemma ai_turn_throws eng f :
  throws_only
    (fun e => e = mk_exn IndexError (u "Cannot choose from an empty sequence"))
    (ai_turn eng f).
Proof.
  intros g e. rewrite ai_turn_eq. cbv zeta.
  destruct (match eng with Some _ => _ | None => _ end) as [mv|];
    [discriminate|].
  destruct (legal_moves (board g)); [|discriminate].
  cbn [snd]. intros He. injection He as <-. reflexivity.
Qed.

Lemma throws_weaken (P Q : exn -> Prop) {A} (m : G A) :
  (forall e, P e -> Q e) -> throws_only P m -> throws_only Q m.
Proof. intros HPQ Hm g e He. apply HPQ, (Hm g e He). Qed.

Lemma ai_loop_throws eng frames :
  throws_only
    (fun e => e = mk_exn IndexError (u "Cannot choose from an empty sequence"))
    (ai_loop eng frames).
Proof.
  induction frames as [|f rest IH]; cbn [ai_loop];
    repeat first
      [ exact IH
      | apply get_analysis_no_throw
      | apply draw_board_no_throw
      | apply ai_event_no_throw
      | apply ai_turn_throws
      | progress throws_steps ].
Qed.

(** X17: a game against the engine can end in an exception in two ways
    only: [engine.quit()] raises when the game is over, or it is the
    engine's turn in a position that is not over and has no legal move, where
    [random.choice] raises [IndexError].  A failure to start the engine, a
    failure of the analysis or of the engine's search, an evaluation that
    does not parse, an illegal click: none of them ends the game.  (The
    calls of pygame are taken as not failing.) *)
Theorem play_against_ai_exceptions (script : AiScript) (g : Gui) (e : exn) :
  snd (play_against_ai script g) = Throw e ->
  e = mk_exn IndexError (u "Cannot choose from an empty sequence")
  \/ ai_quit script = Raise e.
Proof.
  revert g e.
  change (throws_only
            (fun e => e = mk_exn IndexError
                                 (u "Cannot choose from an empty sequence")
                      \/ ai_quit script = Raise e)
            (play_against_ai script)).
  unfold play_against_ai, start_engine, stop_engine.
  repeat first
    [ match goal with
      | |- throws_only _ (ai_loop _ _) =>
        eapply throws_weaken; [|apply ai_loop_throws];
        intros ? ->; left; reflexivity
      | |- throws_only _ (ChesspyWindows.lift (ai_quit script)) =>
        apply throws_lift; intros ? ->; right; reflexivity
      end
    | progress throws_steps ].
Qed.

(** *** The receiving thread after an error *)

Lemma local_pushes_refl g : local_pushes g g.
Proof. exists []. split; [symmetry; apply app_nil_r | constructor]. Qed.

Lemma local_pushes_trans a b c :
  local_pushes a b -> local_pushes b c -> local_pushes a c.
Proof.
  intros (l1 & H1 & F1) (l2 & H2 & F2). exists (l1 ++ l2). split.
  - rewrite H2, H1, app_assoc. reflexivity.
  - apply Forall_app. split; assumption.
Qed.

Ltac local_leaf :=
  first [ exists []; split; [symmetry; apply app_nil_r | constructor]
        | eexists; split;
          [reflexivity | repeat constructor; eexists; eexists; reflexivity] ].

Ltac keeps_local :=
  keeps_g_with local_pushes_refl local_pushes_trans ltac:(local_leaf).

Lemma online_events_local is_white opponent net evs :
  keeps_g local_pushes (online_events is_white opponent net evs).
Proof.
  induction evs as [|[|x y|] evs IH]; cbn [online_events];
    unfold online_click, push_board, send_to_server;
    repeat first [exact IH | progress keeps_local].
Qed.

Lemma online_loop_local is_white opponent steps :
  keeps_g local_pushes (online_loop is_white opponent false steps).
Proof.
  induction steps as [|[evs net|data] steps IH]; cbn [online_loop];
    unfold draw_board, send_to_server;
    repeat first
      [ exact IH | apply online_events_local | progress keeps_local ].
Qed.

(** X18: once the receiving thread has stopped on an error (a failed
    [recv], bytes that are not UTF-8, an [OPPONENT_MOVE] without a move or
    with a move that the board rejects), the board is as it was before the
    failed message, and for the rest of the online game no received move is
    ever applied again: every later push is a move clicked on this side. *)
Theorem receive_error_ends_reception (is_white : bool) (opponent : pystr)
    (data : result pybytes) (steps : list OnlineStep) (g : Gui) :
  snd (receive_step data g) = Return false ->
  let g1 := fst (receive_step data g) in
  let g' := fst (online_loop is_white opponent true (Received data :: steps) g) in
  board g1 = board g /\ push_log g1 = push_log g
  /\ exists pushes,
       push_log g' = push_log g ++ pushes
       /\ Forall (fun ev => exists b mv, ev = Pushed b mv) pushes.
Proof.
  intros Hf. cbv zeta.
  assert (Hg1 : board (fst (receive_step data g)) = board g
                /\ push_log (fst (receive_step data g)) = push_log g).
  { revert Hf. rewrite receive_step_eq. cbv zeta.
    destruct data as [raw|e]; [|split; reflexivity].
    destruct (utf8_decode raw) as [text|e]; [|split; reflexivity].
    destruct (py_startswith _ text); [|discriminate].
    destruct (nth_error _ 1) as [move|]; [|split; reflexivity].
    destruct (push_uci (board g) move); [discriminate | split; reflexivity]. }
  destruct Hg1 as [Hb Hp]. split; [exact Hb|]. split; [exact Hp|].
  cbn [online_loop]. unfold bind at 1.
  destruct (receive_step data g) as [g1 [go_on|e|]]; cbn [fst snd] in *;
    try discriminate.
  injection Hf as ->.
  destruct (online_loop_local is_white opponent steps g1) as (l & Hl & Fl).
  exists l. rewrite Hl, Hp. split; [reflexivity | exact Fl].
Qed.

(** *** The images of the pieces *)

Lemma load_images_lookup (keys : list pystr) (g : Gui) (k : pystr) :
  let g' :=
    fst (for_each keys
           (fun p =>
              match image_load (u "pieces/" ++ p ++ u ".png") with
              | Ok image =>
                assign (fun g => set_piece_images (<[p := image]> (piece_images g)) g)
              | Raise e =>
                emit (Print (u "Nie można załadować obrazka "
                             ++ (u "pieces/" ++ p ++ u ".png") ++ u ": "
                             ++ exn_str e))
              end) g) in
  piece_images g' !! k
  = match image_load (image_path k) with
    | Ok image => if bool_decide (k ∈ keys) then Some image
                  else piece_images g !! k
    | Raise _ => piece_images g !! k
    end.
Proof.
  cbv zeta. revert g. induction keys as [|p keys IH]; intros g.
  - cbn [for_each]. unfold ret. cbn [fst].
    destruct (image_load (image_path k)); reflexivity.
  - cbn [for_each]. unfold bind at 1.
    assert (Hin : forall (image : Surface) (old : option Surface),
               k <> p ->
               (if bool_decide (k ∈ keys) then Some image else old)
               = (if bool_decide (k ∈ p :: keys) then Some image else old)).
    { intros image old Hne. destruct (decide (k ∈ keys)) as [Hk|Hk].
      - rewrite !bool_decide_eq_true_2
          by first [exact Hk | right; exact Hk].
        reflexivity.
      - rewrite !bool_decide_eq_false_2; [reflexivity | | exact Hk].
        intros Hk'. apply elem_of_cons in Hk'. destruct Hk'; contradiction. }
    destruct (image_load (u "pieces/" ++ p ++ u ".png")) as [image|e] eqn:Hp.
    + unfold assign at 1. rewrite IH. cbn_gui.
      destruct (decide (k = p)) as [->|Hne].
      * unfold image_path. rewrite Hp, lookup_insert_eq.
        destruct (bool_decide (p ∈ keys));
          rewrite bool_decide_eq_true_2 by left; reflexivity.
      * rewrite lookup_insert_ne by congruence.
        destruct (image_load (image_path k)); [|reflexivity].
        apply Hin, Hne.
    + unfold emit at 1, assign at 1. rewrite IH. cbn_gui.
      destruct (image_load (image_path k)) as [image|e'] eqn:Hk;
        [|reflexivity].
      apply Hin. intros ->. unfold image_path in Hk. congruence.
Qed.

Lemma image_key_loaded (piece : Piece) :
  chess_piece piece ->
  image_key piece
  ∈ map u ["wp"; "wr"; "wn"; "wb"; "wq"; "wk";
           "bp"; "br"; "bn"; "bb"; "bq"; "bk"]%string.
Proof.
  unfold chess_piece. destruct piece as [t c]. cbn [piece_type]. intros Ht.
  assert (Hc : t = 1 \/ t = 2 \/ t = 3 \/ t = 4 \/ t = 5 \/ t = 6) by lia.
  apply list_elem_of_In.
  repeat (destruct Hc as [->|Hc]); subst; destruct c; vm_compute; tauto.
Qed.

(** X19: after [load_piece_images], the image that [draw_board] finds for a
    piece of one of the six kinds is the one read from the file
    [pieces/<colour><letter>.png]; when that file could not be read the
    failure is printed and the lookup gives what it gave before, so at the
    start of the program the piece is drawn as an empty square.  The
    loading itself never fails. *)
Theorem piece_image_is_loaded (piece : Piece) (g : Gui) :
  chess_piece piece ->
  let g' := fst (load_piece_images g) in
  snd (load_piece_images g) = Return tt
  /\ piece_images g' !! image_key piece
     = match image_load (image_path (image_key piece)) with
       | Ok image => Some image
       | Raise _ => piece_images g !! image_key piece
       end
  /\ forall b offset_x offset_y size rank file,
       piece_at b (square file (7 - rank)) = Some piece ->
       draw_square (piece_images g') b offset_x offset_y size rank file
       = DrawRect (if (rank + file) mod 2 =? 0
                   then (240, 217, 181) else (181, 136, 99))
                  (offset_x + file * size) (offset_y + rank * size) size size
         :: match piece_images g' !! image_key piece with
            | Some img =>
              [BlitImage img (offset_x + file * size + size / 2)
                             (offset_y + rank * size + size / 2)]
            | None => []
            end.
Proof.
  intros Hp. cbv zeta. split; [|split].
  - unfold load_piece_images.
    generalize (map u ["wp"; "wr"; "wn"; "wb"; "wq"; "wk";
                       "bp"; "br"; "bn"; "bb"; "bq"; "bk"]%string).
    intros keys. revert g. induction keys as [|p keys IH]; intros g;
      [reflexivity|].
    cbn [for_each]. unfold bind.
    destruct (image_load _); unfold emit, assign; apply IH.
  - unfold load_piece_images. rewrite load_images_lookup.
    destruct (image_load (image_path (image_key piece))); [|reflexivity].
    rewrite bool_decide_eq_true_2 by (apply image_key_loaded, Hp).
    reflexivity.
  - intros b offset_x offset_y size rank file Hat.
    unfold draw_square. rewrite Hat. reflexivity.
Qed.

(** *** A puzzle that cannot be read *)

Lemma load_piece_images_returns (g : Gui) :
  exists g1, load_piece_images g = (g1, Return tt).
Proof.
  unfold load_piece_images.
  generalize (map u ["wp"; "wr"; "wn"; "wb"; "wq"; "wk";
                     "bp"; "br"; "bn"; "bb"; "bq"; "bk"]%string).
  intros keys. revert g. induction keys as [|p keys IH]; intros g.
  - exists g. reflexivity.
  - cbn [for_each]. unfold bind.
    destruct (image_load _); unfold emit, assign; apply IH.
Qed.

Lemma emit_eq (o : Out) (g : Gui) :
  emit o g = (set_out (out g ++ [o]) g, Return tt).
Proof. reflexivity. Qed.

Lemma for_each_emits {A} (l : list A) (body : A -> G unit) :
  (forall x g, exists g1, body x g = (g1, Return tt)) ->
  forall g, exists g1, for_each l body g = (g1, Return tt).
Proof.
  intros Hb. induction l as [|x l IH]; intros g.
  - exists g. reflexivity.
  - cbn [for_each]. destruct (Hb x g) as (g1 & E1).
    rewrite (bind_return _ _ _ _ _ E1). apply IH.
Qed.

Lemma main_menu_draws (evs : list MenuEvent) (rest : list (list MenuEvent))
    (g : Gui) :
  exists g1,
    main_menu (evs :: rest) g
    = bind (menu_events evs)
           (fun ended : bool =>
              if ended then ret InputEnded
              else bind (emit Tick) (fun _ => main_menu rest)) g1.
Proof.
  cbn [main_menu].
  rewrite (bind_return _ _ _ _ _ (emit_eq _ _)).
  rewrite (bind_return _ _ _ _ _ (emit_eq _ _)).
  match goal with
  | |- exists g1, bind (for_each ?l ?body) _ ?g0 = _ =>
    destruct (for_each_emits l body) with (g := g0) as (g2 & E2)
  end.
  { intros [[text y] colour] g0. eexists.
    rewrite (bind_return _ _ _ _ _ (emit_eq _ _)). apply emit_eq. }
  rewrite (bind_return _ _ _ _ _ E2).
  rewrite (bind_return _ _ _ _ _ (emit_eq _ _)).
  eexists. reflexivity.
Qed.

(** X20: a puzzle that the server sends with status 200 as a document that
    is not empty but has no [game] entry ends the program: the [KeyError]
    (or the [TypeError] of a document that is not an object) raised in
    [draw_puzzle] is caught nowhere, and leaves [main]. *)
Theorem unreadable_puzzle_ends_program (x y : Z) (ai : AiScript) (doc : json)
    (e : exn) (puzzle_frames : list (list Event)) (online : OnlineScript)
    (evs : list MenuEvent) (rest : list (list MenuEvent)) (g : Gui) :
  250 <= x <= 550 -> 220 <= y <= 260 ->
  json_bool doc = true -> json_get doc (u "game") = Raise e ->
  snd (main ((MenuClick x y ai (Ok (mk_response 200 (Ok doc))) puzzle_frames
                        online :: evs) :: rest) g)
  = Throw e.
Proof.
  intros Hx Hy Hdoc Hgame. unfold main.
  destruct (load_piece_images_returns g) as (g1 & E1).
  rewrite (bind_return _ _ _ _ _ E1).
  destruct (main_menu_draws
              (MenuClick x y ai (Ok (mk_response 200 (Ok doc))) puzzle_frames
                         online :: evs) rest g1) as (g2 & E2).
  rewrite E2. cbn [menu_events].
  replace ((250 <=? x) && (x <=? 550)) with true by lia.
  replace ((100 <=? y) && (y <=? 140)) with false by lia.
  replace ((160 <=? y) && (y <=? 200)) with false by lia.
  replace ((220 <=? y) && (y <=? 260)) with true by lia.
  cbv iota.
  erewrite bind_throw; [reflexivity|].
  erewrite bind_return;
    [|unfold get_lichess_puzzle; unfold_g; cbn [status_code response_json];
      reflexivity].
  erewrite bind_throw; [reflexivity|].
  unfold draw_puzzle. rewrite Hdoc. cbn [negb].
  erewrite bind_throw; [reflexivity|].
  unfold lift. rewrite Hgame. reflexivity.
Qed.

(** *** The moves of a puzzle *)

Lemma follows_nil sm start : follows_solution sm start [].
Proof. intros [|k] ev Hk; discriminate. Qed.

Lemma follows_app sm start l1 l2 :
  follows_solution sm start l1 ->
  follows_solution sm (start + Z.of_nat (length l1)) l2 ->
  follows_solution sm start (l1 ++ l2).
Proof.
  intros H1 H2 k ev Hk.
  destruct (Nat.lt_ge_cases k (length l1)) as [Hlt|Hge].
  - rewrite nth_error_app1 in Hk by exact Hlt. apply H1, Hk.
  - rewrite nth_error_app2 in Hk by exact Hge.
    destruct (H2 _ _ Hk) as (b & text & mv & -> & Hl & Hs).
    exists b, text, mv. split; [reflexivity|]. split; [exact Hl|].
    rewrite <- Hs. f_equal. lia.
Qed.

Lemma follows_one sm start b text mv :
  In mv (legal_moves b) -> solution_move sm start = Ok (text, mv) ->
  follows_solution sm start [Pushed b mv].
Proof.
  intros Hl Hs [|[|k]] ev Hk; try discriminate.
  injection Hk as <-. exists b, text, mv.
  rewrite Z.add_0_r. repeat split; assumption.
Qed.

Lemma puzzle_post_none sm start g (g' : Gui) (c : ctl (Z * bool)) :
  push_log g' = push_log g ->
  match c with Return st => fst st = start | _ => True end ->
  puzzle_post sm start g (g', c).
Proof.
  intros Hp Hc. exists []. cbn [fst snd length].
  split; [rewrite app_nil_r; exact Hp|]. split; [apply follows_nil|].
  destruct c; try exact I. lia.
Qed.

Lemma puzzle_move_post sm start running move g :
  puzzle_post sm start g (puzzle_move sm start running move g).
Proof.
  unfold puzzle_move, push_board, draw_board. unfold_g. cbn_gui.
  destruct (is_legal (board g) move) eqn:Hl;
    [|apply puzzle_post_none; reflexivity].
  apply is_legal_true in Hl.
  destruct (json_len sm) as [n|e]; [|apply puzzle_post_none; [reflexivity|exact I]].
  destruct (start <? n); [|apply puzzle_post_none; reflexivity].
  destruct (solution_move sm start) as [[correct_move_str correct_move]|e] eqn:Hc;
    [|apply puzzle_post_none; [reflexivity|exact I]].
  destruct (Move_eq_dec move correct_move) as [->|Hne];
    [|apply puzzle_post_none; reflexivity].
  cbn_gui.
  pose proof (follows_one sm start (board g) _ _ Hl Hc) as F1.
  destruct (start + 1 <? n).
  - destruct (solution_move sm (start + 1))
      as [[enemy_move_str enemy_move]|e] eqn:He.
    + destruct (is_legal (push (board g) correct_move) enemy_move) eqn:Hl2;
        cbn_gui.
      * apply is_legal_true in Hl2.
        exists ([Pushed (board g) correct_move]
                ++ [Pushed (push (board g) correct_move) enemy_move]).
        cbn_gui. split; [rewrite <- app_assoc; reflexivity|].
        split; [|cbn [length List.app]; lia].
        apply follows_app; [exact F1|].
        apply (follows_one _ _ _ enemy_move_str); assumption.
      * exists [Pushed (board g) correct_move]. cbn_gui. cbn [length].
        split; [reflexivity|]. split; [exact F1 | lia].
    + exists [Pushed (board g) correct_move]. cbn_gui. cbn [length].
      split; [reflexivity|]. split; [exact F1 | exact I].
  - exists [Pushed (board g) correct_move]. cbn_gui. cbn [length].
    split; [reflexivity|]. split; [exact F1 | lia].
Qed.

Lemma puzzle_event_post sm st ev g :
  puzzle_post sm (fst st) g (puzzle_event sm st ev g).
Proof.
  unfold puzzle_event. destruct ev as [|x y|].
  - unfold_g. apply puzzle_post_none; [reflexivity | exact I].
  - destruct (clicked_square x y) as [sq|];
      [|apply puzzle_post_none; reflexivity].
    unfold bind at 1, read at 1. cbv beta iota.
    unfold bind at 1, read at 1. cbv beta iota.
    destruct (selected_square g) as [from_sq|].
    + apply puzzle_move_post.
    + unfold_g. destruct (has_piece_of _ _ _);
        apply puzzle_post_none; reflexivity.
  - apply puzzle_post_none; reflexivity.
Qed.

Lemma puzzle_post_bind sm start g (m : G (Z * bool))
    (k : Z * bool -> G (Z * bool)) :
  puzzle_post sm start g (m g) ->
  (forall st g1, puzzle_post sm (fst st) g1 (k st g1)) ->
  puzzle_post sm start g (bind m k g).
Proof.
  intros (l1 & Hp1 & F1 & Hi1) Hk. unfold bind.
  destruct (m g) as [g1 [st|e|]]; cbn [fst snd] in *.
  - destruct (Hk st g1) as (l2 & Hp2 & F2 & Hi2).
    exists (l1 ++ l2). split; [rewrite Hp2, Hp1, app_assoc; reflexivity|].
    rewrite Hi1 in F2, Hi2.
    split; [apply follows_app; assumption|].
    destruct (snd (k st g1)); try exact I.
    rewrite Hi2, length_app. lia.
  - exists l1. cbn [fst snd]. repeat split; assumption.
  - exists l1. cbn [fst snd]. repeat split; assumption.
Qed.

Lemma puzzle_events_post sm st evs g :
  puzzle_post sm (fst st) g (puzzle_events sm st evs g).
Proof.
  revert st g. induction evs as [|ev evs IH]; intros st g;
    cbn [puzzle_events].
  - apply puzzle_post_none; reflexivity.
  - apply puzzle_post_bind; [apply puzzle_event_post | intros; apply IH].
Qed.

Lemma puzzle_loop_follows sm start frames g :
  exists l,
    push_log (fst (puzzle_loop sm start frames g)) = push_log g ++ l
    /\ follows_solution sm start l.
Proof.
  revert start g. induction frames as [|evs frames IH]; intros start g;
    cbn [puzzle_loop].
  - exists []. split; [symmetry; apply app_nil_r | apply follows_nil].
  - destruct (puzzle_events_post sm (start, true) evs g) as (l1 & Hp1 & F1 & Hi1).
    unfold bind at 1.
    destruct (puzzle_events sm (start, true) evs g) as [g1 [st|e|]];
      cbn [fst snd] in *; try (exists l1; split; assumption).
    unfold bind, emit, assign.
    destruct (snd st).
    + destruct (IH (fst st) (set_out (out g1 ++ [Tick]) g1)) as (l2 & Hp2 & F2).
      exists (l1 ++ l2). rewrite Hp2. cbn_gui.
      split; [rewrite Hp1, app_assoc; reflexivity|].
      apply follows_app; [exact F1 | rewrite <- Hi1; exact F2].
    + exists l1. split; assumption.
Qed.

(** X21: in a puzzle nothing is ever played but the solution: the moves
    pushed on the board, the player's and the replies, are the moves of
    [puzzle['puzzle']['solution']] from its first one on, in their order and
    without a gap, and each was legal where it was pushed.  A legal move
    that is not the next move of the solution is not pushed. *)
Theorem puzzle_plays_the_solution (puzzle : json) (frames : list (list Event))
    (g : Gui) :
  let g' := fst (draw_puzzle puzzle frames g) in
  exists pushes,
    push_log g' = push_log g ++ pushes
    /\ (pushes = []
        \/ exists pz solution_moves,
             json_get puzzle (u "puzzle") = Ok pz
             /\ json_get pz (u "solution") = Ok solution_moves
             /\ follows_solution solution_moves 0 pushes).
Proof.
  cbv zeta. unfold draw_puzzle.
  assert (Hnone : forall r : Gui * ctl loop_end,
             push_log (fst r) = push_log g ->
             exists pushes,
               push_log (fst r) = push_log g ++ pushes
               /\ (pushes = []
                   \/ exists pz solution_moves,
                        json_get puzzle (u "puzzle") = Ok pz
                        /\ json_get pz (u "solution") = Ok solution_moves
                        /\ follows_solution solution_moves 0 pushes)).
  { intros r Hp. exists []. rewrite app_nil_r.
    split; [exact Hp | left; reflexivity]. }
  destruct (json_bool puzzle); cbn [negb]; [|apply Hnone; reflexivity].
  unfold draw_board. unfold_g.
  destruct (json_get puzzle (u "game")) as [game|e]; [|apply Hnone; reflexivity].
  destruct (json_get game (u "pgn")) as [pgn|e]; [|apply Hnone; reflexivity].
  destruct (json_text pgn) as [pgn_text|e]; [|apply Hnone; reflexivity].
  destruct (pgn_to_fen pgn_text) as [fen_text|e]; [|apply Hnone; reflexivity].
  destruct (Board_of_fen fen_text) as [b|e]; [|apply Hnone; reflexivity].
  destruct (json_get puzzle (u "puzzle")) as [pz|e]; [|apply Hnone; reflexivity].
  destruct (json_get pz (u "solution")) as [sm|e] eqn:Hsol;
    [|apply Hnone; reflexivity].
  match goal with
  | |- context [puzzle_loop sm 0 frames ?g1] =>
    destruct (puzzle_loop_follows sm 0 frames g1) as (l & Hp & F)
  end.
  exists l. split; [exact Hp|].
  right. exists pz, sm. split; [reflexivity|]. split; [exact Hsol|]. exact F.
Qed.

End WindowsMore.

(** ** Runs on the small rules library *)


#[local] Existing Instance Toy.lib.
#[local] Existing Instance Toy.desktop.
Import Runs.


Lemma accepted_move_is_displayed_witness :
  Chesspy.board (fst (Chesspy.handle_player_move (u "1. a2a3") app0))
  = Toy.play Toy.start (8, 16)
  /\ exists g',
       ChesspyWindows.ai_event (ChesspyWindows.MOUSEBUTTONDOWN 150 374) gui0
       = (g', ChesspyWindows.Return tt)
       /\ ChesspyWindows.board g' = Toy.play Toy.start (8, 16)
       /\ ChesspyWindows.move_history g' = [(8, 16)].
Proof.
  destruct (@accepted_move_is_displayed Toy.lib Toy.desktop) as (_ & Hplayer & Hclick).
  split.
  - apply (Hplayer app0 (u "1. a2a3") (8, 16) (u "a3")).
    + vm_compute. reflexivity.
    + vm_compute. left. reflexivity.
    + vm_compute. reflexivity.
  - destruct (Hclick gui0 150 374 8 16) as (g' & Hev & Hb & Hh & _).
    + vm_compute. reflexivity.
    + vm_compute. reflexivity.
    + vm_compute. left. reflexivity.
    + exists g'. auto.
Defined.

Lemma handle_player_move_failure_witness :
  exists msg app',
    Chesspy.handle_player_move (u "zz") app0 = (app', Ok tt)
    /\ Chesspy.board app' = Chesspy.board app0
    /\ Chesspy.status_msg app' = msg.
Proof.
  destruct (@handle_player_move_failure Toy.lib (u "zz") app0)
    as (msg & app' & Hrun & _ & Hb & _ & _ & _ & _ & Hmsg & _).
  - left. eexists. vm_compute. reflexivity.
  - exists msg, app'. auto.
Defined.


Lemma synergy_check_probe_iff_witness :
  exists path,
    Chesspy.tb_path app_tb = Some path
    /\ Chesspy.tb_log (fst (Chesspy.synergy_check app_tb)) = [(path, Toy.start)].
Proof.
  destruct (@synergy_check_probe_iff Toy.lib app_tb) as (_ & _ & Hprobe & _).
  destruct Hprobe as (path & Hp & Hlog & _).
  - split; [reflexivity | vm_compute; discriminate].
  - exists path. split; [exact Hp | exact Hlog].
Defined.

Lemma receive_step_cases_witness :
  ChesspyWindows.board
    (fst (ChesspyWindows.receive_step (Ok opponent_move) gui0))
  = Toy.play Toy.start (8, 16).
Proof.
  destruct (@receive_step_cases Toy.lib Toy.desktop (Ok opponent_move) gui0)
    as (_ & Hdata & _).
  destruct (Hdata opponent_move (u "OPPONENT_MOVE|a2a3") eq_refl eq_refl)
    as (_ & Hprefix).
  destruct (Hprefix eq_refl) as (_ & Htext).
  destruct (Htext (u "a2a3") eq_refl) as (_ & Hok & _).
  destruct (Hok (Toy.play Toy.start (8, 16)) eq_refl) as (Hb & _).
  exact Hb.
Defined.

(** C5 as it is stated fails: data that starts with ["OPPONENT_MOVE"] and
    has no separator does not change the board. *)
Lemma receive_prefix_without_push :
  ~ (forall (L : ChessLib) (D : Desktop) (raw : pybytes) (data : pystr)
            (g : @ChesspyWindows.Gui L D),
        utf8_decode raw = Ok data ->
        (ChesspyWindows.push_log
           (fst (@ChesspyWindows.receive_step L D (Ok raw) g))
         <> ChesspyWindows.push_log g
         <-> py_startswith (u "OPPONENT_MOVE") data = true)).
Proof.
  intros Hiff.
  destruct (Hiff Toy.lib Toy.desktop (bytes_of_string "OPPONENT_MOVE")
                 (u "OPPONENT_MOVE") gui0 eq_refl) as [_ Hpush].
  apply (Hpush eq_refl). vm_compute. reflexivity.
Qed.

Lemma client_messages_documented_witness :
  messages (ChesspyWindows.out
              (fst (ChesspyWindows.login_screen (fun _ => Ok (u "OK")) gui0)))
  = [u "LOGIN|Buldozer|123"].
Proof.
  destruct (@client_messages_documented Toy.lib Toy.desktop) as (_ & Hlogin & _).
  apply (Hlogin (fun _ => Ok (u "OK")) gui0
                (Socket ChesspyWindows.SERVER_IP ChesspyWindows.SERVER_PORT)).
  reflexivity.
Defined.

Lemma puzzle_fetch_and_missing_puzzle_witness :
  ChesspyWindows.get_lichess_puzzle (Ok found) gui0
  = (gui0, ChesspyWindows.Return
             (JObj [(u "game", JObj [(u "pgn", JStr (u "1. a3"))])])).
Proof.
  destruct (@puzzle_fetch_and_missing_puzzle Toy.lib Toy.desktop (Ok found) gui0)
    as (_ & Hdoc & _).
  destruct (Hdoc found _ eq_refl eq_refl) as (H200 & _).
  apply H200. reflexivity.
Defined.

Lemma parse_move_uci_first_witness :
  exists s token,
    is_stripped (u " 1. a2a3 ") s /\
    (py_contains 46%N s = true -> is_last_token s token) /\
    (py_contains 46%N s = false -> token = s) /\
    (forall mv, Toy.read_uci Toy.start token = Ok mv ->
                Chesspy.parse_move (H := Toy.lib) (u " 1. a2a3 ") Toy.start = Ok mv) /\
    (forall e, Toy.read_uci Toy.start token = Raise e ->
               Chesspy.parse_move (H := Toy.lib) (u " 1. a2a3 ") Toy.start
               = Toy.read_san Toy.start token).
Proof. exact (@parse_move_uci_first Toy.lib (u " 1. a2a3 ") Toy.start). Defined.

Lemma keys_other_than_enter_edit_the_line_witness :
  Chesspy.input_line (fst (Chesspy.key_loop [97; 50; 127; -1; 51] app0))
  = u "a3".
Proof.
  destruct (@keys_other_than_enter_edit_the_line Toy.lib
              [97; 50; 127; -1; 51] app0) as (_ & _ & Hl).
  - repeat constructor.
  - exact Hl.
Defined.

Lemma typed_line_is_submitted_witness :
  Chesspy.key_loop (key_codes (u "a2a3") ++ [10]) app0
  = (redraw (Chesspy.set_input_line []
               (fst (Chesspy.handle_player_move (u "a2a3") app0))),
     Ok false).
Proof.
  apply (@typed_line_is_submitted Toy.lib (u "a2a3") 10 app0).
  - apply printable_text. reflexivity.
  - reflexivity.
Defined.

Lemma backspace_undoes_a_key_witness :
  Chesspy.key_loop [97; 127] app0 = (redraw app0, Ok false).
Proof.
  apply (@backspace_undoes_a_key Toy.lib 97%N 127 app0).
  - unfold printable. lia.
  - reflexivity.
Defined.

Lemma input_line_stays_printable_witness :
  Forall printable
         (Chesspy.input_line
            (fst (Chesspy.run (Ok tt) [one_round] (Ok tt) app0))).
Proof.
  apply (@input_line_stays_printable Toy.lib). constructor.
Defined.

Lemma exit_ends_run_witness :
  snd (Chesspy.run (Ok tt) [exit_round; one_round] (Ok tt) app0) = Ok UserExit
  /\ Chesspy.engine
       (fst (Chesspy.run (Ok tt) [exit_round; one_round] (Ok tt) app0)) = None
  /\ Chesspy.board
       (fst (Chesspy.run (Ok tt) [exit_round; one_round] (Ok tt) app0))
     = Toy.start.
Proof.
  destruct (@exit_ends_run Toy.lib (Ok tt) (Ok tt) exit_round [one_round]
              (u "exit") 10 [] app0) as (Hr & He & _ & Hb).
  - reflexivity.
  - apply printable_text. reflexivity.
  - reflexivity.
  - reflexivity.
  - reflexivity.
  - split; [exact Hr|]. split; [exact He|]. apply Hb. reflexivity.
Defined.

Lemma draw_screen_board_rows_witness :
  exists ln,
    In (8, 0, ln) (Chesspy.stdscr (fst (Chesspy.draw_screen app0)))
    /\ length ln = 15%nat
    /\ nth_error ln 0 = Some 9817%N.
Proof.
  destruct (@draw_screen_board_rows Toy.lib app0 1) as (ln & Hin & Hlen & Hg & _).
  - lia.
  - exists ln. split; [exact Hin|]. split; [exact Hlen|].
    apply (Hg 0). lia.
Defined.

Lemma toy_pieces (to_move : bool) :
  chess_pieces (H := Toy.lib) (Toy.mk_position (Toy.pieces Toy.start) to_move).
Proof.
  intros file rank p _ _ Hp. unfold chess_piece.
  change (option_map snd
            (find (fun e => fst e =? square file rank) (Toy.pieces Toy.start))
          = Some p) in Hp.
  destruct (find _ _) as [[sq q]|] eqn:Hf; [|discriminate].
  injection Hp as <-.
  apply find_some in Hf. destruct Hf as [Hin _].
  cbn in Hin.
  repeat (destruct Hin as [Hin|Hin]; [injection Hin as _ <-; cbn; lia|]).
  contradiction.
Defined.

Lemma board_text_determines_pieces_witness :
  Toy.at_square Toy.start (square 0 1)
  = Toy.at_square black_to_move (square 0 1).
Proof.
  apply (@board_text_determines_pieces Toy.lib Toy.start black_to_move 0 1).
  - apply (toy_pieces true).
  - apply (toy_pieces false).
  - reflexivity.
  - lia.
  - lia.
Defined.

Lemma score_text_two_places_witness :
  Chesspy.analysis_variants
    (fst (Chesspy.analyse_one (@mk_info Toy.lib (Some (Cp (-35))) None None)
                              app0))
  = [(-35, u "-0.35", [])].
Proof.
  rewrite (@score_text_two_places Toy.lib
             (@mk_info Toy.lib (Some (Cp (-35))) None None) (-35) app0).
  - reflexivity.
  - reflexivity.
  - lia.
Defined.

Lemma analysis_is_fresh_or_failed_witness :
  Chesspy.best_eval_str
    (fst (Chesspy.do_continuous_analysis no_analysis app_engine))
  = u "---".
Proof.
  destruct (@analysis_is_fresh_or_failed Toy.lib no_analysis
              (SimpleEngine Chesspy.ENGINE_PATH) app_engine eq_refl)
    as [[Hs _]|(e & _ & Hb)].
  - vm_compute in Hs. discriminate Hs.
  - exact Hb.
Defined.

Lemma thermometer_bar_height_witness :
  exists h,
    ChesspyWindows.out
      (fst (ChesspyWindows.get_analysis
              (Some (SimpleEngine ChesspyWindows.ENGINE_PATH)) (Ok fourteen)
              gui0))
    = [ChesspyWindows.BlitText (u "Eval: cp 14") ChesspyWindows.white 50 20;
       ChesspyWindows.DrawRect (255, 0, 0) 650 50 20 300;
       ChesspyWindows.DrawRect (0, 255, 0) 650 (50 + (300 - h)) 20 h;
       ChesspyWindows.Flip]
    /\ 169 <= h <= 172.
Proof.
  destruct (@thermometer_bar_height Toy.lib Toy.desktop
              (SimpleEngine ChesspyWindows.ENGINE_PATH) fourteen 14 gui0)
    as (h & Heq & Hh & _).
  - reflexivity.
  - lia.
  - exists h. rewrite Heq. split; [reflexivity | lia].
Defined.

Lemma no_thermometer_without_centipawns_witness :
  ChesspyWindows.out
    (fst (ChesspyWindows.get_analysis None (Ok fourteen) gui0))
  = [ChesspyWindows.BlitText (u "Eval: Brak silnika") ChesspyWindows.white
                             50 20;
     ChesspyWindows.Flip].
Proof.
  rewrite (@no_thermometer_without_centipawns Toy.lib Toy.desktop None
             (Ok fourteen) gui0).
  - reflexivity.
  - intros e info cp He. discriminate He.
Defined.

Lemma ai_turn_plays_a_legal_move_witness :
  exists mv,
    In mv (Toy.moves Toy.start)
    /\ ChesspyWindows.board
         (fst (ChesspyWindows.ai_turn None (frame 0 0) gui0))
       = Toy.play Toy.start mv.
Proof.
  destruct (@ai_turn_plays_a_legal_move Toy.lib Toy.desktop None (frame 0 0)
              gui0) as (mv & Hin & _ & Hb & _).
  - discriminate.
  - exists mv. split; [exact Hin | exact Hb].
Defined.

Lemma play_against_ai_exceptions_witness :
  broken_pipe
  = mk_exn IndexError (u "Cannot choose from an empty sequence")
  \/ ChesspyWindows.ai_quit whole_game = Raise broken_pipe.
Proof.
  apply (@play_against_ai_exceptions Toy.lib Toy.desktop whole_game gui0).
  vm_compute. reflexivity.
Defined.

Lemma receive_error_ends_reception_witness :
  ChesspyWindows.board
    (fst (ChesspyWindows.receive_step (Raise broken_pipe) gui0))
  = Toy.start
  /\ exists pushes,
       ChesspyWindows.push_log
         (fst (ChesspyWindows.online_loop true (u "Przeciwnik1") true
                 [ChesspyWindows.Received (Raise broken_pipe);
                  ChesspyWindows.Received (Ok opponent_move)] gui0))
       = pushes
       /\ Forall (fun ev => exists b mv, ev = ChesspyWindows.Pushed b mv)
                 pushes.
Proof.
  destruct (@receive_error_ends_reception Toy.lib Toy.desktop true
              (u "Przeciwnik1") (Raise broken_pipe)
              [ChesspyWindows.Received (Ok opponent_move)] gui0)
    as (Hb & _ & pushes & Hp & Hall).
  - reflexivity.
  - split; [exact Hb|]. exists pushes. split; [exact Hp | exact Hall].
Defined.

Lemma piece_image_is_loaded_witness :
  ChesspyWindows.piece_images (fst (ChesspyWindows.load_piece_images gui0))
  !! u "wp"
  = Some (u "pieces/wp.png").
Proof.
  destruct (@piece_image_is_loaded Toy.lib Toy.desktop (mk_piece 1 true) gui0)
    as (_ & Hl & _).
  - unfold chess_piece. cbn. lia.
  - exact Hl.
Defined.

Lemma unreadable_puzzle_ends_program_witness :
  snd (ChesspyWindows.main
         [[ChesspyWindows.MenuClick 300 230 whole_game
             (Ok (mk_response 200 (Ok no_game))) [] offline]] gui0)
  = ChesspyWindows.Throw (mk_exn KeyError (u "'game'")).
Proof.
  apply (@unreadable_puzzle_ends_program Toy.lib Toy.desktop).
  - lia.
  - lia.
  - reflexivity.
  - reflexivity.
Defined.
